(** * surge: multipart transfer engine for Amazon Glacier

    A shallow embedding of the byte-range model ([utils.Range],
    [utils.RangeFromString]), the tree-hash wrapper
    ([utils.ComputeTreeHash]), the upload coordinator ([uploader]) and the
    download coordinator ([downloader]), followed by the properties of
    the transfer engine that are proved about them.

    Conventions of the embedding:
    - Go's [int64] is a [Z] kept in range by [Int64.wrap]; every
      arithmetic operation of the source goes through [Int64.add] or
      [Int64.sub], so overflow behaves as it does in Go.
    - A Go [string] is a [string] (a sequence of 8-bit characters); a
      [[]byte] is a [list byte].
    - A pointer that may be [nil] is an [option]; dereferencing [None] is
      the outcome [Panic].
    - A function returning [error] returns an [outcome]. *)

From Stdlib Require Import ZArith Lia List Ascii String.
From Stdlib.Strings Require Import Byte.
From stdpp Require Import base decidable option list strings pretty gmap.

Local Open Scope string_scope.
Local Open Scope list_scope.
Local Open Scope Z_scope.

(* ===================================================================== *)
(** * Machine integers *)
(* ===================================================================== *)

Module Int64.

Definition min_int : Z := -9223372036854775808.
Definition max_int : Z := 9223372036854775807.
Definition modulus : Z := 18446744073709551616.

(** Two's complement reduction of a mathematical integer to [int64]. *)
Definition wrap (z : Z) : Z := (z - min_int) mod modulus + min_int.

Definition add (a b : Z) : Z := wrap (a + b).
Definition sub (a b : Z) : Z := wrap (a - b).

Definition in_range (z : Z) : Prop := min_int <= z <= max_int.

End Int64.

(* ===================================================================== *)
(** * The pieces of the Go standard library used by [utils] *)
(* ===================================================================== *)

Module Strconv.

Inductive NumError := ErrSyntax | ErrRange.

Definition maxUint64 : Z := 18446744073709551615.

(** The value of a decimal digit; every other byte, letters and the
    underscore included, is a syntax error in base 10. *)
Definition digit (c : ascii) : option Z :=
  let n := Z.of_N (N_of_ascii c) in
  if (48 <=? n) && (n <=? 57) then Some (n - 48) else None.

(** The digit loop of [strconv.ParseUint(s, 10, 64)]: [n] is the value
    accumulated so far, [cutoff] the first value whose tenfold no longer
    fits. *)
Fixpoint parseUintLoop (s : string) (n : Z) : Z + NumError :=
  match s with
  | EmptyString => inl n
  | String c rest =>
      match digit c with
      | None => inr ErrSyntax
      | Some d =>
          if maxUint64 / 10 + 1 <=? n then inr ErrRange
          else
            let n1 := n * 10 + d in
            if maxUint64 <? n1 then inr ErrRange
            else parseUintLoop rest n1
      end
  end.

Definition ParseUint (s : string) : Z + NumError :=
  match s with
  | EmptyString => inr ErrSyntax
  | _ => parseUintLoop s 0
  end.

(** [strconv.ParseInt(s, 10, 64)]: an optional sign, then [ParseUint],
    then the signed range check. *)
Definition ParseInt (s : string) : Z + NumError :=
  match s with
  | EmptyString => inr ErrSyntax
  | String c rest =>
      let '(neg, body) :=
        if Ascii.eqb c "+" then (false, rest)
        else if Ascii.eqb c "-" then (true, rest)
        else (false, s) in
      match ParseUint body with
      | inr ErrSyntax => inr ErrSyntax
      | inr ErrRange => inr ErrRange
      | inl un =>
          let cutoff := 9223372036854775808 in
          if negb neg && (cutoff <=? un) then inr ErrRange
          else if neg && (cutoff <? un) then inr ErrRange
          else inl (if neg then - un else un)
      end
  end.

(** [fmt.Sprint] of an [int64] operand, which is [strconv.FormatInt(n, 10)]. *)
Definition FormatInt (n : Z) : string := pretty n.

End Strconv.

Module Strings.

(** [strings.Split(s, sep)] for a one-byte separator: the fields between
    the occurrences of [sep], one more than there are occurrences. *)
Fixpoint Split (s : string) (sep : ascii) : list string :=
  match s with
  | EmptyString => [EmptyString]
  | String c rest =>
      if Ascii.eqb c sep then EmptyString :: Split rest sep
      else
        match Split rest sep with
        | field :: fields => String c field :: fields
        | [] => [String c EmptyString]
        end
  end.

End Strings.

(* ===================================================================== *)
(** * crypto/sha256 and encoding/hex *)
(* ===================================================================== *)

Module Sha256.

(** [uint32] arithmetic on [Z]. *)
Definition mask32 : Z := 0xffffffff.
Definition u32 (x : Z) : Z := Z.land x mask32.
Definition add32 (x y : Z) : Z := u32 (x + y).
Definition not32 (x : Z) : Z := Z.lxor (u32 x) mask32.

(** [bits.RotateLeft32(x, -k)], a rotation to the right by [k]. *)
Definition rotr (x k : Z) : Z :=
  Z.lor (Z.shiftr x k) (u32 (Z.shiftl x (32 - k))).

Definition byteZ (b : byte) : Z := Z.of_N (Byte.to_N b).

Definition Zbyte (z : Z) : byte :=
  match Byte.of_N (Z.to_N (Z.land z 0xff)) with
  | Some b => b
  | None => x00
  end.

(** The round constants [_K], in decimal. *)
Definition _K : list Z :=
  [
    1116352408; 1899447441; 3049323471; 3921009573;
    961987163; 1508970993; 2453635748; 2870763221;
    3624381080; 310598401; 607225278; 1426881987;
    1925078388; 2162078206; 2614888103; 3248222580;
    3835390401; 4022224774; 264347078; 604807628;
    770255983; 1249150122; 1555081692; 1996064986;
    2554220882; 2821834349; 2952996808; 3210313671;
    3336571891; 3584528711; 113926993; 338241895;
    666307205; 773529912; 1294757372; 1396182291;
    1695183700; 1986661051; 2177026350; 2456956037;
    2730485921; 2820302411; 3259730800; 3345764771;
    3516065817; 3600352804; 4094571909; 275423344;
    430227734; 506948616; 659060556; 883997877;
    958139571; 1322822218; 1537002063; 1747873779;
    1955562222; 2024104815; 2227730452; 2361852424;
    2428436474; 2756734187; 3204031479; 3329325298
  ].

(** The eight chaining words [h0 .. h7] of a digest. *)
Record digest := mkDigest {
  h0 : Z; h1 : Z; h2 : Z; h3 : Z; h4 : Z; h5 : Z; h6 : Z; h7 : Z
}.

Definition init : digest :=
  mkDigest 1779033703 3144134277 1013904242 2773480762
           1359893119 2600822924 528734635 1541459225.

(** Big-endian packing of a block's bytes into words. *)
Fixpoint words (p : list Z) : list Z :=
  match p with
  | a :: b :: c :: d :: rest =>
      Z.lor (Z.lor (Z.shiftl a 24) (Z.shiftl b 16))
            (Z.lor (Z.shiftl c 8) d) :: words rest
  | _ => []
  end.

(** The message schedule [w[16..63]]; [recent] holds the words computed
    so far, the latest first. *)
Fixpoint schedule (k : nat) (recent : list Z) : list Z :=
  match k with
  | O => rev recent
  | S k' =>
      let v1 := nth 1 recent 0 in
      let t1 := Z.lxor (Z.lxor (rotr v1 17) (rotr v1 19)) (Z.shiftr v1 10) in
      let v2 := nth 14 recent 0 in
      let t2 := Z.lxor (Z.lxor (rotr v2 7) (rotr v2 18)) (Z.shiftr v2 3) in
      schedule k'
        (add32 (add32 (add32 t1 (nth 6 recent 0)) t2) (nth 15 recent 0)
         :: recent)
  end.

(** One round of the compression loop. *)
Definition round (s : digest) (kw : Z * Z) : digest :=
  let '(mkDigest a b c d e f g h) := s in
  let t1 :=
    add32 (add32 (add32 (add32 h
      (Z.lxor (Z.lxor (rotr e 6) (rotr e 11)) (rotr e 25)))
      (Z.lxor (Z.land e f) (Z.land (not32 e) g)))
      (fst kw)) (snd kw) in
  let t2 :=
    add32 (Z.lxor (Z.lxor (rotr a 2) (rotr a 13)) (rotr a 22))
          (Z.lxor (Z.lxor (Z.land a b) (Z.land a c)) (Z.land b c)) in
  mkDigest (add32 t1 t2) a b c (add32 d t1) e f g.

(** [blockGeneric] on one 16-word block. *)
Definition block (dig : digest) (w16 : list Z) : digest :=
  let w := schedule 48 (rev w16) in
  let r := fold_left round (combine _K w) dig in
  mkDigest (add32 (h0 dig) (h0 r)) (add32 (h1 dig) (h1 r))
           (add32 (h2 dig) (h2 r)) (add32 (h3 dig) (h3 r))
           (add32 (h4 dig) (h4 r)) (add32 (h5 dig) (h5 r))
           (add32 (h6 dig) (h6 r)) (add32 (h7 dig) (h7 r)).

Fixpoint blocks (fuel : nat) (dig : digest) (ws : list Z) : digest :=
  match fuel, ws with
  | S fuel', _ :: _ => blocks fuel' (block dig (firstn 16 ws)) (skipn 16 ws)
  | _, _ => dig
  end.

Definition be32 (x : Z) : list byte :=
  [Zbyte (Z.shiftr x 24); Zbyte (Z.shiftr x 16); Zbyte (Z.shiftr x 8); Zbyte x].

Definition be64 (x : Z) : list Z :=
  map (fun k => Z.land (Z.shiftr x k) 0xff) [56; 48; 40; 32; 24; 16; 8; 0].

(** Padding: the byte [0x80], zeros up to 56 modulo 64, then the length in
    bits on eight bytes. *)
Definition padding (len : Z) : list Z :=
  let zeros := (55 - len) mod 64 in
  0x80 :: repeat 0 (Z.to_nat zeros) ++ be64 (len * 8).

(** [sha256.Sum256]. *)
Definition Sum256 (data : list byte) : list byte :=
  let msg := map byteZ data in
  let ws := words (msg ++ padding (Z.of_nat (length data))) in
  let '(mkDigest a b c d e f g h) := blocks (length ws) init ws in
  be32 a ++ be32 b ++ be32 c ++ be32 d ++ be32 e ++ be32 f ++ be32 g ++ be32 h.

End Sha256.

Module Hex.

Definition hextable (n : Z) : ascii :=
  match n with
  | 0 => "0" | 1 => "1" | 2 => "2" | 3 => "3" | 4 => "4" | 5 => "5"
  | 6 => "6" | 7 => "7" | 8 => "8" | 9 => "9" | 10 => "a" | 11 => "b"
  | 12 => "c" | 13 => "d" | 14 => "e" | _ => "f"
  end%char.

(** [hex.EncodeToString]: two lower-case digits per byte. *)
Fixpoint EncodeToString (src : list byte) : string :=
  match src with
  | [] => EmptyString
  | v :: rest =>
      let z := Sha256.byteZ v in
      String.String (hextable (Z.shiftr z 4))
        (String.String (hextable (Z.land z 0x0f)) (EncodeToString rest))
  end.

End Hex.

(* ===================================================================== *)
(** * The tree hash of the Glacier SDK *)
(* ===================================================================== *)

Module Bytes.

(** [b[:n]] and [b[n:]] with the count kept in [Z]; a count beyond the
    length keeps, respectively drops, everything. *)
Fixpoint takeZ {A} (n : Z) (l : list A) : list A :=
  match l with
  | [] => []
  | x :: rest => if n <=? 0 then [] else x :: takeZ (n - 1) rest
  end.

Fixpoint dropZ {A} (n : Z) (l : list A) : list A :=
  match l with
  | [] => []
  | _ :: rest => if n <=? 0 then l else dropZ (n - 1) rest
  end.

Definition len {A} (l : list A) : Z := Z.of_nat (length l).

End Bytes.

Module Glacier.

Definition bufsize : Z := 1024 * 1024.

(** Modelled from the spec: [glacier.ComputeHashes] belongs to the AWS SDK
    and is not part of the repository. A reader is modelled by the bytes
    it yields from its current position until it stops. The leaves are
    the SHA-256 digests of the consecutive chunks of at most 1 MiB, the
    last one possibly shorter; a reader that yields nothing has no
    leaf. *)
Fixpoint leaves (fuel : nat) (r : list byte) : list (list byte) :=
  match fuel with
  | O => []
  | S fuel' =>
      match Bytes.takeZ bufsize r with
      | [] => []
      | chunk => Sha256.Sum256 chunk :: leaves fuel' (Bytes.dropZ bufsize r)
      end
  end.

(** Modelled from the spec: one level of the tree. Adjacent nodes are
    combined left to right by hashing the concatenation of their digests;
    an unpaired trailing node moves up unchanged. *)
Fixpoint level (hashes : list (list byte)) : list (list byte) :=
  match hashes with
  | lhs :: rhs :: rest => Sha256.Sum256 (lhs ++ rhs) :: level rest
  | _ => hashes
  end.

(** Modelled from the spec: levels are built until one node remains. *)
Fixpoint reduce (fuel : nat) (hashes : list (list byte)) : list (list byte) :=
  match fuel with
  | O => hashes
  | S fuel' =>
      match hashes with
      | _ :: _ :: _ => reduce fuel' (level hashes)
      | _ => hashes
      end
  end.

(** Modelled from the spec: [glacier.ComputeTreeHash], the root of the
    tree, and no value for an empty list of leaves. *)
Definition ComputeTreeHash (hashes : list (list byte)) : option (list byte) :=
  head (reduce (length hashes) hashes).

(** Modelled from the spec: the [TreeHash] field of
    [glacier.ComputeHashes(r)]. *)
Definition TreeHash (r : list byte) : option (list byte) :=
  ComputeTreeHash (leaves (length r) r).

End Glacier.

(* ===================================================================== *)
(** * Package utils: the range model *)
(* ===================================================================== *)

Module Utils.

(** [type Range struct { Offset int64; Limit int64 }] *)
Record Range := mkRange { Offset : Z; Limit : Z }.

Definition Range_eqb (a b : Range) : bool :=
  (Offset a =? Offset b) && (Limit a =? Limit b).

(** [func (r *Range) String() string]:
    [fmt.Sprint(r.Offset, "-", r.Offset+r.Limit-1)]. No space is inserted,
    the middle operand being a string. *)
Definition String (r : Range) : string :=
  Strconv.FormatInt (Offset r) +:+ "-" +:+
  Strconv.FormatInt (Int64.sub (Int64.add (Offset r) (Limit r)) 1).

(** [func RangeFromString(s *string) *Range], on the string [s] points to. *)
Definition RangeFromString (s : string) : option Range :=
  match Strings.Split s "-" with
  | [first; second] =>
      match Strconv.ParseInt first with
      | inl begin =>
          match Strconv.ParseInt second with
          | inl end_ =>
              let limit := Int64.add (Int64.sub end_ begin) 1 in
              if limit <=? 0 then None
              else Some {| Offset := begin; Limit := limit |}
          | inr _ => None
          end
      | inr _ => None
      end
  | _ => None
  end.

(** [func ComputeTreeHash(r io.ReadSeeker) *string], on the bytes the
    reader yields. *)
Definition ComputeTreeHash (r : list byte) : option string :=
  match Glacier.TreeHash r with
  | None => None
  | Some treeHash => Some (Hex.EncodeToString treeHash)
  end.

End Utils.


(* ===================================================================== *)
(** * Results of fallible operations *)
(* ===================================================================== *)

(** What a call does: it returns normally ([Ok]), returns a non-nil
    [error] whose text is [msg] ([Err]), panics on a nil dereference or a
    misuse of the run-time ([Panic]), or never returns ([Hang]: a loop
    that does not end within the given fuel, or a send that no worker
    receives). *)
Inductive outcome (A : Type) : Type :=
| Ok (a : A)
| Err (msg : string)
| Panic
| Hang.

Arguments Ok {A} a.
Arguments Err {A} msg.
Arguments Panic {A}.
Arguments Hang {A}.

Global Instance outcome_ret : MRet outcome := fun A a => Ok a.

Global Instance outcome_bind : MBind outcome := fun A B k m =>
  match m with
  | Ok a => k a
  | Err msg => Err msg
  | Panic => Panic
  | Hang => Hang
  end.

(** A call that also talks to the remote service: its outcome, and the
    requests it sent, in order. The requests sent before a failure are
    kept. *)
Definition traced (E A : Type) : Type := outcome A * list E.

Global Instance traced_ret {E} : MRet (traced E) := fun A a => (Ok a, []).

Global Instance traced_bind {E} : MBind (traced E) := fun A B k m =>
  match m with
  | (Ok a, sent) => let '(r, sent') := k a in (r, sent ++ sent')
  | (Err msg, sent) => (Err msg, sent)
  | (Panic, sent) => (Panic, sent)
  | (Hang, sent) => (Hang, sent)
  end.

Definition quiet {E A} (m : outcome A) : traced E A := (m, []).
Definition send {E} (request : E) : traced E unit := (Ok tt, [request]).

(** The text of the error a call returned, if it returned one. *)
Definition failure {A} (m : outcome A) : option string :=
  match m with
  | Err msg => Some msg
  | _ => None
  end.

(** The files the engine reads and writes. A handle is the content of the
    open file; a nil handle yields no byte. *)
Module File.

Definition handle := option (list byte).

(** The bytes a reader positioned at the start of the file yields. *)
Definition contents (f : handle) : list byte :=
  match f with
  | Some data => data
  | None => []
  end.

(** [io.NewSectionReader(f, off, n)]: the bytes of [f] from [off] up to
    [off + n], or up to the end of the file when that comes first, as it
    does whenever [off + n] is beyond [int64]; reading at a negative
    offset fails and yields nothing. *)
Definition section (f : handle) (off n : Z) : list byte :=
  if off <? 0 then [] else Bytes.takeZ n (Bytes.dropZ off (contents f)).

(** [f.WriteAt(b, off)] on a regular file: the gap up to [off] is filled
    with zero bytes. *)
Definition writeAt (data b : list byte) (off : Z) : list byte :=
  let padded := data ++ repeat x00 (Z.to_nat (off - Bytes.len data)) in
  Bytes.takeZ off padded ++ b ++ Bytes.dropZ (off + Bytes.len b) data.

(** [os.Truncate(name, size)]: cut, or extend with zero bytes. *)
Definition truncate (data : list byte) (size : Z) : list byte :=
  Bytes.takeZ size data ++ repeat x00 (Z.to_nat (size - Bytes.len data)).

End File.

(* ===================================================================== *)
(** * Package uploader *)
(* ===================================================================== *)

Module Uploader.

Import Utils.

Record Input := mkInput {
  AccountId : string;
  VaultName : string;
  FileName : string;
  UploadId : string;
  PartSize : Z
}.

(** [glacier.PartListElement] and [glacier.ListPartsOutput], with the
    fields the uploader reads. *)
Record PartListElement := mkPart {
  RangeInBytes : option string;
  SHA256TreeHash : option string
}.

Record ListPartsOutput := mkPage {
  PartSizeInBytes : option Z;
  Parts : list PartListElement
}.

(** What [os.Open] and [Stat] find at [FileName]. *)
Inductive entry :=
| OpenFails (msg : string)
| StatFails (msg : string)
| Directory
| Regular (data : list byte).

(** The remote service as the uploader sees it: what each request's
    [Send] returns. [ListParts] is the sequence of pages the paginator
    delivers, and the error it stops with, if any. *)
Record Service := mkService {
  InitiateMultipartUpload : Input -> option string + string;
  ListParts : Input -> list ListPartsOutput * option string;
  UploadMultipartPart : Input -> string -> string -> list byte -> option string;
  CompleteMultipartUpload : Input -> string -> string -> option string + string
}.

(** The requests sent to the service, in the order they are sent. *)
Inductive Request :=
| InitiateMultipartUploadRequest
| ListPartsRequest
| UploadMultipartPartRequest (range : string)
| CompleteMultipartUploadRequest.

(** One line of the log of [multipartUpload] per dispatched part: the
    part, and the error of its upload if it failed. *)
Definition LogEntry : Type := Range * option string.

Record Uploader := mkUploader {
  input : Input;
  uploaded : gset Z;
  file : File.handle;
  size : Z;
  offset : Z
}.

Definition New (input : Input) : Uploader :=
  mkUploader input ∅ None 0 0.

Definition with_offset (s : Uploader) (o : Z) : Uploader :=
  mkUploader (input s) (uploaded s) (file s) (size s) o.

Definition with_uploaded (s : Uploader) (u : gset Z) : Uploader :=
  mkUploader (input s) u (file s) (size s) (offset s).

Definition with_UploadId (i : Input) (id : string) : Input :=
  mkInput (AccountId i) (VaultName i) (FileName i) id (PartSize i).

Definition initiateUpload (svc : Service) (s : Uploader)
  : traced Request Uploader :=
  if decide (UploadId (input s) = "") then
    _ ← send InitiateMultipartUploadRequest;
    match InitiateMultipartUpload svc (input s) with
    | inr err => quiet (Err err)
    | inl None => quiet Panic
    | inl (Some id) =>
        mret (mkUploader (with_UploadId (input s) id) (uploaded s)
                         (file s) (size s) (offset s))
    end
  else mret s.

(** [getNextRange]: the loop runs at most [fuel] times. *)
Fixpoint getNextRange (fuel : nat) (s : Uploader)
  : outcome (option Range * Uploader) :=
  match fuel with
  | O => Hang
  | S fuel' =>
      if size s <=? offset s then Ok (None, s)
      else
        let offset0 := offset s in
        let s' := with_offset s (Int64.add (offset s) (PartSize (input s))) in
        if decide (offset0 ∈ uploaded s) then getNextRange fuel' s'
        else
          let limit := PartSize (input s) in
          let limit :=
            if size s <? Int64.add offset0 limit
            then Int64.sub (size s) offset0 else limit in
          Ok (Some (mkRange offset0 limit), s')
  end.

(** The ranges that [getNextRange] yields when it is called again and
    again until it returns nil, as the loop of [multipartUpload] does. *)
Fixpoint produce (fuel : nat) (s : Uploader) : outcome (list Range) :=
  match fuel with
  | O => Hang
  | S fuel' =>
      '(next, s1) ← getNextRange fuel s;
      match next with
      | None => Ok []
      | Some p => rest ← produce fuel' s1; Ok (p :: rest)
      end
  end.

Definition openFile (fs : entry) (s : Uploader) : outcome Uploader :=
  match fs with
  | OpenFails msg => Err msg
  | StatFails msg => Err msg
  | Directory => Err "directories are not supported"
  | Regular data =>
      Ok (mkUploader (input s) (uploaded s) (Some data)
                     (Bytes.len data) (offset s))
  end.

(** [uploadPart] returns its error, if any. *)
Definition uploadPart (svc : Service) (s : Uploader) (r : Range)
  : traced Request (option string) :=
  let body := File.section (file s) (Offset r) (Limit r) in
  match ComputeTreeHash body with
  | None => mret (Some "could not compute hashes")
  | Some treeHash =>
      let rangeString := "bytes " +:+ Utils.String r +:+ "/*" in
      _ ← send (UploadMultipartPartRequest rangeString);
      mret (UploadMultipartPart svc (input s) rangeString treeHash body)
  end.

(** The dispatch loop of [multipartUpload]. The pool of workers is
    modelled by one worker that takes the parts in the order they are
    sent; a failed part is logged and the loop goes on. With no worker
    the first send blocks for ever. With several workers the order of
    the requests and of the log among the parts is that of one schedule
    of many: what is stated of them is stated up to a permutation. *)
Fixpoint dispatch (svc : Service) (fuel : nat) (jobs : Z) (s : Uploader)
  : traced Request (Uploader * list LogEntry) :=
  match fuel with
  | O => quiet Hang
  | S fuel' =>
      '(next, s1) ← quiet (getNextRange fuel s);
      match next with
      | None => mret (s1, [])
      | Some p =>
          if jobs =? 0 then quiet Hang
          else
            err ← uploadPart svc s1 p;
            '(s2, log) ← dispatch svc fuel' jobs s1;
            mret (s2, (p, err) :: log)
      end
  end.

(** [multipartUpload]: [wg.Add] panics on a negative count. *)
Definition multipartUpload (svc : Service) (fuel : nat) (jobs : Z)
    (s : Uploader) : traced Request (Uploader * list LogEntry) :=
  if jobs <? 0 then quiet Panic else dispatch svc fuel jobs s.

Definition checkPart (s : Uploader) (part : PartListElement)
  : outcome (bool * Uploader) :=
  match RangeInBytes part with
  | None => Panic
  | Some text =>
      match RangeFromString text with
      | None => Err ("part (" +:+ text +:+ ") range is invalid")
      | Some partRange =>
          if size s <=? Offset partRange then Err "file size mismatch"
          else
            let body :=
              File.section (file s) (Offset partRange) (Limit partRange) in
            match ComputeTreeHash body with
            | None =>
                Err ("could not compute hashes of part (" +:+ text +:+ ")")
            | Some treeHash =>
                match SHA256TreeHash part with
                | None => Panic
                | Some remote =>
                    if decide (treeHash = remote) then
                      Ok (true,
                          with_uploaded s ({[Offset partRange]} ∪ uploaded s))
                    else Ok (false, s)
                end
            end
      end
  end.

(** The inner loop of [checkUploadedParts], over the parts of a page. *)
Fixpoint checkParts (s : Uploader) (parts : list PartListElement)
  : outcome Uploader :=
  match parts with
  | [] => Ok s
  | part :: rest =>
      '(_, s') ← checkPart s part;
      checkParts s' rest
  end.

(** The outer loop of [checkUploadedParts], over the pages; each page
    costs a request. *)
Fixpoint checkPages (s : Uploader) (pages : list ListPartsOutput)
  : traced Request Uploader :=
  match pages with
  | [] => mret s
  | result :: rest =>
      _ ← send ListPartsRequest;
      match PartSizeInBytes result with
      | None => quiet Panic
      | Some declared =>
          if decide (declared = PartSize (input s)) then
            s' ← quiet (checkParts s (Parts result));
            checkPages s' rest
          else quiet (Err "part size mismatch")
      end
  end.

Definition checkUploadedParts (svc : Service) (s : Uploader)
  : traced Request Uploader :=
  let '(pages, pagerErr) := ListParts svc (input s) in
  s' ← checkPages s pages;
  match pagerErr with
  | Some err => _ ← send ListPartsRequest; quiet (Err err)
  | None => mret s'
  end.

Definition completeUpload (svc : Service) (s : Uploader)
  : traced Request (option string) :=
  match ComputeTreeHash (File.contents (file s)) with
  | None => quiet (Err "could not compute hashes")
  | Some treeHash =>
      _ ← send CompleteMultipartUploadRequest;
      match CompleteMultipartUpload svc (input s)
              (Strconv.FormatInt (size s)) treeHash with
      | inr err => quiet (Err err)
      | inl location => mret location
      end
  end.

(** [Upload]; the location is dereferenced when it is logged. *)
Definition Upload (svc : Service) (fs : entry) (fuel : nat) (jobs : Z)
    (s : Uploader) : traced Request unit :=
  s1 ← quiet (openFile fs s);
  s2 ← initiateUpload svc s1;
  s3 ← checkUploadedParts svc s2;
  '(s4, _) ← multipartUpload svc fuel jobs s3;
  location ← completeUpload svc s4;
  match location with
  | None => quiet Panic
  | Some _ => mret tt
  end.

End Uploader.

(* ===================================================================== *)
(** * Package downloader *)
(* ===================================================================== *)

Module Downloader.

Import Utils.

Record Input := mkInput {
  AccountId : string;
  VaultName : string;
  FileName : string;
  JobId : string;
  PartSize : Z
}.

(** [glacier.DescribeJobOutput] and [glacier.GetJobOutputOutput], with
    the fields the downloader reads. *)
Record DescribeJobOutput := mkJob {
  Action : string;
  StatusCode : string;
  StatusMessage : option string;
  ArchiveSizeInBytes : option Z;
  SHA256TreeHash : option string
}.

Record GetJobOutputOutput := mkOutput {
  Body : list byte;
  Checksum : option string
}.

(** What [Send] returns for each request; for [GetJobOutput] a failure to
    read the body counts as a failure of the request, both being returned
    as they are. *)
Record Service := mkService {
  DescribeJob : Input -> DescribeJobOutput + string;
  GetJobOutput : Input -> string -> GetJobOutputOutput + string
}.

(** What is found at [FileName] when the output file is created. *)
Inductive destination :=
| Free
| Taken
| Unwritable (msg : string).

(** One line of the log per part that a worker has finished: the part,
    and the error of its download if it failed. *)
Definition LogEntry : Type := Range * option string.

Record Downloader := mkDownloader {
  input : Input;
  file : File.handle;
  treeHash : option string;
  size : Z;
  offset : Z
}.

Definition New (input : Input) : Downloader :=
  mkDownloader input None None 0 0.

Definition with_file (d : Downloader) (f : File.handle) : Downloader :=
  mkDownloader (input d) f (treeHash d) (size d) (offset d).

Definition with_offset (d : Downloader) (o : Z) : Downloader :=
  mkDownloader (input d) (file d) (treeHash d) (size d) o.

Definition openFile (dest : destination) (d : Downloader) : outcome Downloader :=
  match dest with
  | Taken => Err ("open " +:+ FileName (input d) +:+ ": file exists")
  | Unwritable msg => Err msg
  | Free => Ok (with_file d (Some []))
  end.

(** The check of the checksum in [downloadPart], made only when the
    response carries one. *)
Definition checkChecksum (result : GetJobOutputOutput) : outcome unit :=
  match Checksum result with
  | None => Ok tt
  | Some checksum =>
      match ComputeTreeHash (Body result) with
      | None => Err "could not compute hash"
      | Some treeHash =>
          if decide (checksum = treeHash) then Ok tt
          else Err "hash mismatch"
      end
  end.

(** The write that ends [downloadPart]: [d.file.WriteAt(body, r.Offset)]
    and the check of the number of bytes written. *)
Definition writePart (d : Downloader) (body : list byte) (r : Range)
  : outcome Downloader :=
  match file d with
  | None => Err "invalid argument"
  | Some data =>
      if Offset r <? 0 then
        Err ("writeat " +:+ FileName (input d) +:+ ": negative offset")
      else
        let n := Bytes.len body in
        if negb (n =? Limit r) then
          Err ("could not write " +:+ Strconv.FormatInt (Limit r)
               +:+ " bytes to the file")
        else Ok (with_file d (Some (File.writeAt data body (Offset r))))
  end.

(** [downloadPart]: on success the bytes are in the file. *)
Definition downloadPart (svc : Service) (d : Downloader) (r : Range)
  : outcome Downloader :=
  let rangeString := "bytes=" +:+ Utils.String r in
  match GetJobOutput svc (input d) rangeString with
  | inr err => Err err
  | inl result =>
      let body := Body result in
      if negb (Bytes.len body =? Limit r) then Err "size mismatch"
      else
        _ ← checkChecksum result;
        writePart d body r
  end.

Definition getNextRange (d : Downloader) : option Range * Downloader :=
  if size d <=? offset d then (None, d)
  else
    let offset0 := offset d in
    let d' := with_offset d (Int64.add (offset d) (PartSize (input d))) in
    let limit := PartSize (input d) in
    let limit :=
      if size d <? Int64.add offset0 limit
      then Int64.sub (size d) offset0 else limit in
    (Some (mkRange offset0 limit), d').

(** The ranges that [getNextRange] yields when it is called again and
    again until it returns nil, as the loop of [multipartDownload]
    does. *)
Fixpoint produce (fuel : nat) (d : Downloader) : outcome (list Range) :=
  match fuel with
  | O => Hang
  | S fuel' =>
      let '(next, d1) := getNextRange d in
      match next with
      | None => Ok []
      | Some p => rest ← produce fuel' d1; Ok (p :: rest)
      end
  end.

(** The dispatch loop of [multipartDownload], running at most [fuel]
    times. The pool of workers is modelled by one worker that takes the
    parts in the order they are sent; the error of a part goes to the
    log and nowhere else. With no worker the first send blocks for
    ever. With several workers the order of the log among the parts is
    that of one schedule of many: what is stated of it is stated up to
    a permutation. *)
Fixpoint dispatch (svc : Service) (fuel : nat) (jobs : Z) (d : Downloader)
  : traced LogEntry Downloader :=
  match fuel with
  | O => quiet Hang
  | S fuel' =>
      let '(next, d1) := getNextRange d in
      match next with
      | None => mret d1
      | Some p =>
          if jobs =? 0 then quiet Hang
          else
            match downloadPart svc d1 p with
            | Ok d2 => _ ← send (p, None); dispatch svc fuel' jobs d2
            | Err err => _ ← send (p, Some err); dispatch svc fuel' jobs d1
            | Panic => quiet Panic
            | Hang => quiet Hang
            end
      end
  end.

(** [multipartDownload]: [wg.Add] panics on a negative count. *)
Definition multipartDownload (svc : Service) (fuel : nat) (jobs : Z)
    (d : Downloader) : traced LogEntry Downloader :=
  if jobs <? 0 then quiet Panic else dispatch svc fuel jobs d.

Definition checkJob (svc : Service) (d : Downloader) : outcome Downloader :=
  match DescribeJob svc (input d) with
  | inr err => Err err
  | inl result =>
      let action := Action result in
      if negb (String.eqb action "ArchiveRetrieval") then
        Err (action +:+ " action is not supported")
      else
        let status := StatusCode result in
        if negb (String.eqb status "Succeeded") then
          if String.eqb status "InProgress" then
            Err "the job is not succeeded yet"
          else if String.eqb status "Failed" then
            match StatusMessage result with
            | None => Panic
            | Some message => Err ("the job is failed: " +:+ message)
            end
          else Err ("job status is unexpected: " +:+ status)
        else
          match SHA256TreeHash result with
          | None => Err "the retrieved range must be tree-hash aligned"
          | Some hash =>
              match ArchiveSizeInBytes result with
              | None => Panic
              | Some archiveSize =>
                  Ok (mkDownloader (input d) (file d) (Some hash)
                                   archiveSize (offset d))
              end
          end
  end.

Definition checkTreeHash (d : Downloader) : outcome unit :=
  match ComputeTreeHash (File.contents (file d)) with
  | None => Err "could not compute hash"
  | Some computed =>
      match treeHash d with
      | None => Panic
      | Some expected =>
          if decide (computed = expected) then Ok tt
          else Err "hash mismatch"
      end
  end.

(** [os.Truncate(d.input.FileName, d.size)] on the file just created. *)
Definition truncate (d : Downloader) : outcome Downloader :=
  if size d <? 0 then
    Err ("truncate " +:+ FileName (input d) +:+ ": invalid argument")
  else
    Ok (with_file d (Some (File.truncate (File.contents (file d)) (size d)))).

Definition Download (svc : Service) (dest : destination) (fuel : nat)
    (jobs : Z) (d : Downloader) : traced LogEntry unit :=
  d1 ← quiet (checkJob svc d);
  d2 ← quiet (openFile dest d1);
  d3 ← quiet (truncate d2);
  d4 ← multipartDownload svc fuel jobs d3;
  quiet (checkTreeHash d4).

End Downloader.

(* ===================================================================== *)
(** * What the range notation means *)
(* ===================================================================== *)

(** The notions the statements about [RangeFromString] are phrased with;
    they are independent of the parser. *)
Module Notation.

(** The number of occurrences of the separator in a text. *)
Fixpoint separators (s : string) (sep : ascii) : nat :=
  match s with
  | EmptyString => O
  | String c rest =>
      (if Ascii.eqb c sep then 1 else 0)%nat + separators rest sep
  end.

(** The number a sequence of decimal digits stands for, continuing from
    [acc]; no number if a byte is not a digit. *)
Fixpoint value (s : string) (acc : Z) : option Z :=
  match s with
  | EmptyString => Some acc
  | String c rest =>
      match Strconv.digit c with
      | Some d => value rest (acc * 10 + d)
      | None => None
      end
  end.

(** [numeral body n]: [body] is a non-empty sequence of decimal digits
    that stands for [n]. *)
Definition numeral (body : string) (n : Z) : Prop :=
  body <> EmptyString /\ value body 0 = Some n.

(** [reads text n]: [text] is the decimal notation, with an optional plus
    sign, of the non-negative 64-bit integer [n]. *)
Definition reads (text : string) (n : Z) : Prop :=
  (numeral text n \/ exists body, text = String "+" body /\ numeral body n)
  /\ n <= Int64.max_int.

(** [denotes s a b]: [s] has exactly one separator, with the integer [a]
    before it and the integer [b] after it. *)
Definition denotes (s : string) (a b : Z) : Prop :=
  separators s "-" = 1%nat /\
  exists first second,
    s = first +:+ String "-" second /\ reads first a /\ reads second b.

End Notation.

(* ===================================================================== *)
(** * What a partition into parts is *)
(* ===================================================================== *)

Module Parts.

Import Utils.

(** The number of parts of a file of [size] bytes cut every [partSize]
    bytes: the quotient rounded up. *)
Definition count (size partSize : Z) : Z := (size + partSize - 1) / partSize.

(** The part of index [i]: it starts at [i * partSize] and stops at the
    end of the file if that comes first. *)
Definition part (size partSize : Z) (i : nat) : Range :=
  let start := Z.of_nat i * partSize in
  mkRange start (Z.min partSize (size - start)).

(** The byte of index [x] lies in the range [r]. *)
Definition covers (r : Range) (x : Z) : Prop :=
  Offset r <= x < Offset r + Limit r.

(** [rs] cuts the bytes [0 .. size - 1] into ranges: no range is empty or
    leaves the file, and every byte lies in the range of exactly one
    index. *)
Definition partition (rs : list Range) (size : Z) : Prop :=
  (forall i r, rs !! i = Some r ->
     0 < Limit r /\ 0 <= Offset r /\ Offset r + Limit r <= size)
  /\ forall x, 0 <= x < size ->
       exists i r, rs !! i = Some r /\ covers r x
         /\ forall j r', rs !! j = Some r' -> covers r' x -> j = i.

(** The offsets grow strictly along [rs]. *)
Definition increasing (rs : list Range) : Prop :=
  forall i j ri rj, (i < j)%nat ->
    rs !! i = Some ri -> rs !! j = Some rj -> Offset ri < Offset rj.

(** What one call of [getNextRange] computes from the cursor when the
    offset is not skipped: the range and the next cursor, or nothing at
    the end of the file. *)
Definition step (size partSize offset : Z) : option (Range * Z) :=
  if size <=? offset then None
  else
    let limit :=
      if size <? Int64.add offset partSize
      then Int64.sub size offset else partSize in
    Some (mkRange offset limit, Int64.add offset partSize).

End Parts.

(* ===================================================================== *)
(** * What the chunks of a tree hash are *)
(* ===================================================================== *)

Module Chunks.

(** [chunking cs r]: [cs] cuts the bytes [r] into consecutive chunks, none
    of them empty, each of 1 MiB except the last, which may be shorter. *)
Definition chunking (cs : list (list byte)) (r : list byte) : Prop :=
  concat cs = r
  /\ forall i c, cs !! i = Some c ->
       0 < Bytes.len c <= Glacier.bufsize
       /\ ((S i < length cs)%nat -> Bytes.len c = Glacier.bufsize).

End Chunks.

(* ===================================================================== *)
(** * What the reconciliation of an upload establishes *)
(* ===================================================================== *)

Module Reconcile.

Import Utils.

(** [acceptable s part]: the listed part has a range text that parses,
    starts inside the local file, has local bytes to hash, and carries the
    hash recorded by the service. *)
Definition acceptable (s : Uploader.Uploader)
    (part : Uploader.PartListElement) : Prop :=
  exists text r,
    Uploader.RangeInBytes part = Some text
    /\ RangeFromString text = Some r
    /\ Offset r < Uploader.size s
    /\ is_Some (ComputeTreeHash
                  (File.section (Uploader.file s) (Offset r) (Limit r)))
    /\ is_Some (Uploader.SHA256TreeHash part).

(** [confirms s part o]: the listed part starts at the offset [o], and the
    tree hash of the local bytes of its range is the hash recorded by the
    service. *)
Definition confirms (s : Uploader.Uploader)
    (part : Uploader.PartListElement) (o : Z) : Prop :=
  exists text r treeHash,
    Uploader.RangeInBytes part = Some text
    /\ RangeFromString text = Some r
    /\ Offset r = o
    /\ ComputeTreeHash (File.section (Uploader.file s) (Offset r) (Limit r))
       = Some treeHash
    /\ Uploader.SHA256TreeHash part = Some treeHash.

End Reconcile.

(* ===================================================================== *)
(** * The order of the requests of an upload *)
(* ===================================================================== *)

Module Protocol.

Definition is_part (request : Uploader.Request) : Prop :=
  exists range, request = Uploader.UploadMultipartPartRequest range.

(** [ordered sent]: at most one initiation, then the listing requests,
    then the part uploads, then at most one completion, and nothing
    else. *)
Definition ordered (sent : list Uploader.Request) : Prop :=
  exists init lists parts fin,
    sent = init ++ lists ++ parts ++ fin
    /\ (init = [] \/ init = [Uploader.InitiateMultipartUploadRequest])
    /\ Forall (fun request => request = Uploader.ListPartsRequest) lists
    /\ Forall is_part parts
    /\ (fin = [] \/ fin = [Uploader.CompleteMultipartUploadRequest]).

End Protocol.

(* ===================================================================== *)
(** * A service that holds an archive *)
(* ===================================================================== *)

Module Archive.

Import Utils.

(** [serves svc input archive r]: asked for the range [r] of the job's
    output, the service answers with the bytes of that range of
    [archive], and with their tree hash as the checksum if it gives
    one. *)
Definition serves (svc : Downloader.Service) (input : Downloader.Input)
    (archive : list byte) (r : Range) : Prop :=
  exists result,
    Downloader.GetJobOutput svc input ("bytes=" +:+ Utils.String r)
    = inl result
    /\ Downloader.Body result
       = File.section (Some archive) (Offset r) (Limit r)
    /\ (Downloader.Checksum result = None
        \/ Downloader.Checksum result
           = ComputeTreeHash (Downloader.Body result)).

End Archive.

(** Membership of a request in an explicit list of requests. *)
Ltac absent :=
  unfold not; intros;
  match goal with
  | H : _ ∈ _ |- _ =>
      repeat (apply elem_of_cons in H as [H|H]; [discriminate H|]);
      apply elem_of_nil in H; destruct H
  end.

(* ===================================================================== *)
(** * Facts about the machine integers and the library functions *)
(* ===================================================================== *)

Lemma wrap_in_range z : Int64.in_range z -> Int64.wrap z = z.
Proof.
  unfold Int64.in_range, Int64.wrap, Int64.min_int, Int64.max_int, Int64.modulus.
  intros H. rewrite Z.mod_small by lia. lia.
Qed.

Lemma wrap_range z : Int64.in_range (Int64.wrap z).
Proof.
  unfold Int64.in_range, Int64.wrap, Int64.min_int, Int64.max_int, Int64.modulus.
  pose proof (Z.mod_pos_bound (z - -9223372036854775808) 18446744073709551616).
  lia.
Qed.

(** One overflow upwards: the sum lands [modulus] lower. *)
Lemma wrap_above z :
  Int64.max_int < z <= Int64.max_int + Int64.modulus ->
  Int64.wrap z = z - Int64.modulus.
Proof.
  unfold Int64.wrap, Int64.min_int, Int64.max_int, Int64.modulus.
  intros H.
  replace (z - -9223372036854775808)
    with ((z - 9223372036854775808) + 1 * 18446744073709551616) by lia.
  rewrite Z.mod_add by lia. rewrite Z.mod_small by lia. lia.
Qed.

Lemma digit_bounds c d : Strconv.digit c = Some d -> 0 <= d <= 9.
Proof.
  unfold Strconv.digit. intros H.
  destruct (48 <=? Z.of_N (N_of_ascii c)) eqn:H1;
    destruct (Z.of_N (N_of_ascii c) <=? 57) eqn:H2; simpl in H;
    try discriminate.
  injection H as <-. lia.
Qed.

Lemma digit_not_dash c d : Strconv.digit c = Some d -> Ascii.eqb c "-" = false.
Proof.
  intros H. destruct (Ascii.eqb c "-") eqn:E; [|reflexivity].
  apply Ascii.eqb_eq in E. subst c. discriminate H.
Qed.

Lemma digit_not_plus c d : Strconv.digit c = Some d -> Ascii.eqb c "+" = false.
Proof.
  intros H. destruct (Ascii.eqb c "+") eqn:E; [|reflexivity].
  apply Ascii.eqb_eq in E. subst c. discriminate H.
Qed.

Lemma value_ge s : forall acc v,
  0 <= acc -> Notation.value s acc = Some v -> acc <= v.
Proof.
  induction s as [|c s IH]; simpl; intros acc v Hacc H.
  - injection H as <-. lia.
  - destruct (Strconv.digit c) as [d|] eqn:Hd; [|discriminate].
    apply digit_bounds in Hd. apply IH in H; lia.
Qed.

(** The digit loop of [ParseUint] succeeds exactly on the digit sequences
    whose value fits in 64 bits. *)
Lemma parseUintLoop_inl s : forall acc v,
  0 <= acc <= Strconv.maxUint64 ->
  Strconv.parseUintLoop s acc = inl v <->
  Notation.value s acc = Some v /\ v <= Strconv.maxUint64.
Proof.
  induction s as [|c s IH]; simpl; unfold Strconv.maxUint64 in *;
    intros acc v Hacc.
  - split.
    + intros [= <-]. split; [reflexivity|lia].
    + intros [[= <-] _]. reflexivity.
  - destruct (Strconv.digit c) as [d|] eqn:Hd.
    2:{ split; [discriminate|intros [? _]; discriminate]. }
    pose proof (digit_bounds _ _ Hd) as Hb.
    change (18446744073709551615 / 10 + 1) with 1844674407370955162.
    destruct (1844674407370955162 <=? acc) eqn:Hcut.
    { apply Z.leb_le in Hcut. split; [discriminate|].
      intros [Hv Hle]. apply value_ge in Hv; lia. }
    apply Z.leb_gt in Hcut.
    destruct (18446744073709551615 <? acc * 10 + d) eqn:Hov.
    { apply Z.ltb_lt in Hov. split; [discriminate|].
      intros [Hv Hle]. apply value_ge in Hv; lia. }
    apply Z.ltb_ge in Hov. apply IH. lia.
Qed.

Lemma value_nonneg s acc v :
  0 <= acc -> Notation.value s acc = Some v -> 0 <= v.
Proof. intros Hacc H. apply value_ge in H; lia. Qed.

(** [ParseInt] on a text without a minus sign reads exactly the notations
    of the non-negative 64-bit integers. *)
Lemma ParseInt_reads text n :
  Notation.separators text "-" = 0%nat ->
  Strconv.ParseInt text = inl n <-> Notation.reads text n.
Proof.
  unfold Notation.reads, Notation.numeral, Int64.max_int.
  destruct text as [|c rest]; simpl.
  { intros _. split; [discriminate|].
    intros [[[H _]|(body & H & _)] _]; [congruence|discriminate]. }
  destruct (Ascii.eqb c "-") eqn:Hdash; [discriminate|]. simpl.
  intros Hsep.
  destruct (Ascii.eqb c "+") eqn:Hplus.
  - apply Ascii.eqb_eq in Hplus. subst c. simpl.
    unfold Strconv.ParseUint.
    destruct rest as [|c' rest'].
    { split; [discriminate|].
      intros [[[_ H]|(body & [= <-] & H & _)] _]; [discriminate|congruence]. }
    destruct (Strconv.parseUintLoop (String c' rest') 0) as [un|e] eqn:Hloop.
    + apply parseUintLoop_inl in Hloop; [|unfold Strconv.maxUint64; lia].
      destruct Hloop as [Hv Hmax]. simpl.
      destruct (9223372036854775808 <=? un) eqn:Hc.
      * apply Z.leb_le in Hc. split; [discriminate|].
        intros [[[_ H]|(body & [= <-] & _ & H)] Hle]; [discriminate|].
        rewrite Hv in H. injection H as <-. lia.
      * apply Z.leb_gt in Hc. split.
        -- intros [= <-]. split; [|lia]. right. eexists. split; [reflexivity|].
           split; [discriminate|exact Hv].
        -- intros [[[_ H]|(body & [= <-] & _ & H)] Hle]; [discriminate|].
           rewrite Hv in H. injection H as <-. reflexivity.
    + assert (forall v, ~ (Notation.value (String c' rest') 0 = Some v
                           /\ v <= Strconv.maxUint64)) as Hno.
      { intros v Hv. apply parseUintLoop_inl in Hv;
          [congruence|unfold Strconv.maxUint64; lia]. }
      destruct e; (split; [discriminate|]);
        intros [[[_ H]|(body & [= <-] & _ & H)] Hle]; try discriminate;
        exfalso; apply (Hno n); (split; [exact H|unfold Strconv.maxUint64; lia]).
  - unfold Strconv.ParseUint.
    destruct (Strconv.parseUintLoop (String c rest) 0) as [un|e] eqn:Hloop.
    + apply parseUintLoop_inl in Hloop; [|unfold Strconv.maxUint64; lia].
      destruct Hloop as [Hv Hmax]. simpl.
      destruct (9223372036854775808 <=? un) eqn:Hc.
      * apply Z.leb_le in Hc. split; [discriminate|].
        intros [[[_ H]|(body & [= Hc' _] & _)] Hle].
        -- simpl in Hv. rewrite Hv in H. injection H as <-. lia.
        -- subst c. discriminate Hplus.
      * apply Z.leb_gt in Hc. split.
        -- intros [= <-]. split; [|lia]. left. split; [discriminate|exact Hv].
        -- intros [[[_ H]|(body & [= Hc' _] & _)] Hle].
           ++ simpl in Hv. rewrite Hv in H. injection H as <-. reflexivity.
           ++ subst c. discriminate Hplus.
    + assert (forall v, ~ (Notation.value (String c rest) 0 = Some v
                           /\ v <= Strconv.maxUint64)) as Hno.
      { intros v Hv. apply parseUintLoop_inl in Hv;
          [congruence|unfold Strconv.maxUint64; lia]. }
      destruct e; (split; [discriminate|]);
        intros [[[_ H]|(body & [= Hc' _] & _)] Hle];
        try (subst c; discriminate Hplus);
        exfalso; apply (Hno n); (split; [exact H|unfold Strconv.maxUint64; lia]).
Qed.

Lemma value_no_dash s : forall acc v,
  Notation.value s acc = Some v -> Notation.separators s "-" = 0%nat.
Proof.
  induction s as [|c s IH]; simpl; intros acc v H; [reflexivity|].
  destruct (Strconv.digit c) as [d|] eqn:Hd; [|discriminate].
  rewrite (digit_not_dash _ _ Hd). simpl. eapply IH, H.
Qed.

Lemma reads_no_dash text n :
  Notation.reads text n -> Notation.separators text "-" = 0%nat.
Proof.
  intros [[[_ H]|(body & -> & _ & H)] _].
  - eapply value_no_dash, H.
  - simpl. eapply value_no_dash, H.
Qed.

Lemma reads_bounds text n :
  Notation.reads text n -> 0 <= n <= Int64.max_int.
Proof.
  intros [[[_ H]|(body & _ & _ & H)] Hle];
    apply value_nonneg in H; lia.
Qed.

(** ** [strings.Split] *)

Lemma Split_length s sep :
  length (Strings.Split s sep) = S (Notation.separators s sep).
Proof.
  induction s as [|c s IH]; simpl; [reflexivity|].
  destruct (Ascii.eqb c sep); simpl; [now rewrite IH|].
  destruct (Strings.Split s sep); simpl in *; lia.
Qed.

Lemma Split_clean s sep :
  Forall (fun field => Notation.separators field sep = 0%nat)
         (Strings.Split s sep).
Proof.
  induction s as [|c s IH]; simpl.
  - constructor; [reflexivity|constructor].
  - destruct (Ascii.eqb c sep) eqn:E.
    + constructor; [reflexivity|exact IH].
    + destruct (Strings.Split s sep) as [|field fields].
      * constructor; [simpl; now rewrite E|constructor].
      * inversion IH; subst. constructor; [simpl; rewrite E; assumption|assumption].
Qed.

Lemma Split_none s sep :
  Notation.separators s sep = 0%nat -> Strings.Split s sep = [s].
Proof.
  induction s as [|c s IH]; simpl; [reflexivity|].
  destruct (Ascii.eqb c sep); simpl; [discriminate|].
  intros H. now rewrite IH.
Qed.

Lemma Split_app a b sep :
  Notation.separators a sep = 0%nat ->
  Strings.Split (a +:+ String sep b) sep = a :: Strings.Split b sep.
Proof.
  induction a as [|c a IH]; simpl.
  - intros _. now rewrite Ascii.eqb_refl.
  - destruct (Ascii.eqb c sep); simpl; [discriminate|].
    intros H. now rewrite IH.
Qed.

Lemma Split_two s sep a b :
  Strings.Split s sep = [a; b] -> s = a +:+ String sep b.
Proof.
  revert a. induction s as [|c s IH]; simpl; intros a; [discriminate|].
  destruct (Ascii.eqb c sep) eqn:E.
  - apply Ascii.eqb_eq in E. subst c. intros [= <- H].
    pose proof (Split_length s sep) as Hl. rewrite H in Hl. simpl in Hl.
    assert (Notation.separators s sep = 0%nat) as H0 by lia.
    rewrite (Split_none _ _ H0) in H. now injection H as ->.
  - destruct (Strings.Split s sep) as [|field fields] eqn:Hs; [discriminate|].
    intros [= <- ->]. change (String c s = String c (field +:+ String sep b)).
    f_equal. now apply IH.
Qed.

Lemma separators_app a b sep :
  Notation.separators (a +:+ b) sep
  = (Notation.separators a sep + Notation.separators b sep)%nat.
Proof. induction a as [|c a IH]; simpl; [reflexivity|rewrite IH; lia]. Qed.

(** ** Decimal notation *)

Lemma digit_pretty_N_char m :
  (m < 10)%N -> Strconv.digit (pretty_N_char m) = Some (Z.of_N m).
Proof.
  intros H.
  assert (m = 0 \/ m = 1 \/ m = 2 \/ m = 3 \/ m = 4 \/ m = 5 \/ m = 6
          \/ m = 7 \/ m = 8 \/ m = 9)%N as Hm by lia.
  repeat (destruct Hm as [->|Hm]; [reflexivity|]). subst. reflexivity.
Qed.

(** Reading the digits printed for [x] moves the accumulator [k] places
    to the left and adds [x]. *)
Lemma value_pretty_N_go x :
  exists k, 0 <= k /\ forall s acc,
    Notation.value (pretty_N_go x s) acc
    = Notation.value s (acc * 10 ^ k + Z.of_N x).
Proof.
  induction (N.lt_wf_0 x) as [x _ IH].
  destruct (N.eq_dec x 0%N) as [->|Hx].
  - exists 0. split; [lia|]. intros s acc. rewrite pretty_N_go_0.
    f_equal. lia.
  - destruct (IH (x `div` 10)%N) as (k & Hk & IHk).
    { apply N.div_lt; lia. }
    exists (k + 1). split; [lia|]. intros s acc.
    rewrite pretty_N_go_step by lia. rewrite IHk. simpl.
    rewrite digit_pretty_N_char by (apply N.mod_lt; lia).
    f_equal. rewrite Z.pow_add_r by lia.
    rewrite N2Z.inj_div, N2Z.inj_mod. change (Z.of_N 10) with 10.
    pose proof (Z.div_mod (Z.of_N x) 10). lia.
Qed.

Lemma pretty_N_go_nonempty x s :
  (0 < x)%N -> pretty_N_go x s <> EmptyString.
Proof.
  revert s. induction (N.lt_wf_0 x) as [x _ IH]. intros s Hx.
  rewrite pretty_N_go_step by lia.
  destruct (N.eq_dec (x `div` 10)%N 0%N) as [E|E].
  - rewrite E, pretty_N_go_0. discriminate.
  - apply IH; [apply N.div_lt; lia|now apply N.neq_0_lt_0].
Qed.

(** [FormatInt] prints a non-negative integer as a numeral for it. *)
Lemma numeral_FormatInt n : 0 <= n -> Notation.numeral (Strconv.FormatInt n) n.
Proof.
  intros Hn. unfold Strconv.FormatInt, Notation.numeral.
  destruct n as [|p|p]; [split; [discriminate|reflexivity]| |lia].
  unfold pretty, pretty_Z, pretty, pretty_positive, pretty, pretty_N.
  destruct (decide (N.pos p = 0%N)) as [E|_]; [discriminate|].
  split; [apply pretty_N_go_nonempty; lia|].
  destruct (value_pretty_N_go (N.pos p)) as (k & _ & H).
  rewrite H. simpl. reflexivity.
Qed.

Lemma reads_FormatInt n :
  0 <= n <= Int64.max_int -> Notation.reads (Strconv.FormatInt n) n.
Proof.
  intros [H0 H1]. split; [left; now apply numeral_FormatInt|exact H1].
Qed.

(** ** The length computed by [RangeFromString] *)

Lemma limit_fits a b :
  0 <= a <= Int64.max_int -> 0 <= b <= Int64.max_int ->
  a <= b -> b - a + 1 <= Int64.max_int ->
  Int64.add (Int64.sub b a) 1 = b - a + 1.
Proof.
  unfold Int64.add, Int64.sub, Int64.max_int. intros Ha Hb Hab Hfit.
  rewrite (wrap_in_range (b - a))
    by (unfold Int64.in_range, Int64.min_int, Int64.max_int; lia).
  apply wrap_in_range.
  unfold Int64.in_range, Int64.min_int, Int64.max_int; lia.
Qed.

Lemma limit_not_positive a b :
  0 <= a <= Int64.max_int -> 0 <= b <= Int64.max_int ->
  b < a \/ Int64.max_int < b - a + 1 ->
  Int64.add (Int64.sub b a) 1 <= 0.
Proof.
  unfold Int64.add, Int64.sub, Int64.max_int. intros Ha Hb Hbad.
  rewrite (wrap_in_range (b - a))
    by (unfold Int64.in_range, Int64.min_int, Int64.max_int; lia).
  destruct Hbad as [Hlt|Hov].
  - rewrite wrap_in_range
      by (unfold Int64.in_range, Int64.min_int, Int64.max_int; lia).
    lia.
  - rewrite wrap_above by (unfold Int64.max_int, Int64.modulus; lia).
    unfold Int64.modulus. lia.
Qed.

(** [RangeFromString] returns a range exactly for the texts that denote a
    pair [a <= b] whose length [b - a + 1] is an [int64], and then the
    range from [a] of that length. *)
Lemma RangeFromString_Some s r :
  Utils.RangeFromString s = Some r <->
  exists a b, Notation.denotes s a b /\ a <= b
              /\ b - a + 1 <= Int64.max_int
              /\ r = Utils.mkRange a (b - a + 1).
Proof.
  unfold Utils.RangeFromString. split.
  - destruct (Strings.Split s "-") as [|first [|second [|? ?]]] eqn:Hsplit;
      try discriminate.
    pose proof (Split_length s "-") as Hlen. rewrite Hsplit in Hlen.
    pose proof (Split_clean s "-") as Hclean. rewrite Hsplit in Hclean.
    inversion Hclean as [|? ? Hc1 Hrest]; subst.
    inversion Hrest as [|? ? Hc2 _]; subst.
    apply Split_two in Hsplit.
    destruct (Strconv.ParseInt first) as [a|] eqn:Ha; [|discriminate].
    destruct (Strconv.ParseInt second) as [b|] eqn:Hb; [|discriminate].
    apply ParseInt_reads in Ha; [|exact Hc1].
    apply ParseInt_reads in Hb; [|exact Hc2].
    pose proof (reads_bounds _ _ Ha) as Hba.
    pose proof (reads_bounds _ _ Hb) as Hbb.
    destruct (Int64.add (Int64.sub b a) 1 <=? 0) eqn:Hlim; [discriminate|].
    apply Z.leb_gt in Hlim. intros [= <-].
    assert (a <= b /\ b - a + 1 <= Int64.max_int) as [Hab Hfit].
    { destruct (Z_lt_dec b a) as [Hlt|Hge].
      - pose proof (limit_not_positive a b Hba Hbb (or_introl Hlt)). lia.
      - destruct (Z_lt_dec Int64.max_int (b - a + 1)) as [Hov|Hfit].
        + pose proof (limit_not_positive a b Hba Hbb (or_intror Hov)). lia.
        + lia. }
    exists a, b. split; [|split; [exact Hab|split; [exact Hfit|]]].
    + split; [simpl in Hlen; lia|]. exists first, second. auto.
    + now rewrite limit_fits.
  - intros (a & b & (Hone & first & second & -> & Ha & Hb) & Hab & Hfit & ->).
    pose proof (reads_bounds _ _ Ha) as Hba.
    pose proof (reads_bounds _ _ Hb) as Hbb.
    rewrite Split_app by (eapply reads_no_dash, Ha).
    rewrite Split_none by (eapply reads_no_dash, Hb).
    apply ParseInt_reads in Ha; [|eapply reads_no_dash, Ha].
    apply ParseInt_reads in Hb; [|eapply reads_no_dash, Hb].
    rewrite Ha, Hb. rewrite limit_fits by assumption.
    destruct (b - a + 1 <=? 0) eqn:Hlim; [apply Z.leb_le in Hlim; lia|].
    reflexivity.
Qed.

Lemma denotes_format a b :
  0 <= a <= Int64.max_int -> 0 <= b <= Int64.max_int ->
  Notation.denotes
    (Strconv.FormatInt a +:+ String "-" (Strconv.FormatInt b)) a b.
Proof.
  intros Ha Hb.
  pose proof (reads_FormatInt a Ha) as Ra.
  pose proof (reads_FormatInt b Hb) as Rb.
  split.
  - rewrite separators_app. simpl.
    rewrite (reads_no_dash _ _ Ra), (reads_no_dash _ _ Rb). reflexivity.
  - eauto.
Qed.

(* ===================================================================== *)
(** * Properties of the range model *)
(* ===================================================================== *)

(** C2 (as amended). For all integers [0 <= a <= b] where [b] and the
    length [b - a + 1] are at most [2^63 - 1], parsing the text that
    [Range.String] prints for the range of offset [a] and length
    [b - a + 1] returns that same range. This covers every range of
    non-negative offset and length at least one whose last byte has an
    [int64] index. *)
Theorem format_parse_roundtrip (a b : Z) :
  0 <= a -> a <= b -> b <= Int64.max_int -> b - a + 1 <= Int64.max_int ->
  Utils.RangeFromString (Utils.String (Utils.mkRange a (b - a + 1)))
  = Some (Utils.mkRange a (b - a + 1)).
Proof.
  intros H0 Hab Hb Hfit. apply RangeFromString_Some.
  exists a, b. split; [|auto].
  unfold Utils.String. simpl.
  replace (Int64.sub (Int64.add a (b - a + 1)) 1) with b.
  - apply denotes_format; lia.
  - unfold Int64.sub, Int64.add.
    replace (a + (b - a + 1)) with (b + 1) by lia.
    destruct (Z.eq_dec b Int64.max_int) as [->|Hne].
    + reflexivity.
    + rewrite (wrap_in_range (b + 1)), wrap_in_range;
        unfold Int64.in_range, Int64.min_int, Int64.max_int in *; lia.
Qed.

Lemma format_parse_roundtrip_witness :
  Utils.RangeFromString (Utils.String (Utils.mkRange 5 (9 - 5 + 1)))
  = Some (Utils.mkRange 5 (9 - 5 + 1)).
Proof.
  apply (format_parse_roundtrip 5 9); unfold Int64.max_int; lia.
Defined.

(** C2 as stated fails where the end of the range is not an [int64]: the
    range of offset [2^63 - 1] and length 2 is printed with a negative
    end, which does not parse. *)
Lemma format_parse_roundtrip_overflow :
  let a := 9223372036854775807 in
  let b := 9223372036854775808 in
  0 <= a /\ a <= b /\ b - a + 1 = 2 /\
  Utils.String (Utils.mkRange a (b - a + 1))
  = "9223372036854775807--9223372036854775808" /\
  Utils.RangeFromString (Utils.String (Utils.mkRange a (b - a + 1)))
  <> Some (Utils.mkRange a (b - a + 1)).
Proof.
  cbv zeta. split; [lia|]. split; [lia|]. split; [reflexivity|].
  split; [vm_compute; reflexivity|].
  vm_compute. discriminate.
Qed.

(** C8 (as amended). [RangeFromString] returns no range exactly when the
    text does not have exactly one separator with a non-negative 64-bit
    integer in decimal notation on either side or, having them, [a] before
    and [b] after the separator, when [b < a] or the length [b - a + 1]
    exceeds [2^63 - 1]. It returns none for the empty text, ["abc"],
    ["0-1-2"], ["x-0"], ["0-x"] and ["1-0"], the range of offset 0 and
    limit 1 for ["0-0"], and the range of offset 0 and limit 2 for
    ["0-1"]. *)
Theorem RangeFromString_invalid_iff :
  (forall s,
     Utils.RangeFromString s = None <->
     forall a b, Notation.denotes s a b ->
                 b < a \/ Int64.max_int < b - a + 1)
  /\ Utils.RangeFromString "" = None
  /\ Utils.RangeFromString "abc" = None
  /\ Utils.RangeFromString "0-1-2" = None
  /\ Utils.RangeFromString "x-0" = None
  /\ Utils.RangeFromString "0-x" = None
  /\ Utils.RangeFromString "1-0" = None
  /\ Utils.RangeFromString "0-0" = Some (Utils.mkRange 0 1)
  /\ Utils.RangeFromString "0-1" = Some (Utils.mkRange 0 2).
Proof.
  split; [|repeat split; reflexivity].
  intros s. split.
  - intros Hnone a b Hden.
    destruct (Z_lt_dec b a) as [Hlt|Hge]; [now left|].
    destruct (Z_lt_dec Int64.max_int (b - a + 1)) as [Hov|Hfit]; [now right|].
    exfalso.
    assert (Utils.RangeFromString s = Some (Utils.mkRange a (b - a + 1))) as H.
    { apply RangeFromString_Some. exists a, b.
      split; [exact Hden|split; [lia|split; [lia|reflexivity]]]. }
    congruence.
  - intros Hall.
    destruct (Utils.RangeFromString s) as [r|] eqn:Hr; [|reflexivity].
    apply RangeFromString_Some in Hr.
    destruct Hr as (a & b & Hden & Hab & Hfit & _).
    destruct (Hall a b Hden); lia.
Qed.

Lemma RangeFromString_invalid_iff_witness :
  Utils.RangeFromString "7" = None.
Proof.
  apply (proj1 RangeFromString_invalid_iff "7").
  intros a b [Hone _]. discriminate Hone.
Defined.

(** C8 as stated leaves the overflow of the length out: ["0-" ] followed
    by [2^63 - 1] has one separator and a non-negative integer on either
    side, the end is not less than the start, and yet no range is
    returned, the length [2^63] not being an [int64]. *)
Lemma RangeFromString_invalid_claimed_fails :
  let s := "0-9223372036854775807" in
  ~ (Utils.RangeFromString s = None <->
     forall a b, Notation.denotes s a b -> b < a).
Proof.
  cbv zeta. intros [Hto _].
  assert (Utils.RangeFromString "0-9223372036854775807" = None) as Hnone
    by reflexivity.
  specialize (Hto Hnone 0 9223372036854775807).
  assert (Notation.denotes "0-9223372036854775807" 0 9223372036854775807) as Hden.
  { split; [reflexivity|].
    exists "0", "9223372036854775807". split; [reflexivity|].
    split; (split; [left; split; [discriminate|reflexivity]
                   |unfold Int64.max_int; lia]). }
  specialize (Hto Hden). lia.
Qed.

(* ===================================================================== *)
(** * Properties of the tree hash *)
(* ===================================================================== *)

Lemma takeZ_nil_inv {A} n (l : list A) :
  0 < n -> Bytes.takeZ n l = [] -> l = [].
Proof.
  destruct l as [|x l]; simpl; [reflexivity|]. intros Hn.
  destruct (n <=? 0) eqn:E; [apply Z.leb_le in E; lia|discriminate].
Qed.

Lemma takeZ_all {A} (l : list A) : forall n,
  Bytes.len l <= n -> Bytes.takeZ n l = l.
Proof.
  unfold Bytes.len. induction l as [|x l IH]; simpl length; intros n Hn;
    [reflexivity|]. simpl.
  destruct (n <=? 0) eqn:E; [apply Z.leb_le in E; lia|].
  f_equal. apply IH. lia.
Qed.

Lemma dropZ_all {A} (l : list A) : forall n,
  Bytes.len l <= n -> Bytes.dropZ n l = [].
Proof.
  unfold Bytes.len. induction l as [|x l IH]; simpl length; intros n Hn;
    [reflexivity|]. simpl.
  destruct (n <=? 0) eqn:E; [apply Z.leb_le in E; lia|].
  apply IH. lia.
Qed.

Lemma Sum256_length data : length (Sha256.Sum256 data) = 32%nat.
Proof.
  unfold Sha256.Sum256.
  destruct (Sha256.blocks _ _ _). reflexivity.
Qed.

Lemma leaves_nil fuel : Glacier.leaves fuel [] = [].
Proof. destruct fuel; reflexivity. Qed.

Lemma leaves_nonempty fuel r :
  r <> [] -> Glacier.leaves (S fuel) r <> [].
Proof.
  intros Hr. simpl.
  destruct (Bytes.takeZ Glacier.bufsize r) eqn:E; [|discriminate].
  apply takeZ_nil_inv in E; [contradiction|reflexivity].
Qed.

Lemma leaves_digests fuel : forall r,
  Forall (fun node => length node = 32%nat) (Glacier.leaves fuel r).
Proof.
  induction fuel as [|fuel IH]; intros r; simpl; [constructor|].
  destruct (Bytes.takeZ Glacier.bufsize r); constructor;
    [apply Sum256_length|apply IH].
Qed.

(** One level never has more nodes than the level below, and keeps the
    nodes digests. *)
Lemma level_length hashes :
  (length (Glacier.level hashes) <= length hashes)%nat.
Proof.
  induction hashes as [hashes IH] using (induction_ltof1 _ (@length _)).
  unfold ltof in IH.
  destruct hashes as [|a [|b rest]]; simpl; try lia.
  specialize (IH rest). simpl in IH. lia.
Qed.

Lemma level_nonempty hashes : hashes <> [] -> Glacier.level hashes <> [].
Proof. destruct hashes as [|a [|b rest]]; simpl; congruence. Qed.

Lemma level_digests hashes :
  Forall (fun node => length node = 32%nat) hashes ->
  Forall (fun node => length node = 32%nat) (Glacier.level hashes).
Proof.
  induction hashes as [hashes IH] using (induction_ltof1 _ (@length _)).
  unfold ltof in IH. intros H.
  destruct hashes as [|a [|b rest]]; simpl; try assumption.
  inversion H as [|? ? _ H']; subst. inversion H' as [|? ? _ H'']; subst.
  constructor; [apply Sum256_length|]. apply IH; [simpl; lia|assumption].
Qed.

(** The levels are built until exactly one node remains. *)
Lemma reduce_root fuel : forall hashes,
  hashes <> [] -> (length hashes <= S fuel)%nat ->
  Forall (fun node => length node = 32%nat) hashes ->
  exists root, Glacier.reduce fuel hashes = [root] /\ length root = 32%nat.
Proof.
  induction fuel as [|fuel IH]; intros hashes Hne Hlen Hd.
  - destruct hashes as [|a [|b rest]]; simpl in *; try congruence; try lia.
    exists a. split; [reflexivity|]. now inversion Hd.
  - destruct hashes as [|a [|b rest]]; [congruence| |].
    + exists a. split; [reflexivity|]. now inversion Hd.
    + change (Glacier.reduce (S fuel) (a :: b :: rest))
        with (Glacier.reduce fuel (Glacier.level (a :: b :: rest))).
      apply IH.
      * apply level_nonempty. discriminate.
      * simpl. pose proof (level_length rest). simpl in Hlen. lia.
      * now apply level_digests.
Qed.

Lemma takeZ_dropZ {A} (l : list A) : forall n,
  Bytes.takeZ n l ++ Bytes.dropZ n l = l.
Proof.
  induction l as [|x l IH]; intros n; simpl; [reflexivity|].
  destruct (n <=? 0); [reflexivity|]. simpl. now rewrite IH.
Qed.

Lemma takeZ_len {A} (l : list A) : forall n,
  0 <= n ->
  Bytes.len (Bytes.takeZ n l) <= n
  /\ (Bytes.dropZ n l <> [] -> Bytes.len (Bytes.takeZ n l) = n).
Proof.
  unfold Bytes.len. induction l as [|x l IH]; intros n Hn; simpl.
  - split; [lia|congruence].
  - destruct (n <=? 0) eqn:E.
    + apply Z.leb_le in E. simpl. split; lia.
    + apply Z.leb_gt in E. destruct (IH (n - 1)) as [Hle Heq]; [lia|].
      simpl length. split; [lia|]. intros Hrest. specialize (Heq Hrest). lia.
Qed.

Lemma dropZ_length {A} (l : list A) : forall n,
  (length (Bytes.dropZ n l) <= length l)%nat.
Proof.
  induction l as [|x l IH]; intros n; simpl; [lia|].
  destruct (n <=? 0); [simpl; lia|]. specialize (IH (n - 1)). lia.
Qed.

Lemma dropZ_shorter {A} (l : list A) n :
  0 < n -> l <> [] -> (length (Bytes.dropZ n l) < length l)%nat.
Proof.
  intros Hn Hl. destruct l as [|x l]; [congruence|]. simpl.
  destruct (n <=? 0) eqn:E; [apply Z.leb_le in E; lia|].
  pose proof (dropZ_length l (n - 1)). lia.
Qed.

(** With fuel for every byte the leaves are the digests of the chunks of
    the bytes read, all of them. *)
Lemma leaves_chunks fuel : forall r,
  (length r <= fuel)%nat ->
  exists cs, Glacier.leaves fuel r = Sha256.Sum256 <$> cs
             /\ Chunks.chunking cs r.
Proof.
  induction fuel as [|fuel IH]; intros r Hfuel.
  - destruct r; [|simpl in Hfuel; lia]. exists []. split; [reflexivity|].
    split; [reflexivity|]. intros i c Hi. destruct i; discriminate Hi.
  - simpl.
    destruct (Bytes.takeZ Glacier.bufsize r) as [|b chunk] eqn:Htake.
    + apply takeZ_nil_inv in Htake; [|reflexivity]. subst r.
      exists []. split; [reflexivity|]. split; [reflexivity|].
      intros i c Hi. destruct i; discriminate Hi.
    + assert (r <> []) as Hr by (intros ->; discriminate Htake).
      pose proof (dropZ_shorter r Glacier.bufsize eq_refl Hr) as Hshort.
      destruct (IH (Bytes.dropZ Glacier.bufsize r)) as (cs & Hleaves & Hcat & Hcs);
        [lia|].
      exists ((b :: chunk) :: cs). split; [now rewrite Hleaves|].
      split.
      * change (concat ((b :: chunk) :: cs)) with ((b :: chunk) ++ concat cs).
        rewrite Hcat, <- Htake. apply takeZ_dropZ.
      * destruct (takeZ_len r Glacier.bufsize) as [Hle Hfull];
          [unfold Glacier.bufsize; lia|].
        rewrite Htake in Hle, Hfull.
        intros [|i] c Hi.
        -- injection Hi as <-. split.
           ++ split; [unfold Bytes.len; simpl length; lia|exact Hle].
           ++ intros Hmore. apply Hfull. rewrite <- Hcat.
              destruct cs as [|c1 cs']; [simpl in Hmore; lia|].
              destruct (Hcs 0%nat c1 eq_refl) as [[Hpos _] _].
              destruct c1; [unfold Bytes.len in Hpos; simpl in Hpos; lia|].
              discriminate.
        -- destruct (Hcs i c Hi) as [Hb Hlast]. split; [exact Hb|].
           intros Hmore. apply Hlast. simpl in Hmore. lia.
Qed.

(** On a reader that yields at most 1 MiB the tree has a single leaf,
    which is its root. *)
Lemma TreeHash_single_chunk r :
  r <> [] -> Bytes.len r <= Glacier.bufsize ->
  Glacier.TreeHash r = Some (Sha256.Sum256 r).
Proof.
  intros Hne Hlen. unfold Glacier.TreeHash.
  destruct r as [|x r]; [congruence|].
  change (length (x :: r)) with (S (length r)).
  unfold Glacier.leaves; fold Glacier.leaves.
  rewrite (takeZ_all (x :: r)) by assumption.
  rewrite (dropZ_all (x :: r)) by assumption.
  rewrite leaves_nil. reflexivity.
Qed.

(** The digests of the standard test messages, of one block and of two. *)
Example Sum256_abc :
  Hex.EncodeToString (Sha256.Sum256 [x61; x62; x63])
  = "ba7816bf8f01cfea414140de5dae2223b00361a396177a9cb410ff61f20015ad".
Proof. vm_compute. reflexivity. Qed.

Example Sum256_two_blocks :
  Hex.EncodeToString
    (Sha256.Sum256
       (list_byte_of_string
          "abcdbcdecdefdefgefghfghighijhijkijkljklmklmnlmnomnopnopq"))
  = "248d6a61d20638b8e5c026930c3e6039a33ce45964ff2167f6ecedd419db06c1".
Proof. vm_compute. reflexivity. Qed.

(** The roots of the trees of two and of three leaves. *)
Example ComputeTreeHash_two_leaves (l1 l2 : list byte) :
  Glacier.ComputeTreeHash [l1; l2] = Some (Sha256.Sum256 (l1 ++ l2)).
Proof. reflexivity. Qed.

Example ComputeTreeHash_three_leaves (l1 l2 l3 : list byte) :
  Glacier.ComputeTreeHash [l1; l2; l3]
  = Some (Sha256.Sum256 (Sha256.Sum256 (l1 ++ l2) ++ l3)).
Proof. reflexivity. Qed.

(** C1. [ComputeTreeHash] returns no value if and only if the reader
    yields no byte. For a reader that yields at least one byte it returns
    the hex encoding of the root of the tree built over the SHA-256
    digests of the chunks of the bytes, of 1 MiB each but for the last,
    the levels being built until a single node remains, a digest of 32
    bytes; when the reader yields at most 1 MiB that root is the SHA-256
    digest of the bytes. For the four bytes
    of ["test"] the result is
    [9f86d081884c7d659a2feaa0c55ad015a3bf4f1b2b0b822cd15d6c15b0f00a08]. *)
Theorem ComputeTreeHash_spec :
  (forall r, Utils.ComputeTreeHash r = None <-> r = [])
  /\ (forall r, r <> [] ->
        exists cs root,
          Chunks.chunking cs r
          /\ Glacier.reduce (length cs) (Sha256.Sum256 <$> cs) = [root]
          /\ length root = 32%nat
          /\ Utils.ComputeTreeHash r = Some (Hex.EncodeToString root)
          /\ (Bytes.len r <= Glacier.bufsize -> root = Sha256.Sum256 r))
  /\ Utils.ComputeTreeHash [x74; x65; x73; x74]
     = Some "9f86d081884c7d659a2feaa0c55ad015a3bf4f1b2b0b822cd15d6c15b0f00a08".
Proof.
  assert (forall r, r <> [] ->
            exists root,
              Glacier.reduce (length (Glacier.leaves (length r) r))
                             (Glacier.leaves (length r) r) = [root]
              /\ length root = 32%nat) as Hroot.
  { intros r Hne. apply reduce_root.
    - destruct r as [|x r]; [congruence|]. now apply leaves_nonempty.
    - lia.
    - apply leaves_digests. }
  split; [|split].
  - intros r. split.
    + intros Hnone. destruct r as [|x r]; [reflexivity|]. exfalso.
      destruct (Hroot (x :: r)) as (root & Hred & _); [discriminate|].
      unfold Utils.ComputeTreeHash, Glacier.TreeHash, Glacier.ComputeTreeHash in Hnone.
      rewrite Hred in Hnone. discriminate.
    + intros ->. reflexivity.
  - intros r Hne. destruct (Hroot r Hne) as (root & Hred & Hlen).
    destruct (leaves_chunks (length r) r) as (cs & Hleaves & Hchunks); [lia|].
    exists cs, root. split; [exact Hchunks|].
    split; [now rewrite Hleaves, length_fmap in Hred|]. split; [exact Hlen|].
    assert (Glacier.TreeHash r = Some root) as Htree.
    { unfold Glacier.TreeHash, Glacier.ComputeTreeHash. now rewrite Hred. }
    split.
    + unfold Utils.ComputeTreeHash. now rewrite Htree.
    + intros Hsmall. rewrite TreeHash_single_chunk in Htree by assumption.
      congruence.
  - vm_compute. reflexivity.
Qed.

Lemma ComputeTreeHash_spec_witness :
  exists root,
    length root = 32%nat
    /\ Utils.ComputeTreeHash [x74; x65; x73; x74]
       = Some (Hex.EncodeToString root)
    /\ root = Sha256.Sum256 [x74; x65; x73; x74].
Proof.
  destruct (proj1 (proj2 ComputeTreeHash_spec) [x74; x65; x73; x74])
    as (cs & root & _ & _ & Hlen & Hhex & Hone); [discriminate|].
  exists root. split; [exact Hlen|]. split; [exact Hhex|].
  apply Hone. vm_compute. discriminate.
Defined.

(* ===================================================================== *)
(** * Properties of the range cursor *)
(* ===================================================================== *)

Lemma count_bounds size partSize :
  0 < size -> 1 <= partSize ->
  1 <= Parts.count size partSize
  /\ (Parts.count size partSize - 1) * partSize < size
  /\ size <= Parts.count size partSize * partSize.
Proof.
  intros Hs Hp. unfold Parts.count.
  pose proof (Z.div_mod (size + partSize - 1) partSize ltac:(lia)) as Hdm.
  pose proof (Z.mod_pos_bound (size + partSize - 1) partSize ltac:(lia)) as Hm.
  set (n := (size + partSize - 1) / partSize) in *.
  assert (1 <= n) by (apply Z.div_le_lower_bound; lia).
  split; [assumption|]. split; nia.
Qed.

(** Inside the file, and as long as the cursor does not overflow, a step
    yields the part of the current index and moves to the next index. *)
Lemma step_inside size partSize (k : nat) :
  0 < size -> 1 <= partSize ->
  Parts.count size partSize * partSize <= Int64.max_int ->
  Z.of_nat k < Parts.count size partSize ->
  Parts.step size partSize (Z.of_nat k * partSize)
  = Some (Parts.part size partSize k, Z.of_nat (S k) * partSize).
Proof.
  intros Hs Hp Hmax Hk.
  destruct (count_bounds size partSize Hs Hp) as (Hn & Hlo & Hhi).
  set (n := Parts.count size partSize) in *.
  unfold Parts.step, Parts.part.
  assert (Z.of_nat k * partSize < size) as Hin by nia.
  assert (Z.of_nat k * partSize + partSize <= Int64.max_int) as Hnext by nia.
  unfold Int64.max_int in *.
  destruct (size <=? Z.of_nat k * partSize) eqn:E;
    [apply Z.leb_le in E; lia|clear E].
  unfold Int64.add, Int64.sub.
  rewrite !wrap_in_range
    by (unfold Int64.in_range, Int64.min_int, Int64.max_int; nia).
  f_equal. f_equal; [|lia]. f_equal.
  destruct (size <? Z.of_nat k * partSize + partSize) eqn:E.
  - apply Z.ltb_lt in E. lia.
  - apply Z.ltb_ge in E. lia.
Qed.

Lemma step_end size partSize :
  0 < size -> 1 <= partSize ->
  Parts.step size partSize (Parts.count size partSize * partSize) = None.
Proof.
  intros Hs Hp.
  destruct (count_bounds size partSize Hs Hp) as (_ & _ & Hhi).
  unfold Parts.step.
  destruct (size <=? Parts.count size partSize * partSize) eqn:E;
    [reflexivity|apply Z.leb_gt in E; lia].
Qed.

Lemma Downloader_getNextRange_step d :
  Downloader.getNextRange d =
  match Parts.step (Downloader.size d)
                   (Downloader.PartSize (Downloader.input d))
                   (Downloader.offset d) with
  | None => (None, d)
  | Some (r, next) => (Some r, Downloader.with_offset d next)
  end.
Proof.
  unfold Downloader.getNextRange, Parts.step.
  destruct (Downloader.size d <=? Downloader.offset d); reflexivity.
Qed.

Lemma Uploader_getNextRange_step fuel s :
  Uploader.offset s ∉ Uploader.uploaded s ->
  Uploader.getNextRange (S fuel) s =
  match Parts.step (Uploader.size s)
                   (Uploader.PartSize (Uploader.input s))
                   (Uploader.offset s) with
  | None => Ok (None, s)
  | Some (r, next) => Ok (Some r, Uploader.with_offset s next)
  end.
Proof.
  intros Hfresh. unfold Parts.step. simpl.
  destruct (Uploader.size s <=? Uploader.offset s); [reflexivity|].
  destruct (decide (Uploader.offset s ∈ Uploader.uploaded s));
    [contradiction|reflexivity].
Qed.

(** From the cursor at index [k], with [m] parts to go, the producer
    yields the parts of the indices [k .. k + m - 1] and stops. *)
Lemma Downloader_produce_from size partSize (m : nat) : forall (k : nat) d fuel,
  0 < size -> 1 <= partSize ->
  Parts.count size partSize * partSize <= Int64.max_int ->
  Downloader.size d = size ->
  Downloader.PartSize (Downloader.input d) = partSize ->
  Downloader.offset d = Z.of_nat k * partSize ->
  Z.of_nat (k + m) = Parts.count size partSize ->
  (m < fuel)%nat ->
  Downloader.produce fuel d = Ok (Parts.part size partSize <$> seq k m).
Proof.
  induction m as [|m IH]; intros k d fuel Hs Hp Hmax Hsize Hpart Hoff Hkm Hfuel;
    (destruct fuel as [|fuel]; [lia|]); simpl Downloader.produce;
    rewrite Downloader_getNextRange_step, Hsize, Hpart, Hoff.
  - replace (Z.of_nat k) with (Parts.count size partSize) by lia.
    now rewrite step_end.
  - rewrite step_inside by (assumption || lia).
    rewrite (IH (S k) _ fuel); try assumption; try reflexivity; try lia.
Qed.

Lemma Uploader_produce_from size partSize (m : nat) : forall (k : nat) s fuel,
  0 < size -> 1 <= partSize ->
  Parts.count size partSize * partSize <= Int64.max_int ->
  Uploader.size s = size ->
  Uploader.PartSize (Uploader.input s) = partSize ->
  Uploader.offset s = Z.of_nat k * partSize ->
  Uploader.uploaded s = ∅ ->
  Z.of_nat (k + m) = Parts.count size partSize ->
  (m < fuel)%nat ->
  Uploader.produce fuel s = Ok (Parts.part size partSize <$> seq k m).
Proof.
  induction m as [|m IH];
    intros k s fuel Hs Hp Hmax Hsize Hpart Hoff Hup Hkm Hfuel;
    (destruct fuel as [|fuel]; [lia|]);
    unfold Uploader.produce; fold Uploader.produce;
    rewrite Uploader_getNextRange_step by (rewrite Hup; set_solver);
    rewrite Hsize, Hpart, Hoff.
  - replace (Z.of_nat k) with (Parts.count size partSize) by lia.
    now rewrite step_end.
  - rewrite step_inside by (assumption || lia).
    simpl. rewrite (IH (S k) _ fuel); try assumption; try reflexivity; try lia.
Qed.

Lemma lookup_parts size partSize (n i : nat) r :
  (Parts.part size partSize <$> seq 0 n) !! i = Some r <->
  (i < n)%nat /\ r = Parts.part size partSize i.
Proof.
  rewrite list_lookup_fmap. split.
  - intros H. apply fmap_Some in H as (j & Hj & ->).
    apply lookup_seq in Hj as [-> Hlt]. auto.
  - intros [Hlt ->]. rewrite (lookup_seq_lt 0 n i Hlt). reflexivity.
Qed.

Lemma parts_increasing size partSize n :
  1 <= partSize ->
  Parts.increasing (Parts.part size partSize <$> seq 0 n).
Proof.
  intros Hp i j ri rj Hij Hi Hj.
  apply lookup_parts in Hi as [_ ->]. apply lookup_parts in Hj as [_ ->].
  simpl. nia.
Qed.

Lemma parts_partition size partSize :
  0 < size -> 1 <= partSize ->
  Parts.partition
    (Parts.part size partSize <$> seq 0 (Z.to_nat (Parts.count size partSize)))
    size.
Proof.
  intros Hs Hp.
  destruct (count_bounds size partSize Hs Hp) as (Hn & Hlo & Hhi).
  set (n := Parts.count size partSize) in *.
  split.
  - intros i r Hi. apply lookup_parts in Hi as [Hlt ->]. simpl.
    assert (Z.of_nat i <= n - 1) by lia.
    assert (Z.of_nat i * partSize < size) by nia.
    split; [lia|]. split; [nia|lia].
  - intros x Hx.
    pose proof (Z.div_mod x partSize ltac:(lia)) as Hdm.
    pose proof (Z.mod_pos_bound x partSize ltac:(lia)) as Hm.
    assert (0 <= x / partSize) as Hq0 by (apply Z.div_pos; lia).
    assert (x / partSize < n) as Hqn by nia.
    exists (Z.to_nat (x / partSize)), (Parts.part size partSize (Z.to_nat (x / partSize))).
    split; [apply lookup_parts; split; [lia|reflexivity]|].
    split.
    + unfold Parts.covers. simpl. rewrite Z2Nat.id by lia. lia.
    + intros j r' Hj Hcov. apply lookup_parts in Hj as [Hlt ->].
      unfold Parts.covers in Hcov. simpl in Hcov.
      assert (Z.of_nat j = x / partSize) as Heq.
      { apply (Z.div_unique_pos x partSize (Z.of_nat j) (x - Z.of_nat j * partSize)); lia. }
      lia.
Qed.

Lemma increasing_NoDup rs : Parts.increasing rs -> NoDup rs.
Proof.
  intros Hinc. apply NoDup_alt. intros i j r Hi Hj.
  destruct (Nat.lt_trichotomy i j) as [Hlt|[Heq|Hgt]]; [|exact Heq|].
  - pose proof (Hinc i j r r Hlt Hi Hj). lia.
  - pose proof (Hinc j i r r Hgt Hj Hi). lia.
Qed.

(** C3 (as amended). For a file of size [S > 0] and part size [P >= 1]
    such that the cursor does not overflow, that is,
    [ceil(S/P) * P <= 2^63 - 1], and with no offset confirmed beforehand,
    calling [getNextRange] again and again, on the uploader and on the
    downloader alike, ends and yields exactly [ceil(S/P)] ranges, the
    i-th being the part of index i; they cut [0 .. S - 1] into parts that
    contain each byte exactly once, their offsets grow strictly and no
    range is yielded twice. *)
Theorem getNextRange_partition (S P : Z) (u : Uploader.Uploader)
    (d : Downloader.Downloader) :
  0 < S -> 1 <= P -> Parts.count S P * P <= Int64.max_int ->
  Uploader.size u = S -> Uploader.PartSize (Uploader.input u) = P ->
  Uploader.offset u = 0 -> Uploader.uploaded u = ∅ ->
  Downloader.size d = S -> Downloader.PartSize (Downloader.input d) = P ->
  Downloader.offset d = 0 ->
  exists rs,
    (forall fuel, (Z.to_nat (Parts.count S P) < fuel)%nat ->
       Uploader.produce fuel u = Ok rs /\ Downloader.produce fuel d = Ok rs)
    /\ Z.of_nat (length rs) = Parts.count S P
    /\ (forall i, (i < length rs)%nat -> rs !! i = Some (Parts.part S P i))
    /\ Parts.partition rs S
    /\ Parts.increasing rs
    /\ NoDup rs.
Proof.
  intros HS HP Hmax Hus Hup Huo Huu Hds Hdp Hdo.
  destruct (count_bounds S P HS HP) as (Hn & _ & _).
  exists (Parts.part S P <$> seq 0 (Z.to_nat (Parts.count S P))).
  split; [|split; [|split; [|split; [|split]]]].
  - intros fuel Hfuel. split.
    + apply (Uploader_produce_from S P _ 0%nat); try assumption; lia.
    + apply (Downloader_produce_from S P _ 0%nat); try assumption; lia.
  - rewrite length_fmap, length_seq. lia.
  - intros i Hi. rewrite length_fmap, length_seq in Hi.
    apply lookup_parts. auto.
  - now apply parts_partition.
  - now apply parts_increasing.
  - apply increasing_NoDup. now apply parts_increasing.
Qed.

Lemma getNextRange_partition_witness :
  let u := Uploader.mkUploader (Uploader.mkInput "-" "vault" "file" "id" 4)
                               ∅ None 11 0 in
  let d := Downloader.mkDownloader (Downloader.mkInput "-" "vault" "file" "job" 4)
                                   None None 11 0 in
  exists rs,
    (forall fuel, (Z.to_nat (Parts.count 11 4) < fuel)%nat ->
       Uploader.produce fuel u = Ok rs /\ Downloader.produce fuel d = Ok rs)
    /\ Z.of_nat (length rs) = Parts.count 11 4
    /\ (forall i, (i < length rs)%nat -> rs !! i = Some (Parts.part 11 4 i))
    /\ Parts.partition rs 11
    /\ Parts.increasing rs
    /\ NoDup rs.
Proof.
  cbv zeta.
  apply (getNextRange_partition 11 4); try reflexivity; try lia.
  vm_compute. discriminate.
Defined.

(** The parts of the eleven bytes of the upload tests, cut every four
    bytes. *)
Example produce_11_by_4 :
  Uploader.produce 4
    (Uploader.mkUploader (Uploader.mkInput "-" "vault" "file" "id" 4) ∅ None 11 0)
  = Ok [Utils.mkRange 0 4; Utils.mkRange 4 4; Utils.mkRange 8 3].
Proof. vm_compute. reflexivity. Qed.

Lemma Downloader_produce_unfold fuel d :
  Downloader.produce (S fuel) d =
  match Downloader.getNextRange d with
  | (None, _) => Ok []
  | (Some p, d1) => rest ← Downloader.produce fuel d1; Ok (p :: rest)
  end.
Proof. simpl. destruct (Downloader.getNextRange d) as [[p|] d1]; reflexivity. Qed.

(** C3 as stated fails when the cursor overflows. With [S = 2^63 - 1] and
    [P = 2^63 - 2] there should be two ranges, the second one of a single
    byte; the second call yields instead a range that ends far beyond the
    file, and the third call, the cursor having wrapped to [-4], yields a
    third range, of negative offset. So whenever the calls come to an end
    there are more than two ranges, and they do not cut the file into
    parts. *)
Lemma getNextRange_partition_overflow :
  let S := 9223372036854775807 in
  let P := 9223372036854775806 in
  let d0 := Downloader.mkDownloader
              (Downloader.mkInput "-" "vault" "file" "job" P) None None S 0 in
  let d1 := Downloader.with_offset d0 P in
  let d2 := Downloader.with_offset d0 (-4) in
  0 < S /\ 1 <= P /\ Parts.count S P = 2
  /\ Downloader.getNextRange d0 = (Some (Utils.mkRange 0 P), d1)
  /\ Downloader.getNextRange d1 = (Some (Utils.mkRange P P), d2)
  /\ S < P + P
  /\ fst (Downloader.getNextRange d2) = Some (Utils.mkRange (-4) P)
  /\ forall fuel rs,
       Downloader.produce fuel d0 = Ok rs ->
       Z.of_nat (length rs) <> Parts.count S P /\ ~ Parts.partition rs S.
Proof.
  cbv zeta.
  set (d0 := Downloader.mkDownloader _ None None _ 0).
  assert (Downloader.getNextRange d0
          = (Some (Utils.mkRange 0 9223372036854775806),
             Downloader.with_offset d0 9223372036854775806)) as H1
    by (vm_compute; reflexivity).
  assert (Downloader.getNextRange (Downloader.with_offset d0 9223372036854775806)
          = (Some (Utils.mkRange 9223372036854775806 9223372036854775806),
             Downloader.with_offset d0 (-4))) as H2
    by (vm_compute; reflexivity).
  split; [lia|]. split; [lia|]. split; [reflexivity|].
  split; [exact H1|]. split; [exact H2|]. split; [lia|].
  split; [vm_compute; reflexivity|].
  intros fuel rs Hrs.
  destruct fuel as [|[|fuel]]; [discriminate Hrs| |].
  { rewrite Downloader_produce_unfold, H1 in Hrs. discriminate Hrs. }
  rewrite Downloader_produce_unfold, H1 in Hrs.
  rewrite Downloader_produce_unfold, H2 in Hrs.
  destruct (Downloader.produce fuel (Downloader.with_offset d0 (-4)))
    as [rest| | |] eqn:Hrest; try discriminate Hrs.
  injection Hrs as <-.
  assert (rest <> []) as Hne.
  { destruct fuel as [|fuel]; [discriminate Hrest|].
    rewrite Downloader_produce_unfold in Hrest.
    replace (Downloader.getNextRange (Downloader.with_offset d0 (-4)))
      with (Some (Utils.mkRange (-4) 9223372036854775806),
            Downloader.with_offset d0 9223372036854775802) in Hrest
      by (vm_compute; reflexivity).
    destruct (Downloader.produce fuel _); try discriminate Hrest.
    injection Hrest as <-. discriminate. }
  split.
  - destruct rest; [congruence|]. simpl length.
    change (Parts.count 9223372036854775807 9223372036854775806) with 2. lia.
  - intros [Hin _].
    destruct (Hin 1%nat (Utils.mkRange 9223372036854775806 9223372036854775806)
                eq_refl) as (_ & _ & Hend).
    simpl in Hend. lia.
Qed.

(* ===================================================================== *)
(** * Properties of the upload coordinator *)
(* ===================================================================== *)

Lemma Uploader_dispatch_unfold svc fuel jobs s :
  Uploader.dispatch svc (S fuel) jobs s =
  ('(next, s1) ← quiet (Uploader.getNextRange (S fuel) s);
   match next with
   | None => mret (s1, [])
   | Some p =>
       if jobs =? 0 then quiet Hang
       else
         err ← Uploader.uploadPart svc s1 p;
         '(s2, log) ← Uploader.dispatch svc fuel jobs s1;
         mret (s2, (p, err) :: log)
   end).
Proof. reflexivity. Qed.

(** [getNextRange] only moves the cursor, and never yields an offset that
    is marked as uploaded. *)
Lemma Uploader_getNextRange_fresh fuel : forall s next s',
  Uploader.getNextRange fuel s = Ok (next, s') ->
  Uploader.uploaded s' = Uploader.uploaded s
  /\ Uploader.size s' = Uploader.size s
  /\ Uploader.input s' = Uploader.input s
  /\ Uploader.file s' = Uploader.file s
  /\ forall p, next = Some p -> Utils.Offset p ∉ Uploader.uploaded s.
Proof.
  induction fuel as [|fuel IH]; intros s next s' H; [discriminate H|].
  simpl in H.
  destruct (Uploader.size s <=? Uploader.offset s).
  { injection H as <- <-. repeat split; discriminate. }
  destruct (decide (Uploader.offset s ∈ Uploader.uploaded s)) as [Hin|Hout].
  - apply IH in H. simpl in H. exact H.
  - injection H as <- <-. repeat split. intros p [= <-]. exact Hout.
Qed.

(** No part dispatched by [multipartUpload] starts at an offset that was
    marked as uploaded when the dispatch began. *)
Lemma Uploader_dispatch_fresh svc jobs fuel : forall s s' log sent,
  Uploader.dispatch svc fuel jobs s = (Ok (s', log), sent) ->
  forall p err, (p, err) ∈ log -> Utils.Offset p ∉ Uploader.uploaded s.
Proof.
  induction fuel as [|fuel IH]; intros s s' log sent H; [discriminate H|].
  rewrite Uploader_dispatch_unfold in H.
  destruct (Uploader.getNextRange (S fuel) s) as [[next s1]| | |] eqn:Hg;
    try discriminate H.
  apply Uploader_getNextRange_fresh in Hg as (Hup & _ & _ & _ & Hfresh).
  unfold mbind, traced_bind, quiet in H. simpl in H.
  destruct next as [p0|].
  - destruct (jobs =? 0); [discriminate H|].
    destruct (Uploader.uploadPart svc s1 p0) as [[err0| | |] sent0] eqn:Hu;
      try discriminate H.
    destruct (Uploader.dispatch svc fuel jobs s1) as [[[s2 log2]| | |] sent2] eqn:Hd;
      try discriminate H.
    simpl in H. injection H as <- <- <-.
    intros p err Hin. apply elem_of_cons in Hin as [[= -> ->]|Hin].
    + now apply Hfresh.
    + rewrite <- Hup. eapply IH; eauto.
  - injection H as <- <- <-. intros p err Hin. inversion Hin.
Qed.

(** The parts logged by the dispatch loop of [multipartUpload] are the
    ranges that the producer yields, in the same order. *)
Lemma Uploader_dispatch_produce svc jobs fuel : forall s s' log sent,
  Uploader.dispatch svc fuel jobs s = (Ok (s', log), sent) ->
  Uploader.produce fuel s = Ok (log.*1).
Proof.
  induction fuel as [|fuel IH]; intros s s' log sent H; [discriminate H|].
  rewrite Uploader_dispatch_unfold in H.
  unfold Uploader.produce; fold Uploader.produce.
  destruct (Uploader.getNextRange (S fuel) s) as [[next s1]| | |] eqn:Hg;
    try discriminate H.
  unfold mbind, traced_bind, quiet in H. simpl in H.
  destruct next as [p0|].
  - destruct (jobs =? 0); [discriminate H|].
    destruct (Uploader.uploadPart svc s1 p0) as [[err0| | |] sent0];
      try discriminate H.
    destruct (Uploader.dispatch svc fuel jobs s1) as [[[s2 log2]| | |] sent2] eqn:Hd;
      try discriminate H.
    simpl in H. injection H as <- <- <-.
    simpl. now rewrite (IH _ _ _ _ Hd).
  - injection H as <- <- <-. reflexivity.
Qed.

(** C4. Let a listed part have a range text that parses to [r], with the
    offset of [r] below the size of the local file, the tree hash [local]
    of the bytes of [r] in the file, and the hash [remote] recorded by the
    service. If [local = remote], [checkPart] answers ok and marks the
    offset of [r] as uploaded, and from then on, as long as the mark
    stays, [getNextRange] never yields that offset and no part dispatched
    by [multipartUpload] starts at it.
    If the hashes differ, [checkPart] answers not ok, returns no error and
    leaves the state as it was, so that [getNextRange] still yields the
    offset when the cursor reaches it and it is not marked. *)
Theorem checkPart_reconciles (s : Uploader.Uploader)
    (part : Uploader.PartListElement) (text : string) (r : Utils.Range)
    (local remote : string) :
  Uploader.RangeInBytes part = Some text ->
  Utils.RangeFromString text = Some r ->
  Utils.Offset r < Uploader.size s ->
  Utils.ComputeTreeHash
    (File.section (Uploader.file s) (Utils.Offset r) (Utils.Limit r))
  = Some local ->
  Uploader.SHA256TreeHash part = Some remote ->
  (local = remote ->
     exists s1,
       Uploader.checkPart s part = Ok (true, s1)
       /\ Uploader.uploaded s1 = {[Utils.Offset r]} ∪ Uploader.uploaded s
       /\ (forall fuel s2 p s3,
             Utils.Offset r ∈ Uploader.uploaded s2 ->
             Uploader.getNextRange fuel s2 = Ok (Some p, s3) ->
             Utils.Offset p <> Utils.Offset r)
       /\ forall svc fuel jobs s2 s3 log sent,
            Utils.Offset r ∈ Uploader.uploaded s2 ->
            Uploader.multipartUpload svc fuel jobs s2 = (Ok (s3, log), sent) ->
            forall p err, (p, err) ∈ log -> Utils.Offset p <> Utils.Offset r)
  /\ (local <> remote ->
        Uploader.checkPart s part = Ok (false, s)
        /\ forall fuel s2,
             Uploader.offset s2 = Utils.Offset r ->
             Uploader.size s2 = Uploader.size s ->
             Utils.Offset r ∉ Uploader.uploaded s2 ->
             exists p s3,
               Uploader.getNextRange (S fuel) s2 = Ok (Some p, s3)
               /\ Utils.Offset p = Utils.Offset r).
Proof.
  intros Htext Hparse Hoff Hlocal Hremote.
  assert ((Uploader.size s <=? Utils.Offset r) = false) as Hsize
    by (apply Z.leb_gt; exact Hoff).
  split.
  - intros Heq. eexists. split; [|split; [|split]].
    + unfold Uploader.checkPart.
      rewrite Htext, Hparse, Hsize, Hlocal, Hremote.
      destruct (decide (local = remote)); [reflexivity|contradiction].
    + reflexivity.
    + intros fuel s2 p s3 Hmark Hnext Hsame.
      apply Uploader_getNextRange_fresh in Hnext as (_ & _ & _ & _ & Hfresh).
      specialize (Hfresh p eq_refl). rewrite Hsame in Hfresh. contradiction.
    + intros svc fuel jobs s2 s3 log sent Hmark Hrun p err Hin Hsame.
      unfold Uploader.multipartUpload in Hrun.
      destruct (jobs <? 0); [discriminate Hrun|].
      eapply Uploader_dispatch_fresh in Hrun; [|exact Hin].
      rewrite Hsame in Hrun. contradiction.
  - intros Hne. split.
    + unfold Uploader.checkPart.
      rewrite Htext, Hparse, Hsize, Hlocal, Hremote.
      destruct (decide (local = remote)); [contradiction|reflexivity].
    + intros fuel s2 Hcur Hsz Hfresh. simpl.
      rewrite Hcur, Hsz, Hsize.
      destruct (decide (Utils.Offset r ∈ Uploader.uploaded s2));
        [contradiction|].
      eexists _, _. split; reflexivity.
Qed.

Lemma checkPart_reconciles_witness :
  let s := Uploader.mkUploader (Uploader.mkInput "-" "vault" "file" "id" 4)
                               ∅ (Some [x74; x65; x73; x74]) 4 0 in
  let part :=
    Uploader.mkPart (Some "0-3")
      (Some "9f86d081884c7d659a2feaa0c55ad015a3bf4f1b2b0b822cd15d6c15b0f00a08") in
  exists s1,
    Uploader.checkPart s part = Ok (true, s1)
    /\ Uploader.uploaded s1 = {[0]} ∪ ∅.
Proof.
  cbv zeta.
  destruct (checkPart_reconciles
              (Uploader.mkUploader (Uploader.mkInput "-" "vault" "file" "id" 4)
                                   ∅ (Some [x74; x65; x73; x74]) 4 0)
              (Uploader.mkPart (Some "0-3")
                 (Some "9f86d081884c7d659a2feaa0c55ad015a3bf4f1b2b0b822cd15d6c15b0f00a08"))
              "0-3" (Utils.mkRange 0 4)
              "9f86d081884c7d659a2feaa0c55ad015a3bf4f1b2b0b822cd15d6c15b0f00a08"
              "9f86d081884c7d659a2feaa0c55ad015a3bf4f1b2b0b822cd15d6c15b0f00a08")
    as [Hsame _].
  - reflexivity.
  - reflexivity.
  - simpl. lia.
  - vm_compute. reflexivity.
  - reflexivity.
  - destruct (Hsame eq_refl) as (s1 & Hcheck & Hmarked & _).
    exists s1. split; [exact Hcheck|exact Hmarked].
Defined.

(** C9. Once the range text of a listed part parses, its offset is below
    the size of the local file and the local tree hash is computed,
    [checkPart] dereferences the hash recorded by the service: it panics
    exactly when that hash is absent, and a panic is not a returned error.
    The reconciliation panics with it: listing a page of the configured
    part size that starts with such a part makes [checkUploadedParts]
    panic. *)
Theorem checkPart_nil_checksum (s : Uploader.Uploader)
    (part : Uploader.PartListElement) (text : string) (r : Utils.Range)
    (local : string) :
  Uploader.RangeInBytes part = Some text ->
  Utils.RangeFromString text = Some r ->
  Utils.Offset r < Uploader.size s ->
  Utils.ComputeTreeHash
    (File.section (Uploader.file s) (Utils.Offset r) (Utils.Limit r))
  = Some local ->
  (Uploader.checkPart s part = Panic <-> Uploader.SHA256TreeHash part = None)
  /\ (Uploader.SHA256TreeHash part = None ->
        (forall msg, Uploader.checkPart s part <> Err msg)
        /\ forall svc rest pages pagerErr,
             Uploader.ListParts svc (Uploader.input s)
             = (Uploader.mkPage (Some (Uploader.PartSize (Uploader.input s)))
                                (part :: rest) :: pages, pagerErr) ->
             fst (Uploader.checkUploadedParts svc s) = Panic)
  /\ (forall remote, Uploader.SHA256TreeHash part = Some remote ->
        exists ok s1, Uploader.checkPart s part = Ok (ok, s1)).
Proof.
  intros Htext Hparse Hoff Hlocal.
  assert ((Uploader.size s <=? Utils.Offset r) = false) as Hsize
    by (apply Z.leb_gt; exact Hoff).
  assert (Uploader.SHA256TreeHash part = None ->
          Uploader.checkPart s part = Panic) as Hpanic.
  { intros Hnil. unfold Uploader.checkPart.
    now rewrite Htext, Hparse, Hsize, Hlocal, Hnil. }
  split; [|split].
  - split; [|exact Hpanic].
    unfold Uploader.checkPart. rewrite Htext, Hparse, Hsize, Hlocal.
    destruct (Uploader.SHA256TreeHash part) as [remote|]; [|reflexivity].
    destruct (decide (local = remote)); discriminate.
  - intros Hnil. split.
    + intros msg. rewrite (Hpanic Hnil). discriminate.
    + intros svc rest pages pagerErr Hlist.
      unfold Uploader.checkUploadedParts. rewrite Hlist.
      unfold Uploader.checkPages; fold Uploader.checkPages.
      cbn [Uploader.PartSizeInBytes Uploader.Parts].
      destruct (decide (Uploader.PartSize (Uploader.input s)
                        = Uploader.PartSize (Uploader.input s)));
        [|contradiction].
      unfold Uploader.checkParts; fold Uploader.checkParts.
      rewrite (Hpanic Hnil). reflexivity.
  - intros remote Hsome. unfold Uploader.checkPart.
    rewrite Htext, Hparse, Hsize, Hlocal, Hsome.
    destruct (decide (local = remote)); eexists _, _; reflexivity.
Qed.

Lemma checkPart_nil_checksum_witness :
  Uploader.checkPart
    (Uploader.mkUploader (Uploader.mkInput "-" "vault" "file" "id" 4)
                         ∅ (Some [x74; x65; x73; x74]) 4 0)
    (Uploader.mkPart (Some "0-3") None)
  = Panic.
Proof.
  apply (proj1 (checkPart_nil_checksum
                  (Uploader.mkUploader (Uploader.mkInput "-" "vault" "file" "id" 4)
                                       ∅ (Some [x74; x65; x73; x74]) 4 0)
                  (Uploader.mkPart (Some "0-3") None)
                  "0-3" (Utils.mkRange 0 4)
                  "9f86d081884c7d659a2feaa0c55ad015a3bf4f1b2b0b822cd15d6c15b0f00a08"
                  eq_refl eq_refl ltac:(simpl; lia)
                  ltac:(vm_compute; reflexivity))).
  reflexivity.
Defined.

Lemma openFile_input fs s s1 :
  Uploader.openFile fs s = Ok s1 ->
  Uploader.input s1 = Uploader.input s
  /\ Uploader.offset s1 = Uploader.offset s
  /\ Uploader.uploaded s1 = Uploader.uploaded s.
Proof.
  destruct fs; simpl; try discriminate. intros [= <-]. auto.
Qed.

Lemma initiateUpload_sent svc s1 res sent :
  Uploader.initiateUpload svc s1 = (res, sent) ->
  sent = [] \/ sent = [Uploader.InitiateMultipartUploadRequest].
Proof.
  unfold Uploader.initiateUpload.
  destruct (decide (Uploader.UploadId (Uploader.input s1) = "")).
  - unfold mbind, traced_bind, send, quiet, mret, traced_ret.
    destruct (Uploader.InitiateMultipartUpload svc (Uploader.input s1))
      as [[id|]|err]; intros [= <- <-]; auto.
  - intros [= <- <-]. auto.
Qed.

Lemma initiateUpload_state svc s1 s2 sent :
  Uploader.initiateUpload svc s1 = (Ok s2, sent) ->
  Uploader.PartSize (Uploader.input s2) = Uploader.PartSize (Uploader.input s1)
  /\ Uploader.file s2 = Uploader.file s1
  /\ Uploader.size s2 = Uploader.size s1
  /\ Uploader.offset s2 = Uploader.offset s1
  /\ Uploader.uploaded s2 = Uploader.uploaded s1.
Proof.
  unfold Uploader.initiateUpload.
  destruct (decide (Uploader.UploadId (Uploader.input s1) = "")).
  - unfold mbind, traced_bind, send, quiet, mret, traced_ret.
    destruct (Uploader.InitiateMultipartUpload svc (Uploader.input s1))
      as [[id|]|err]; try discriminate.
    intros [= <- <-]. repeat split.
  - intros [= <- <-]. repeat split.
Qed.

(** A first page that declares another part size stops the reconciliation
    before any part is looked at. *)
Lemma checkUploadedParts_mismatch svc s page pages pagerErr declared :
  Uploader.ListParts svc (Uploader.input s) = (page :: pages, pagerErr) ->
  Uploader.PartSizeInBytes page = Some declared ->
  declared <> Uploader.PartSize (Uploader.input s) ->
  Uploader.checkUploadedParts svc s
  = (Err "part size mismatch", [Uploader.ListPartsRequest]).
Proof.
  intros Hlist Hdecl Hne. unfold Uploader.checkUploadedParts.
  rewrite Hlist. unfold Uploader.checkPages; fold Uploader.checkPages.
  rewrite Hdecl.
  destruct (decide (declared = Uploader.PartSize (Uploader.input s)));
    [contradiction|reflexivity].
Qed.

(** How a traced call continues. *)
Lemma traced_bind_unfold {E A B} (m : traced E A) (k : A -> traced E B) :
  m ≫= k =
  match m with
  | (Ok a, sent) => (fst (k a), sent ++ snd (k a))
  | (Err msg, sent) => (Err msg, sent)
  | (Panic, sent) => (Panic, sent)
  | (Hang, sent) => (Hang, sent)
  end.
Proof.
  destruct m as [[a|msg| |] sent]; try reflexivity.
  unfold mbind, traced_bind. destruct (k a). reflexivity.
Qed.

Lemma Upload_unfold svc fs fuel jobs s :
  Uploader.Upload svc fs fuel jobs s =
  match Uploader.openFile fs s with
  | Ok s1 =>
      s2 ← Uploader.initiateUpload svc s1;
      s3 ← Uploader.checkUploadedParts svc s2;
      '(s4, _) ← Uploader.multipartUpload svc fuel jobs s3;
      location ← Uploader.completeUpload svc s4;
      match location with
      | None => quiet Panic
      | Some _ => mret tt
      end
  | Err msg => (Err msg, [])
  | Panic => (Panic, [])
  | Hang => (Hang, [])
  end.
Proof.
  unfold Uploader.Upload. rewrite traced_bind_unfold. unfold quiet.
  destruct (Uploader.openFile fs s); try reflexivity.
  cbn [fst snd app]. now destruct (_ ≫= _).
Qed.

(** [Upload] up to the reconciliation, when that fails. *)
Lemma Upload_reconciliation_fails svc fs fuel jobs s s1 s2 sent1 msg sent2 :
  Uploader.openFile fs s = Ok s1 ->
  Uploader.initiateUpload svc s1 = (Ok s2, sent1) ->
  Uploader.checkUploadedParts svc s2 = (Err msg, sent2) ->
  Uploader.Upload svc fs fuel jobs s = (Err msg, sent1 ++ sent2).
Proof.
  intros Hopen Hinit Hcheck.
  rewrite Upload_unfold, Hopen, traced_bind_unfold, Hinit.
  rewrite traced_bind_unfold, Hcheck. reflexivity.
Qed.

Lemma Upload_open_fails svc fs fuel jobs s :
  (forall s1, Uploader.openFile fs s <> Ok s1) ->
  snd (Uploader.Upload svc fs fuel jobs s) = []
  /\ fst (Uploader.Upload svc fs fuel jobs s) <> Ok tt.
Proof.
  intros Hopen. rewrite Upload_unfold.
  destruct (Uploader.openFile fs s) as [s1| | |];
    [exfalso; now apply (Hopen s1)|..]; split; try reflexivity; discriminate.
Qed.

Lemma Upload_initiate_fails svc fs fuel jobs s s1 res sent1 :
  Uploader.openFile fs s = Ok s1 ->
  Uploader.initiateUpload svc s1 = (res, sent1) ->
  (forall s2, res <> Ok s2) ->
  snd (Uploader.Upload svc fs fuel jobs s) = sent1
  /\ fst (Uploader.Upload svc fs fuel jobs s) <> Ok tt.
Proof.
  intros Hopen Hinit Hres.
  rewrite Upload_unfold, Hopen, traced_bind_unfold, Hinit.
  destruct res as [s2| | |]; [exfalso; now apply (Hres s2)|..];
    split; try reflexivity; discriminate.
Qed.

(** ** What the steps of [Upload] leave untouched *)

Lemma checkPart_state s part ok s' :
  Uploader.checkPart s part = Ok (ok, s') ->
  Uploader.file s' = Uploader.file s /\ Uploader.size s' = Uploader.size s
  /\ Uploader.offset s' = Uploader.offset s
  /\ Uploader.input s' = Uploader.input s
  /\ Uploader.uploaded s ⊆ Uploader.uploaded s'.
Proof.
  unfold Uploader.checkPart.
  destruct (Uploader.RangeInBytes part) as [text|]; [|discriminate].
  destruct (Utils.RangeFromString text) as [r|]; [|discriminate].
  destruct (Uploader.size s <=? Utils.Offset r); [discriminate|].
  destruct (Utils.ComputeTreeHash _) as [local|]; [|discriminate].
  destruct (Uploader.SHA256TreeHash part) as [remote|]; [|discriminate].
  destruct (decide (local = remote)); intros [= <- <-]; simpl;
    repeat split; set_solver.
Qed.

Lemma checkParts_state parts : forall s s',
  Uploader.checkParts s parts = Ok s' ->
  Uploader.file s' = Uploader.file s /\ Uploader.size s' = Uploader.size s
  /\ Uploader.offset s' = Uploader.offset s
  /\ Uploader.input s' = Uploader.input s
  /\ Uploader.uploaded s ⊆ Uploader.uploaded s'.
Proof.
  induction parts as [|part parts IH]; simpl; intros s s' H.
  - injection H as <-. repeat split; reflexivity.
  - destruct (Uploader.checkPart s part) as [[ok s1]| | |] eqn:Hpart;
      try discriminate H.
    apply checkPart_state in Hpart as (Hf & Hs & Ho & Hi & Hu).
    apply IH in H as (Hf' & Hs' & Ho' & Hi' & Hu').
    repeat split; try congruence.
    transitivity (Uploader.uploaded s1); assumption.
Qed.

Lemma checkPages_state pages : forall s s' sent,
  Uploader.checkPages s pages = (Ok s', sent) ->
  Uploader.file s' = Uploader.file s /\ Uploader.size s' = Uploader.size s
  /\ Uploader.offset s' = Uploader.offset s
  /\ Uploader.input s' = Uploader.input s
  /\ Uploader.uploaded s ⊆ Uploader.uploaded s'
  /\ Forall (fun request => request = Uploader.ListPartsRequest) sent.
Proof.
  induction pages as [|page pages IH]; intros s s' sent H.
  - injection H as <- <-. repeat split; try reflexivity; constructor.
  - unfold Uploader.checkPages in H; fold Uploader.checkPages in H.
    rewrite traced_bind_unfold in H. unfold send in H. cbn [fst snd] in H.
    destruct (Uploader.PartSizeInBytes page) as [declared|];
      [|discriminate H].
    destruct (decide (declared = Uploader.PartSize (Uploader.input s)));
      [|discriminate H].
    rewrite traced_bind_unfold in H. unfold quiet in H.
    destruct (Uploader.checkParts s (Uploader.Parts page)) as [s1| | |] eqn:Hparts;
      try discriminate H.
    cbn [fst snd app] in H.
    destruct (Uploader.checkPages s1 pages) as [res sent1] eqn:Hrest.
    cbn [fst snd] in H. injection H as -> <-.
    apply checkParts_state in Hparts as (Hf & Hs & Ho & Hi & Hu).
    apply IH in Hrest as (Hf' & Hs' & Ho' & Hi' & Hu' & Hsent).
    repeat split; try congruence;
      [transitivity (Uploader.uploaded s1); assumption|].
    constructor; [reflexivity|exact Hsent].
Qed.

Lemma checkUploadedParts_state svc s s' sent :
  Uploader.checkUploadedParts svc s = (Ok s', sent) ->
  Uploader.file s' = Uploader.file s /\ Uploader.size s' = Uploader.size s
  /\ Uploader.offset s' = Uploader.offset s
  /\ Uploader.input s' = Uploader.input s
  /\ Uploader.uploaded s ⊆ Uploader.uploaded s'
  /\ Forall (fun request => request = Uploader.ListPartsRequest) sent.
Proof.
  unfold Uploader.checkUploadedParts.
  destruct (Uploader.ListParts svc (Uploader.input s)) as [pages pagerErr].
  rewrite traced_bind_unfold.
  destruct (Uploader.checkPages s pages) as [[s1| | |] sent1] eqn:Hpages;
    try discriminate.
  destruct pagerErr as [err|]; [discriminate|].
  cbn. rewrite app_nil_r. intros [= <- <-].
  now apply checkPages_state in Hpages.
Qed.

Lemma Uploader_dispatch_state svc jobs fuel : forall s s' log sent,
  Uploader.dispatch svc fuel jobs s = (Ok (s', log), sent) ->
  Uploader.file s' = Uploader.file s /\ Uploader.size s' = Uploader.size s.
Proof.
  induction fuel as [|fuel IH]; intros s s' log sent H; [discriminate H|].
  rewrite Uploader_dispatch_unfold in H.
  destruct (Uploader.getNextRange (S fuel) s) as [[next s1]| | |] eqn:Hg;
    try discriminate H.
  apply Uploader_getNextRange_fresh in Hg as (_ & Hs & _ & Hf & _).
  unfold mbind, traced_bind, quiet in H. simpl in H.
  destruct next as [p0|].
  - destruct (jobs =? 0); [discriminate H|].
    destruct (Uploader.uploadPart svc s1 p0) as [[err0| | |] sent0];
      try discriminate H.
    destruct (Uploader.dispatch svc fuel jobs s1) as [[[s2 log2]| | |] sent2] eqn:Hd;
      try discriminate H.
    simpl in H. injection H as <- <- <-.
    apply IH in Hd as [Hf' Hs']. split; congruence.
  - injection H as <- <- <-. auto.
Qed.

(** At the end of the file the dispatch loop yields no range. *)
Lemma Uploader_dispatch_nothing svc jobs fuel s :
  Uploader.size s <= Uploader.offset s ->
  Uploader.dispatch svc (S fuel) jobs s = (Ok (s, []), []).
Proof.
  intros Hend. rewrite Uploader_dispatch_unfold. simpl.
  destruct (Uploader.size s <=? Uploader.offset s) eqn:E;
    [reflexivity|apply Z.leb_gt in E; lia].
Qed.

Lemma completeUpload_empty svc s :
  File.contents (Uploader.file s) = [] ->
  Uploader.completeUpload svc s = (Err "could not compute hashes", []).
Proof. intros H. unfold Uploader.completeUpload. now rewrite H. Qed.

(* ===================================================================== *)
(** * Properties of the download coordinator *)
(* ===================================================================== *)

Lemma length_append (a b : string) :
  String.length (a +:+ b) = (String.length a + String.length b)%nat.
Proof. induction a as [|c a IH]; simpl; [reflexivity|now rewrite IH]. Qed.

(** The error of a job in progress is none of the other errors of
    [checkJob]. *)
Lemma not_yet_ready_distinct :
  (forall action,
     "the job is not succeeded yet" <> action +:+ " action is not supported")
  /\ (forall message,
        "the job is not succeeded yet" <> "the job is failed: " +:+ message)
  /\ (forall status,
        "the job is not succeeded yet" <> "job status is unexpected: " +:+ status)
  /\ "the job is not succeeded yet"
     <> "the retrieved range must be tree-hash aligned".
Proof.
  split; [|split; [|split]]; try (intros ?; discriminate); try discriminate.
  intros action H.
  pose proof (f_equal String.length H) as Hlen.
  rewrite length_append in Hlen. simpl in Hlen.
  destruct action as [|c1 [|c2 [|c3 [|c4 [|c5 rest]]]]]; simpl in Hlen;
    try lia.
  discriminate H.
Qed.

Lemma Downloader_dispatch_unfold svc fuel jobs d :
  Downloader.dispatch svc (S fuel) jobs d =
  match Downloader.getNextRange d with
  | (None, d1) => mret d1
  | (Some p, d1) =>
      if jobs =? 0 then quiet Hang
      else
        match Downloader.downloadPart svc d1 p with
        | Ok d2 => _ ← send (p, None); Downloader.dispatch svc fuel jobs d2
        | Err err => _ ← send (p, Some err); Downloader.dispatch svc fuel jobs d1
        | Panic => quiet Panic
        | Hang => quiet Hang
        end
  end.
Proof.
  simpl. destruct (Downloader.getNextRange d) as [[p|] d1]; reflexivity.
Qed.

Lemma writePart_state d body r d' :
  Downloader.writePart d body r = Ok d' ->
  Downloader.treeHash d' = Downloader.treeHash d
  /\ Downloader.size d' = Downloader.size d
  /\ Downloader.input d' = Downloader.input d
  /\ Downloader.offset d' = Downloader.offset d.
Proof.
  unfold Downloader.writePart.
  destruct (Downloader.file d); [|discriminate].
  destruct (Utils.Offset r <? 0); [discriminate|].
  destruct (negb _); [discriminate|].
  intros [= <-]. auto.
Qed.

Lemma downloadPart_state svc d r d' :
  Downloader.downloadPart svc d r = Ok d' ->
  Downloader.treeHash d' = Downloader.treeHash d
  /\ Downloader.size d' = Downloader.size d
  /\ Downloader.input d' = Downloader.input d
  /\ Downloader.offset d' = Downloader.offset d.
Proof.
  unfold Downloader.downloadPart.
  destruct (Downloader.GetJobOutput _ _ _) as [result|err]; [|discriminate].
  destruct (negb _); [discriminate|].
  destruct (Downloader.checkChecksum result) as [[]| | |]; try discriminate.
  apply writePart_state.
Qed.

Lemma downloadPart_returns svc d r :
  Downloader.downloadPart svc d r <> Panic
  /\ Downloader.downloadPart svc d r <> Hang.
Proof.
  unfold Downloader.downloadPart.
  destruct (Downloader.GetJobOutput _ _ _) as [result|err];
    [|split; discriminate].
  destruct (negb _); [split; discriminate|].
  unfold Downloader.checkChecksum.
  assert (Downloader.writePart d (Downloader.Body result) r <> Panic
          /\ Downloader.writePart d (Downloader.Body result) r <> Hang) as Hw.
  { unfold Downloader.writePart.
    destruct (Downloader.file d); [|split; discriminate].
    destruct (Utils.Offset r <? 0); [split; discriminate|].
    destruct (negb _); split; discriminate. }
  destruct (Downloader.Checksum result) as [checksum|]; [|exact Hw].
  destruct (Utils.ComputeTreeHash _); [|split; discriminate].
  destruct (decide _); [exact Hw|split; discriminate].
Qed.

Lemma Downloader_getNextRange_state d next d' :
  Downloader.getNextRange d = (next, d') ->
  Downloader.treeHash d' = Downloader.treeHash d
  /\ Downloader.size d' = Downloader.size d
  /\ Downloader.input d' = Downloader.input d
  /\ Downloader.file d' = Downloader.file d.
Proof.
  unfold Downloader.getNextRange.
  destruct (Downloader.size d <=? Downloader.offset d);
    intros [= <- <-]; auto.
Qed.

(** The ranges produced depend on the cursor, the size and the part size
    only. *)
Lemma Downloader_produce_ext fuel : forall d d',
  Downloader.size d = Downloader.size d' ->
  Downloader.PartSize (Downloader.input d)
  = Downloader.PartSize (Downloader.input d') ->
  Downloader.offset d = Downloader.offset d' ->
  Downloader.produce fuel d = Downloader.produce fuel d'.
Proof.
  induction fuel as [|fuel IH]; intros d d' Hs Hp Ho; [reflexivity|].
  rewrite !Downloader_produce_unfold, !Downloader_getNextRange_step.
  rewrite Hs, Hp, Ho.
  destruct (Parts.step _ _ _) as [[r next]|]; [|reflexivity].
  rewrite (IH (Downloader.with_offset d next) (Downloader.with_offset d' next));
    auto.
Qed.

(** The dispatch loop of [multipartDownload] never returns the error of a
    part: an error goes to the log, the loop goes on, and every range the
    producer yields is logged, failed or not. *)
Lemma Downloader_dispatch_log svc jobs fuel : forall d res log,
  Downloader.dispatch svc fuel jobs d = (res, log) ->
  (forall msg, res <> Err msg)
  /\ forall d', res = Ok d' ->
       Downloader.produce fuel d = Ok (log.*1)
       /\ Downloader.treeHash d' = Downloader.treeHash d
       /\ Downloader.size d' = Downloader.size d.
Proof.
  induction fuel as [|fuel IH]; intros d res log H.
  { injection H as <- <-. split; [discriminate|intros d'; discriminate]. }
  rewrite Downloader_dispatch_unfold in H.
  rewrite Downloader_produce_unfold.
  destruct (Downloader.getNextRange d) as [[p|] d1] eqn:Hnext.
  2:{ injection H as <- <-. split; [discriminate|].
      intros d' [= <-].
      apply Downloader_getNextRange_state in Hnext as (? & ? & _). auto. }
  apply Downloader_getNextRange_state in Hnext as (Ht & Hs & _).
  destruct (jobs =? 0).
  { injection H as <- <-. split; [discriminate|intros d'; discriminate]. }
  destruct (Downloader.downloadPart svc d1 p) as [d2|err| |] eqn:Hpart.
  - rewrite traced_bind_unfold in H. unfold send in H. cbn [fst snd] in H.
    destruct (Downloader.dispatch svc fuel jobs d2) as [res2 log2] eqn:Hrest.
    cbn [fst snd app] in H. injection H as <- <-.
    apply IH in Hrest as [Hnoerr Hok]. split; [exact Hnoerr|].
    intros d' ->. destruct (Hok d' eq_refl) as (Hprod & Ht' & Hs').
    apply downloadPart_state in Hpart as (Ht2 & Hs2 & Hi2 & Ho2).
    rewrite (Downloader_produce_ext fuel d1 d2) by congruence.
    rewrite Hprod. simpl. split; [reflexivity|]. split; congruence.
  - rewrite traced_bind_unfold in H. unfold send in H. cbn [fst snd] in H.
    destruct (Downloader.dispatch svc fuel jobs d1) as [res2 log2] eqn:Hrest.
    cbn [fst snd app] in H. injection H as <- <-.
    apply IH in Hrest as [Hnoerr Hok]. split; [exact Hnoerr|].
    intros d' ->. destruct (Hok d' eq_refl) as (Hprod & Ht' & Hs').
    rewrite Hprod. simpl. split; [reflexivity|]. split; congruence.
  - injection H as <- <-. split; [discriminate|intros d'; discriminate].
  - injection H as <- <-. split; [discriminate|intros d'; discriminate].
Qed.

Lemma multipartDownload_log svc jobs fuel d res log :
  Downloader.multipartDownload svc fuel jobs d = (res, log) ->
  (forall msg, res <> Err msg)
  /\ forall d', res = Ok d' ->
       Downloader.produce fuel d = Ok (log.*1)
       /\ Downloader.treeHash d' = Downloader.treeHash d
       /\ Downloader.size d' = Downloader.size d.
Proof.
  unfold Downloader.multipartDownload. destruct (jobs <? 0).
  - intros [= <- <-]. split; [discriminate|intros d'; discriminate].
  - apply Downloader_dispatch_log.
Qed.

Lemma quiet_bind {E A B} (m : outcome A) (k : A -> traced E B) :
  quiet m ≫= k =
  match m with
  | Ok a => k a
  | Err msg => (Err msg, [])
  | Panic => (Panic, [])
  | Hang => (Hang, [])
  end.
Proof.
  destruct m as [a|msg| |]; try reflexivity.
  unfold mbind, traced_bind, quiet. now destruct (k a).
Qed.

Lemma Download_unfold svc dest fuel jobs d :
  Downloader.Download svc dest fuel jobs d =
  match (d1 ← Downloader.checkJob svc d;
         d2 ← Downloader.openFile dest d1;
         Downloader.truncate d2) with
  | Ok d3 =>
      d4 ← Downloader.multipartDownload svc fuel jobs d3;
      quiet (Downloader.checkTreeHash d4)
  | Err msg => (Err msg, [])
  | Panic => (Panic, [])
  | Hang => (Hang, [])
  end.
Proof.
  unfold Downloader.Download. rewrite quiet_bind.
  destruct (Downloader.checkJob svc d) as [d1| | |]; try reflexivity.
  rewrite quiet_bind.
  change (Ok d1 ≫= _) with
    (d2 ← Downloader.openFile dest d1; Downloader.truncate d2).
  destruct (Downloader.openFile dest d1) as [d2| | |]; try reflexivity.
  rewrite quiet_bind.
  change (Ok d2 ≫= _) with (Downloader.truncate d2).
  destruct (Downloader.truncate d2) as [d3| | |]; reflexivity.
Qed.

(** The branches of [checkJob], for every result that [DescribeJob]
    returns without a transport error and as far as the pointers that
    [checkJob] dereferences are there: if the action is not archive
    retrieval, [checkJob] fails with an error that names the action;
    otherwise it fails with the not-yet-ready error when the status is in
    progress, an error that differs from every other error of
    [checkJob]; with an error that carries the status message when the
    status is failed and a message is there; with an unexpected-status
    error that names any other status than succeeded; with the tree-hash
    alignment error when the status is succeeded and there is no tree
    hash of the archive; and with a tree hash and an archive size it
    records both in the downloader. *)
Lemma checkJob_cases (svc : Downloader.Service) (d : Downloader.Downloader)
    (result : Downloader.DescribeJobOutput) :
  Downloader.DescribeJob svc (Downloader.input d) = inl result ->
  (Downloader.Action result <> "ArchiveRetrieval" ->
     Downloader.checkJob svc d
     = Err (Downloader.Action result +:+ " action is not supported"))
  /\ (Downloader.Action result = "ArchiveRetrieval" ->
      (Downloader.StatusCode result = "InProgress" ->
         Downloader.checkJob svc d = Err "the job is not succeeded yet")
      /\ (Downloader.StatusCode result = "Failed" ->
          forall message,
            Downloader.StatusMessage result = Some message ->
            Downloader.checkJob svc d = Err ("the job is failed: " +:+ message))
      /\ (Downloader.StatusCode result <> "Succeeded" ->
          Downloader.StatusCode result <> "InProgress" ->
          Downloader.StatusCode result <> "Failed" ->
          Downloader.checkJob svc d
          = Err ("job status is unexpected: " +:+ Downloader.StatusCode result))
      /\ (Downloader.StatusCode result = "Succeeded" ->
          Downloader.SHA256TreeHash result = None ->
          Downloader.checkJob svc d
          = Err "the retrieved range must be tree-hash aligned")
      /\ (Downloader.StatusCode result = "Succeeded" ->
          forall hash archiveSize,
            Downloader.SHA256TreeHash result = Some hash ->
            Downloader.ArchiveSizeInBytes result = Some archiveSize ->
            exists d',
              Downloader.checkJob svc d = Ok d'
              /\ Downloader.size d' = archiveSize
              /\ Downloader.treeHash d' = Some hash
              /\ Downloader.input d' = Downloader.input d
              /\ Downloader.file d' = Downloader.file d
              /\ Downloader.offset d' = Downloader.offset d))
  /\ (forall action message status,
        "the job is not succeeded yet" <> action +:+ " action is not supported"
        /\ "the job is not succeeded yet" <> "the job is failed: " +:+ message
        /\ "the job is not succeeded yet"
           <> "job status is unexpected: " +:+ status
        /\ "the job is not succeeded yet"
           <> "the retrieved range must be tree-hash aligned").
Proof.
  intros Hsend. unfold Downloader.checkJob. rewrite Hsend.
  split; [|split].
  - intros Haction. apply String.eqb_neq in Haction. now rewrite Haction.
  - intros Haction. rewrite Haction. cbn [String.eqb negb].
    change (String.eqb "ArchiveRetrieval" "ArchiveRetrieval") with true.
    cbn [negb]. repeat split.
    + intros ->. reflexivity.
    + intros -> message ->. reflexivity.
    + intros H1 H2 H3.
      apply String.eqb_neq in H1, H2, H3. now rewrite H1, H2, H3.
    + intros -> ->. reflexivity.
    + intros -> hash archiveSize -> ->. eexists. split; [reflexivity|].
      repeat split.
  - intros action message status.
    destruct not_yet_ready_distinct as (H1 & H2 & H3 & H4). auto.
Qed.

Lemma checkJob_cases_holds :
  let svc :=
    Downloader.mkService
      (fun _ => inl (Downloader.mkJob "ArchiveRetrieval" "Succeeded" None
                                      (Some 123) (Some "test")))
      (fun _ _ => inr "test") in
  let d := Downloader.New (Downloader.mkInput "test_account" "test_vault"
                                              "test_file" "test_id" 123) in
  exists d',
    Downloader.checkJob svc d = Ok d'
    /\ Downloader.size d' = 123
    /\ Downloader.treeHash d' = Some "test".
Proof.
  cbv zeta.
  set (svc := Downloader.mkService _ _). set (d := Downloader.New _).
  destruct (checkJob_cases svc d
              (Downloader.mkJob "ArchiveRetrieval" "Succeeded" None
                                (Some 123) (Some "test")) eq_refl)
    as (_ & Hretrieval & _).
  destruct (Hretrieval eq_refl) as (_ & _ & _ & _ & Hok).
  destruct (Hok eq_refl "test" 123 eq_refl eq_refl)
    as (d' & Hcheck & Hsize & Hhash & _).
  exists d'. auto.
Defined.

Lemma checkJob_records svc d d1 :
  Downloader.checkJob svc d = Ok d1 ->
  exists result hash,
    Downloader.DescribeJob svc (Downloader.input d) = inl result
    /\ Downloader.SHA256TreeHash result = Some hash
    /\ Downloader.ArchiveSizeInBytes result = Some (Downloader.size d1)
    /\ Downloader.treeHash d1 = Some hash
    /\ Downloader.offset d1 = Downloader.offset d
    /\ Downloader.input d1 = Downloader.input d.
Proof.
  unfold Downloader.checkJob.
  destruct (Downloader.DescribeJob svc (Downloader.input d)) as [result|err]
    eqn:Hsend; [|discriminate].
  destruct (negb (String.eqb (Downloader.Action result) "ArchiveRetrieval"));
    [discriminate|].
  destruct (negb (String.eqb (Downloader.StatusCode result) "Succeeded")).
  { destruct (String.eqb (Downloader.StatusCode result) "InProgress");
      [discriminate|].
    destruct (String.eqb (Downloader.StatusCode result) "Failed");
      [|discriminate].
    destruct (Downloader.StatusMessage result); discriminate. }
  destruct (Downloader.SHA256TreeHash result) as [hash|] eqn:Hhash;
    [|discriminate].
  destruct (Downloader.ArchiveSizeInBytes result) as [archiveSize|] eqn:Hsize;
    [|discriminate].
  intros [= <-]. exists result, hash. repeat split; assumption.
Qed.

Lemma Downloader_openFile_state dest d1 d2 :
  Downloader.openFile dest d1 = Ok d2 ->
  d2 = Downloader.with_file d1 (Some []).
Proof. destruct dest; simpl; try discriminate. now intros [= <-]. Qed.

Lemma Downloader_truncate_state d2 d3 :
  Downloader.truncate d2 = Ok d3 ->
  d3 = Downloader.with_file d2
         (Some (File.truncate (File.contents (Downloader.file d2))
                              (Downloader.size d2))).
Proof.
  unfold Downloader.truncate.
  destruct (Downloader.size d2 <? 0); [discriminate|]. now intros [= <-].
Qed.

Lemma checkTreeHash_cases d expected :
  Downloader.treeHash d = Some expected ->
  (Utils.ComputeTreeHash (File.contents (Downloader.file d)) = None ->
     Downloader.checkTreeHash d = Err "could not compute hash")
  /\ (forall computed,
        Utils.ComputeTreeHash (File.contents (Downloader.file d)) = Some computed ->
        (computed <> expected -> Downloader.checkTreeHash d = Err "hash mismatch")
        /\ (computed = expected -> Downloader.checkTreeHash d = Ok tt)).
Proof.
  intros Hexp. unfold Downloader.checkTreeHash. rewrite Hexp. split.
  - now intros ->.
  - intros computed ->.
    destruct (decide (computed = expected)); split; congruence.
Qed.

(** A part fails and yet the run succeeds: the archive is four zero bytes,
    which the sized output file already holds when the only fetch fails. *)
Example Download_ignores_part_failure :
  let svc :=
    Downloader.mkService
      (fun _ => inl (Downloader.mkJob "ArchiveRetrieval" "Succeeded" None (Some 4)
           (Some "df3f619804a92fdb4057192dc43dd748ea778adc52bc498ce80524c014b81119")))
      (fun _ _ => inr "connection reset") in
  let d := Downloader.New (Downloader.mkInput "-" "vault" "file" "job" 4) in
  Downloader.Download svc Downloader.Free 2 1 d
  = (Ok tt, [(Utils.mkRange 0 4, Some "connection reset")]).
Proof. vm_compute. reflexivity. Qed.

(* ===================================================================== *)
(** * The empty archive *)
(* ===================================================================== *)

Lemma Downloader_dispatch_nothing svc jobs fuel d :
  Downloader.size d <= Downloader.offset d ->
  Downloader.dispatch svc (S fuel) jobs d = (Ok d, []).
Proof.
  intros Hend. rewrite Downloader_dispatch_unfold.
  unfold Downloader.getNextRange.
  destruct (Downloader.size d <=? Downloader.offset d) eqn:E;
    [reflexivity|apply Z.leb_gt in E; lia].
Qed.

(** [Upload] of an empty file cannot succeed: whatever the steps before
    it do, the last one has no tree hash to send. *)
Lemma Upload_empty_never_succeeds svc fuel jobs s :
  fst (Uploader.Upload svc (Uploader.Regular []) fuel jobs s) <> Ok tt.
Proof.
  rewrite Upload_unfold. cbn [Uploader.openFile].
  rewrite traced_bind_unfold.
  destruct (Uploader.initiateUpload svc _) as [[s2| | |] sent1] eqn:Hinit;
    try discriminate.
  apply initiateUpload_state in Hinit as (_ & Hf2 & _). cbn in Hf2.
  rewrite traced_bind_unfold.
  destruct (Uploader.checkUploadedParts svc s2) as [[s3| | |] sent2] eqn:Hcheck;
    try discriminate.
  apply checkUploadedParts_state in Hcheck as (Hf3 & _).
  rewrite traced_bind_unfold.
  destruct (Uploader.multipartUpload svc fuel jobs s3)
    as [[[s4 log]| | |] sent3] eqn:Hrun; try discriminate.
  unfold Uploader.multipartUpload in Hrun.
  destruct (jobs <? 0); [discriminate Hrun|].
  apply Uploader_dispatch_state in Hrun as (Hf4 & _).
  rewrite traced_bind_unfold, completeUpload_empty; [discriminate|].
  now rewrite Hf4, Hf3, Hf2.
Qed.

(** C10 (as amended). An empty source file is never uploaded
    successfully, and whenever the upload session is there and the
    reconciliation succeeds, [jobs] not being negative, the dispatch loop
    yields no range, no part is sent and [Upload] returns the error "could
    not compute hashes". Likewise, a retrieval job whose recorded archive
    size is 0 is never downloaded successfully, and whenever the output
    file is created, [jobs] not being negative, no range is dispatched
    and [Download] fails its final verification with the error "could not
    compute hash". *)
Theorem empty_archive_never_transferred :
  (forall svc fuel jobs s,
     fst (Uploader.Upload svc (Uploader.Regular []) fuel jobs s) <> Ok tt)
  /\ (forall svc fuel jobs s s1 s2 s3 sent1 sent2,
        0 <= Uploader.offset s -> 0 <= jobs ->
        Uploader.openFile (Uploader.Regular []) s = Ok s1 ->
        Uploader.initiateUpload svc s1 = (Ok s2, sent1) ->
        Uploader.checkUploadedParts svc s2 = (Ok s3, sent2) ->
        Uploader.size s3 = 0
        /\ Uploader.multipartUpload svc (S fuel) jobs s3 = (Ok (s3, []), [])
        /\ Uploader.Upload svc (Uploader.Regular []) (S fuel) jobs s
           = (Err "could not compute hashes", sent1 ++ sent2))
  /\ (forall svc dest fuel jobs d d1,
        Downloader.checkJob svc d = Ok d1 ->
        Downloader.size d1 = 0 ->
        0 <= Downloader.offset d ->
        fst (Downloader.Download svc dest fuel jobs d) <> Ok tt)
  /\ (forall svc dest fuel jobs d d1 d2,
        Downloader.checkJob svc d = Ok d1 ->
        Downloader.size d1 = 0 ->
        0 <= Downloader.offset d -> 0 <= jobs ->
        Downloader.openFile dest d1 = Ok d2 ->
        exists d3,
          Downloader.truncate d2 = Ok d3
          /\ Downloader.multipartDownload svc (S fuel) jobs d3 = (Ok d3, [])
          /\ Downloader.checkTreeHash d3 = Err "could not compute hash"
          /\ Downloader.Download svc dest (S fuel) jobs d
             = (Err "could not compute hash", [])).
Proof.
  assert (forall svc dest fuel jobs d d1 d2,
            Downloader.checkJob svc d = Ok d1 ->
            Downloader.size d1 = 0 ->
            0 <= Downloader.offset d ->
            Downloader.openFile dest d1 = Ok d2 ->
            exists d3,
              Downloader.truncate d2 = Ok d3
              /\ Downloader.file d3 = Some []
              /\ Downloader.size d3 <= Downloader.offset d3
              /\ Downloader.checkTreeHash d3 = Err "could not compute hash"
              /\ Downloader.Download svc dest fuel jobs d
                 = (d4 ← Downloader.multipartDownload svc fuel jobs d3;
                    quiet (Downloader.checkTreeHash d4))) as Hprepare.
  { intros svc dest fuel jobs d d1 d2 Hjob Hsize Hoff Hopen.
    destruct (checkJob_records _ _ _ Hjob)
      as (result & hash & _ & _ & _ & _ & Ho1 & _).
    pose proof (Downloader_openFile_state _ _ _ Hopen) as ->.
    eexists. split; [|split; [|split; [|split]]].
    - unfold Downloader.truncate. cbn [Downloader.with_file Downloader.size].
      rewrite Hsize. reflexivity.
    - reflexivity.
    - cbn. lia.
    - reflexivity.
    - rewrite Download_unfold, Hjob. cbn [mbind outcome_bind].
      rewrite Hopen. cbn [mbind outcome_bind].
      unfold Downloader.truncate. cbn [Downloader.with_file Downloader.size].
      rewrite Hsize. reflexivity. }
  split; [exact Upload_empty_never_succeeds|]. split; [|split].
  - intros svc fuel jobs s s1 s2 s3 sent1 sent2 Hoff Hjobs Hopen Hinit Hcheck.
    injection Hopen as <-.
    pose proof (initiateUpload_state _ _ _ _ Hinit) as (_ & Hf2 & Hs2 & Ho2 & _).
    pose proof (checkUploadedParts_state _ _ _ _ Hcheck)
      as (Hf3 & Hs3 & Ho3 & _).
    cbn in Hf2, Hs2, Ho2. change (Bytes.len (@nil byte)) with 0 in Hs2.
    assert (Uploader.size s3 = 0) as Hsize by congruence.
    assert (Uploader.multipartUpload svc (S fuel) jobs s3 = (Ok (s3, []), []))
      as Hrun.
    { unfold Uploader.multipartUpload.
      destruct (jobs <? 0) eqn:E; [apply Z.ltb_lt in E; lia|].
      apply Uploader_dispatch_nothing. lia. }
    split; [exact Hsize|]. split; [exact Hrun|].
    rewrite Upload_unfold. cbn [Uploader.openFile].
    rewrite traced_bind_unfold, Hinit. cbn [fst snd].
    rewrite traced_bind_unfold, Hcheck. cbn [fst snd].
    rewrite traced_bind_unfold, Hrun. cbn [fst snd].
    rewrite traced_bind_unfold, completeUpload_empty
      by (rewrite Hf3, Hf2; reflexivity).
    cbn. now rewrite !app_nil_r.
  - intros svc dest fuel jobs d d1 Hjob Hsize Hoff.
    rewrite Download_unfold, Hjob. cbn [mbind outcome_bind].
    destruct (Downloader.openFile dest d1) as [d2| | |] eqn:Hopen;
      try discriminate.
    destruct (Hprepare svc dest fuel jobs d d1 d2 Hjob Hsize Hoff Hopen)
      as (d3 & Htrunc & Hfile & Hend & Hhash & _).
    cbn [mbind outcome_bind]. rewrite Htrunc.
    rewrite traced_bind_unfold.
    unfold Downloader.multipartDownload.
    destruct (jobs <? 0); [discriminate|].
    destruct fuel as [|fuel]; [discriminate|].
    rewrite Downloader_dispatch_nothing by exact Hend.
    cbn. rewrite Hhash. discriminate.
  - intros svc dest fuel jobs d d1 d2 Hjob Hsize Hoff Hjobs Hopen.
    destruct (Hprepare svc dest (S fuel) jobs d d1 d2 Hjob Hsize Hoff Hopen)
      as (d3 & Htrunc & Hfile & Hend & Hhash & Hdownload).
    assert (Downloader.multipartDownload svc (S fuel) jobs d3 = (Ok d3, []))
      as Hrun.
    { unfold Downloader.multipartDownload.
      destruct (jobs <? 0) eqn:E; [apply Z.ltb_lt in E; lia|].
      now apply Downloader_dispatch_nothing. }
    exists d3. split; [exact Htrunc|]. split; [exact Hrun|].
    split; [exact Hhash|].
    rewrite Hdownload, traced_bind_unfold, Hrun. cbn. now rewrite Hhash.
Qed.

Lemma empty_archive_never_transferred_witness :
  let svc :=
    Uploader.mkService
      (fun _ => inl (Some "id"))
      (fun _ => ([Uploader.mkPage (Some 4) []], None))
      (fun _ _ _ _ => None)
      (fun _ _ _ => inl (Some "location")) in
  let s := Uploader.New (Uploader.mkInput "-" "vault" "file" "id" 4) in
  Uploader.Upload svc (Uploader.Regular []) 1 2 s
  = (Err "could not compute hashes", [] ++ [Uploader.ListPartsRequest]).
Proof.
  cbv zeta.
  set (svc := Uploader.mkService _ _ _ _). set (s := Uploader.New _).
  destruct empty_archive_never_transferred as (_ & Hupload & _).
  eapply (Hupload svc 0%nat 2 s).
  - simpl. lia.
  - lia.
  - reflexivity.
  - reflexivity.
  - reflexivity.
Defined.

(** C10 as stated fails when a step before the last one fails: with an
    empty source file and a listing that declares another part size,
    [Upload] returns the error of the reconciliation; with a job of size
    0 and a destination that exists, [Download] returns the error of the
    creation of the file. *)
Lemma empty_archive_other_error :
  let usvc :=
    Uploader.mkService
      (fun _ => inl (Some "id"))
      (fun _ => ([Uploader.mkPage (Some 8) []], None))
      (fun _ _ _ _ => None)
      (fun _ _ _ => inl (Some "location")) in
  let s := Uploader.New (Uploader.mkInput "-" "vault" "file" "id" 4) in
  let dsvc :=
    Downloader.mkService
      (fun _ => inl (Downloader.mkJob "ArchiveRetrieval" "Succeeded" None
                                      (Some 0) (Some "hash")))
      (fun _ _ => inr "unused") in
  let d := Downloader.New (Downloader.mkInput "-" "vault" "file" "job" 4) in
  Uploader.Upload usvc (Uploader.Regular []) 1 1 s
  = (Err "part size mismatch", [Uploader.ListPartsRequest])
  /\ fst (Uploader.Upload usvc (Uploader.Regular []) 1 1 s)
     <> Err "could not compute hashes"
  /\ (exists d1, Downloader.checkJob dsvc d = Ok d1 /\ Downloader.size d1 = 0)
  /\ Downloader.Download dsvc Downloader.Taken 1 1 d
     = (Err "open file: file exists", [])
  /\ fst (Downloader.Download dsvc Downloader.Taken 1 1 d)
     <> Err "could not compute hash".
Proof.
  cbv zeta. split; [reflexivity|]. split; [discriminate|].
  split; [eexists; split; reflexivity|]. split; [reflexivity|discriminate].
Qed.

(* ===================================================================== *)
(** * Further properties of the range model *)
(* ===================================================================== *)

(** Printing and parsing back a range whose offset is not negative, whose
    limit is a positive [int64] and whose last byte has an [int64]
    index. *)
Lemma String_RangeFromString r :
  0 <= Utils.Offset r -> 1 <= Utils.Limit r <= Int64.max_int ->
  Utils.Offset r + Utils.Limit r - 1 <= Int64.max_int ->
  Utils.RangeFromString (Utils.String r) = Some r.
Proof.
  destruct r as [offset limit]. simpl. intros Ho Hl Hend.
  apply RangeFromString_Some.
  exists offset, (offset + limit - 1).
  split; [|split; [lia|split; [lia|f_equal; lia]]].
  unfold Utils.String. simpl.
  replace (Int64.sub (Int64.add offset limit) 1) with (offset + limit - 1).
  - apply denotes_format; lia.
  - unfold Int64.sub, Int64.add.
    destruct (Z.eq_dec (offset + limit - 1) Int64.max_int) as [Heq|Hne].
    + replace (offset + limit) with (Int64.max_int + 1) by lia.
      reflexivity.
    + rewrite (wrap_in_range (offset + limit)), wrap_in_range;
        unfold Int64.in_range, Int64.min_int, Int64.max_int in *; lia.
Qed.

Lemma RangeFromString_bounds s r :
  Utils.RangeFromString s = Some r ->
  0 <= Utils.Offset r /\ 1 <= Utils.Limit r <= Int64.max_int
  /\ Utils.Offset r + Utils.Limit r - 1 <= Int64.max_int.
Proof.
  intros H. apply RangeFromString_Some in H.
  destruct H as (a & b & (_ & first & second & _ & Ha & Hb) & Hab & Hfit & ->).
  apply reads_bounds in Ha, Hb. simpl. lia.
Qed.

(** X1. Every range that [RangeFromString] returns has a non-negative
    offset, a limit of at least one, and a last byte index
    [Offset + Limit - 1] that is an [int64]: the computations of
    [Range.String] on it do not overflow. *)
Theorem RangeFromString_well_formed (s : string) (r : Utils.Range) :
  Utils.RangeFromString s = Some r ->
  0 <= Utils.Offset r /\ 1 <= Utils.Limit r
  /\ Utils.Limit r <= Int64.max_int
  /\ Utils.Offset r + Utils.Limit r - 1 <= Int64.max_int.
Proof.
  intros H. pose proof (RangeFromString_bounds s r H) as (Ho & Hl & Hend).
  repeat split; try assumption; lia.
Qed.

Lemma RangeFromString_well_formed_witness :
  0 <= 7 /\ 1 <= 3 /\ 3 <= Int64.max_int /\ 7 + 3 - 1 <= Int64.max_int.
Proof.
  exact (RangeFromString_well_formed "+07-009" (Utils.mkRange 7 3) eq_refl).
Defined.

(** X2. The text that [Range.String] prints for a range returned by
    [RangeFromString] parses to the same range: whatever the notation of
    the input (plus signs, leading zeros), printing normalises it. *)
Theorem RangeFromString_String_canonical (s : string) (r : Utils.Range) :
  Utils.RangeFromString s = Some r ->
  Utils.RangeFromString (Utils.String r) = Some r.
Proof.
  intros H. pose proof (RangeFromString_bounds s r H) as (Ho & Hl & Hend).
  now apply String_RangeFromString.
Qed.

Lemma RangeFromString_String_canonical_witness :
  Utils.RangeFromString (Utils.String (Utils.mkRange 7 3))
  = Some (Utils.mkRange 7 3).
Proof.
  exact (RangeFromString_String_canonical "+07-009" (Utils.mkRange 7 3) eq_refl).
Defined.

(** X3. [Range.String] is injective on the ranges of non-negative offset
    and positive [int64] limit whose last byte has an [int64] index: two
    such ranges with the same text are the same range. *)
Theorem String_injective (r1 r2 : Utils.Range) :
  0 <= Utils.Offset r1 -> 1 <= Utils.Limit r1 <= Int64.max_int ->
  Utils.Offset r1 + Utils.Limit r1 - 1 <= Int64.max_int ->
  0 <= Utils.Offset r2 -> 1 <= Utils.Limit r2 <= Int64.max_int ->
  Utils.Offset r2 + Utils.Limit r2 - 1 <= Int64.max_int ->
  Utils.String r1 = Utils.String r2 -> r1 = r2.
Proof.
  intros Ho1 Hl1 He1 Ho2 Hl2 He2 Htext.
  pose proof (String_RangeFromString r1 Ho1 Hl1 He1) as H1.
  pose proof (String_RangeFromString r2 Ho2 Hl2 He2) as H2.
  rewrite Htext in H1. congruence.
Qed.

Lemma String_injective_witness :
  Utils.mkRange 4 4 = Utils.mkRange 4 (2 + 2).
Proof.
  apply String_injective; simpl; unfold Int64.max_int; try lia.
  reflexivity.
Defined.

(* ===================================================================== *)
(** * Further properties of the tree hash *)
(* ===================================================================== *)

Lemma EncodeToString_length src :
  String.length (Hex.EncodeToString src) = (2 * length src)%nat.
Proof. induction src as [|v src IH]; simpl; [reflexivity|rewrite IH; lia]. Qed.

Lemma EncodeToString_digits src :
  Forall (fun c => c ∈ list_ascii_of_string "0123456789abcdef")
         (list_ascii_of_string (Hex.EncodeToString src)).
Proof.
  induction src as [|v src IH]; [constructor|].
  change (Hex.EncodeToString (v :: src))
    with (Hex.EncodeToString [v] +:+ Hex.EncodeToString src).
  change (Hex.EncodeToString [v])
    with (String (Hex.hextable (Z.shiftr (Sha256.byteZ v) 4))
            (String (Hex.hextable (Z.land (Sha256.byteZ v) 0x0f)) EmptyString)).
  cbn [String.append list_ascii_of_string].
  constructor; [|constructor; [|exact IH]];
    destruct v; vm_compute; repeat (first [left; reflexivity | right]);
    apply list_elem_of_In; vm_compute; tauto.
Qed.

Lemma TreeHash_digest r root :
  Glacier.TreeHash r = Some root -> r <> [] /\ length root = 32%nat.
Proof.
  unfold Glacier.TreeHash, Glacier.ComputeTreeHash. intros H.
  destruct r as [|x r]; [discriminate H|]. split; [discriminate|].
  destruct (reduce_root (length (Glacier.leaves (length (x :: r)) (x :: r)))
              (Glacier.leaves (length (x :: r)) (x :: r)))
    as (root' & Hred & Hlen).
  - now apply leaves_nonempty.
  - lia.
  - apply leaves_digests.
  - rewrite Hred in H. injection H as <-. exact Hlen.
Qed.

(** X4. Whenever [ComputeTreeHash] returns a value, it is a text of 64
    characters, each of them one of [0123456789abcdef]: the lower-case hex
    notation of a digest of 32 bytes. *)
Theorem ComputeTreeHash_hex (r : list byte) (treeHash : string) :
  Utils.ComputeTreeHash r = Some treeHash ->
  String.length treeHash = 64%nat
  /\ Forall (fun c => c ∈ list_ascii_of_string "0123456789abcdef")
            (list_ascii_of_string treeHash).
Proof.
  unfold Utils.ComputeTreeHash.
  destruct (Glacier.TreeHash r) as [root|] eqn:Hroot; [|discriminate].
  intros [= <-]. apply TreeHash_digest in Hroot as [_ Hlen].
  split; [rewrite EncodeToString_length, Hlen; reflexivity|].
  apply EncodeToString_digits.
Qed.

Lemma ComputeTreeHash_hex_witness :
  String.length
    "9f86d081884c7d659a2feaa0c55ad015a3bf4f1b2b0b822cd15d6c15b0f00a08"
  = 64%nat.
Proof.
  refine (proj1 (ComputeTreeHash_hex [x74; x65; x73; x74] _ _)).
  vm_compute. reflexivity.
Defined.

(* ===================================================================== *)
(** * Further properties of the upload coordinator *)
(* ===================================================================== *)

(** More fuel does not change a result. *)
Lemma Uploader_getNextRange_fuel fuel : forall s x fuel',
  Uploader.getNextRange fuel s = Ok x -> (fuel <= fuel')%nat ->
  Uploader.getNextRange fuel' s = Ok x.
Proof.
  induction fuel as [|fuel IH]; intros s x fuel' H Hle; [discriminate H|].
  destruct fuel' as [|fuel']; [lia|]. simpl in *.
  destruct (Uploader.size s <=? Uploader.offset s); [exact H|].
  destruct (decide (Uploader.offset s ∈ Uploader.uploaded s)); [|exact H].
  apply IH; [exact H|lia].
Qed.

Lemma Uploader_produce_fuel fuel : forall s rs fuel',
  Uploader.produce fuel s = Ok rs -> (fuel <= fuel')%nat ->
  Uploader.produce fuel' s = Ok rs.
Proof.
  induction fuel as [|fuel IH]; intros s rs fuel' H Hle; [discriminate H|].
  destruct fuel' as [|fuel']; [lia|].
  unfold Uploader.produce in *; fold Uploader.produce in *.
  destruct (Uploader.getNextRange (S fuel) s) as [[next s1]| | |] eqn:Hnext;
    try discriminate H.
  rewrite (Uploader_getNextRange_fuel _ _ _ (S fuel') Hnext) by lia.
  cbn [mbind outcome_bind] in H |- *. destruct next as [p|]; [|exact H].
  destruct (Uploader.produce fuel s1) as [rest| | |] eqn:Hrest;
    try discriminate H.
  rewrite (IH _ _ fuel' Hrest) by lia. exact H.
Qed.

(** From the cursor at index [k], with [m] parts to go, the producer
    yields the parts of the indices [k .. k + m - 1] whose offset is not
    marked as uploaded. *)
Lemma Uploader_produce_unmarked size partSize (m : nat) : forall (k : nat) s fuel,
  0 < size -> 1 <= partSize ->
  Parts.count size partSize * partSize <= Int64.max_int ->
  Uploader.size s = size ->
  Uploader.PartSize (Uploader.input s) = partSize ->
  Uploader.offset s = Z.of_nat k * partSize ->
  Z.of_nat (k + m) = Parts.count size partSize ->
  (m < fuel)%nat ->
  Uploader.produce fuel s
  = Ok (filter (fun r => Utils.Offset r ∉ Uploader.uploaded s)
               (Parts.part size partSize <$> seq k m)).
Proof.
  induction m as [|m IH];
    intros k s fuel Hs Hp Hmax Hsize Hpart Hoff Hkm Hfuel;
    (destruct fuel as [|fuel]; [lia|]);
    unfold Uploader.produce; fold Uploader.produce.
  - simpl Uploader.getNextRange. rewrite Hsize, Hoff.
    destruct (count_bounds size partSize Hs Hp) as (_ & _ & Hhi).
    destruct (size <=? Z.of_nat k * partSize) eqn:E;
      [reflexivity|apply Z.leb_gt in E; nia].
  - pose proof (step_inside size partSize k Hs Hp Hmax ltac:(lia)) as Hstep.
    cbn [seq fmap list_fmap].
    destruct (decide (Uploader.offset s ∈ Uploader.uploaded s)) as [Hin|Hout].
    + rewrite filter_cons_False
        by (simpl; rewrite <- Hoff; intros Hno; now apply Hno).
      assert (Uploader.getNextRange (S fuel) s
              = Uploader.getNextRange fuel
                  (Uploader.with_offset s (Z.of_nat (S k) * partSize))) as Hskip.
      { simpl. unfold Parts.step in Hstep. rewrite Hsize, Hpart, Hoff in *.
        destruct (size <=? Z.of_nat k * partSize); [discriminate Hstep|].
        injection Hstep as _ Hnext.
        destruct (decide (Z.of_nat k * partSize ∈ Uploader.uploaded s));
          [|contradiction].
        now rewrite Hnext. }
      rewrite Hskip.
      specialize (IH (S k) (Uploader.with_offset s (Z.of_nat (S k) * partSize))
                     fuel Hs Hp Hmax Hsize Hpart eq_refl ltac:(lia) ltac:(lia)).
      cbn [Uploader.uploaded Uploader.with_offset] in IH.
      destruct fuel as [|fuel]; [lia|].
      unfold Uploader.produce in IH; fold Uploader.produce in IH.
      destruct (Uploader.getNextRange (S fuel)
                  (Uploader.with_offset s (Z.of_nat (S k) * partSize)))
        as [[next s1]| | |]; try discriminate IH.
      cbn [mbind outcome_bind] in IH |- *.
      destruct next as [p|]; [|exact IH].
      destruct (Uploader.produce fuel s1) as [rest| | |] eqn:Hrest;
        try discriminate IH.
      rewrite (Uploader_produce_fuel _ _ _ (S fuel) Hrest) by lia. exact IH.
    + rewrite filter_cons_True by (simpl; now rewrite <- Hoff).
      rewrite Uploader_getNextRange_step by exact Hout.
      rewrite Hsize, Hpart, Hoff, Hstep. simpl.
      rewrite (IH (S k) _ fuel); try assumption; try reflexivity; try lia.
Qed.

(** X5. On a resumed upload, with the cursor at the start of a file of
    size [S > 0], a part size [P >= 1] and no overflow of the cursor
    ([ceil(S/P) * P <= 2^63 - 1]), calling [getNextRange] again and again
    ends and yields, in increasing order, exactly the parts of the file
    whose offset is not marked as uploaded. *)
Theorem getNextRange_skips_uploaded (S P : Z) (u : Uploader.Uploader)
    (fuel : nat) :
  0 < S -> 1 <= P -> Parts.count S P * P <= Int64.max_int ->
  Uploader.size u = S -> Uploader.PartSize (Uploader.input u) = P ->
  Uploader.offset u = 0 ->
  (Z.to_nat (Parts.count S P) < fuel)%nat ->
  Uploader.produce fuel u
  = Ok (filter (fun r => Utils.Offset r ∉ Uploader.uploaded u)
               (Parts.part S P <$> seq 0 (Z.to_nat (Parts.count S P)))).
Proof.
  intros HS HP Hmax Hsize Hpart Hoff Hfuel.
  destruct (count_bounds S P HS HP) as (Hn & _ & _).
  apply (Uploader_produce_unmarked S P _ 0%nat); try assumption; lia.
Qed.

Lemma getNextRange_skips_uploaded_witness :
  Uploader.produce 4
    (Uploader.mkUploader (Uploader.mkInput "-" "vault" "file" "id" 4)
                         {[4]} None 11 0)
  = Ok [Utils.mkRange 0 4; Utils.mkRange 8 3].
Proof.
  rewrite (getNextRange_skips_uploaded 11 4); try reflexivity; try lia.
  - vm_compute. discriminate.
  - vm_compute. lia.
Defined.

(** ** Slices of a file *)

Lemma takeZ_take {A} (l : list A) : forall n,
  Bytes.takeZ n l = take (Z.to_nat n) l.
Proof.
  induction l as [|x l IH]; intros n; simpl; [now rewrite take_nil|].
  destruct (n <=? 0) eqn:E.
  - apply Z.leb_le in E. now replace (Z.to_nat n) with 0%nat by lia.
  - apply Z.leb_gt in E. replace (Z.to_nat n) with (S (Z.to_nat (n - 1))) by lia.
    simpl. now rewrite IH.
Qed.

Lemma dropZ_drop {A} (l : list A) : forall n,
  Bytes.dropZ n l = drop (Z.to_nat n) l.
Proof.
  induction l as [|x l IH]; intros n; simpl; [now rewrite drop_nil|].
  destruct (n <=? 0) eqn:E.
  - apply Z.leb_le in E. now replace (Z.to_nat n) with 0%nat by lia.
  - apply Z.leb_gt in E. replace (Z.to_nat n) with (S (Z.to_nat (n - 1))) by lia.
    simpl. now rewrite IH.
Qed.

Lemma section_slice data off n :
  0 <= off ->
  File.section (Some data) off n
  = take (Z.to_nat n) (drop (Z.to_nat off) data).
Proof.
  intros Hoff. unfold File.section.
  destruct (off <? 0) eqn:E; [apply Z.ltb_lt in E; lia|].
  simpl. now rewrite takeZ_take, dropZ_drop.
Qed.

(** The bytes of a part of a file, and what follows it. *)
Lemma section_part data partSize (k : nat) :
  1 <= partSize -> Z.of_nat k * partSize < Bytes.len data ->
  let r := Parts.part (Bytes.len data) partSize k in
  File.section (Some data) (Utils.Offset r) (Utils.Limit r) <> []
  /\ Bytes.len (File.section (Some data) (Utils.Offset r) (Utils.Limit r))
     = Utils.Limit r
  /\ File.section (Some data) (Utils.Offset r) (Utils.Limit r)
     ++ drop (Z.to_nat (Z.of_nat (S k) * partSize)) data
     = drop (Z.to_nat (Z.of_nat k * partSize)) data.
Proof.
  intros Hp Hin. cbv zeta. unfold Parts.part. cbn [Utils.Offset Utils.Limit].
  unfold Bytes.len in *.
  rewrite section_slice by lia.
  set (start := Z.to_nat (Z.of_nat k * partSize)).
  set (limit := Z.to_nat (Z.min partSize (Z.of_nat (length data) - Z.of_nat k * partSize))).
  assert (start < length data)%nat as Hstart by (unfold start; lia).
  assert (0 < limit)%nat as Hlimit by (unfold limit; lia).
  assert (length (take limit (drop start data)) = limit) as Hlen.
  { rewrite length_take, length_drop. unfold limit, start. lia. }
  split; [|split].
  - intros Hnil. rewrite Hnil in Hlen. simpl in Hlen. lia.
  - rewrite Hlen. unfold limit. lia.
  - replace (Z.to_nat (Z.of_nat (S k) * partSize))
      with (start + Z.to_nat partSize)%nat by (unfold start; lia).
    rewrite <- drop_drop.
    destruct (Z_le_dec partSize (Z.of_nat (length data) - Z.of_nat k * partSize))
      as [Hfull|Hlast].
    + replace limit with (Z.to_nat partSize) by (unfold limit; lia).
      apply take_drop.
    + rewrite (drop_ge (drop start data))
        by (rewrite length_drop; unfold start; lia).
      rewrite app_nil_r. apply take_ge.
      rewrite length_drop. unfold limit, start. lia.
Qed.

Lemma concat_sections data partSize (m : nat) : forall (k : nat),
  1 <= partSize ->
  Z.of_nat (k + m) = Parts.count (Bytes.len data) partSize ->
  0 < Bytes.len data ->
  concat ((fun r => File.section (Some data) (Utils.Offset r) (Utils.Limit r))
            <$> (Parts.part (Bytes.len data) partSize <$> seq k m))
  = drop (Z.to_nat (Z.of_nat k * partSize)) data.
Proof.
  induction m as [|m IH]; intros k Hp Hkm Hdata;
    destruct (count_bounds _ _ Hdata Hp) as (Hn & Hlo & Hhi).
  - simpl. symmetry. apply drop_ge. unfold Bytes.len in *. nia.
  - cbn [seq fmap list_fmap concat].
    rewrite IH by (assumption || lia).
    apply section_part; [assumption|nia].
Qed.

(** A reader that yields a byte has a tree hash. *)
Lemma ComputeTreeHash_Some r :
  r <> [] -> exists treeHash, Utils.ComputeTreeHash r = Some treeHash.
Proof.
  intros Hne. unfold Utils.ComputeTreeHash, Glacier.TreeHash, Glacier.ComputeTreeHash.
  destruct (reduce_root (length (Glacier.leaves (length r) r))
              (Glacier.leaves (length r) r)) as (root & Hred & _).
  - destruct r as [|x r]; [congruence|]. now apply leaves_nonempty.
  - lia.
  - apply leaves_digests.
  - rewrite Hred. simpl. eauto.
Qed.

(** X6. On a non-empty file of [S] bytes read in parts of [P >= 1]
    bytes, with the cursor at the start, no overflow of the cursor
    ([ceil(S/P) * P <= 2^63 - 1]) and nothing marked as uploaded, the
    bodies of the ranges that [getNextRange] yields, read with the
    section reader that [uploadPart] uses and taken in the order in
    which [getNextRange] yields them, have the length of their range
    and concatenate to the content of the file: every byte is in the
    body of one part, and in place. *)
Theorem produced_bodies_cover_file (data : list byte) (P : Z)
    (u : Uploader.Uploader) (fuel : nat) :
  data <> [] -> 1 <= P ->
  Parts.count (Bytes.len data) P * P <= Int64.max_int ->
  Uploader.file u = Some data -> Uploader.size u = Bytes.len data ->
  Uploader.PartSize (Uploader.input u) = P ->
  Uploader.offset u = 0 -> Uploader.uploaded u = ∅ ->
  (Z.to_nat (Parts.count (Bytes.len data) P) < fuel)%nat ->
  exists rs,
    Uploader.produce fuel u = Ok rs
    /\ concat ((fun r => File.section (Uploader.file u)
                           (Utils.Offset r) (Utils.Limit r)) <$> rs)
       = data
    /\ Forall (fun r =>
                 1 <= Utils.Limit r
                 /\ Bytes.len (File.section (Uploader.file u)
                                 (Utils.Offset r) (Utils.Limit r))
                    = Utils.Limit r) rs.
Proof.
  intros Hne Hp Hmax Hfile Hsize Hpart Hoff Hnone Hfuel.
  assert (0 < Bytes.len data) as Hlen
    by (destruct data; [congruence|unfold Bytes.len; simpl; lia]).
  destruct (count_bounds _ _ Hlen Hp) as (Hn & Hlo & Hhi).
  exists (Parts.part (Bytes.len data) P
            <$> seq 0 (Z.to_nat (Parts.count (Bytes.len data) P))).
  split; [|split].
  - apply (Uploader_produce_from (Bytes.len data) P _ 0%nat);
      try assumption; lia.
  - rewrite Hfile, concat_sections by (assumption || lia). reflexivity.
  - rewrite Hfile. apply Forall_forall. intros r Hr.
    apply list_elem_of_fmap in Hr as (i & -> & Hi).
    apply elem_of_seq in Hi.
    assert (Z.of_nat i * P < Bytes.len data) as Hin by nia.
    destruct (section_part data P i Hp Hin) as (_ & Hbody & _).
    split; [simpl; lia|exact Hbody].
Qed.

Lemma produced_bodies_cover_file_witness :
  exists rs,
    Uploader.produce 5
      (Uploader.mkUploader (Uploader.mkInput "-" "vault" "file" "id" 3)
                           ∅ (Some [x74; x65; x73; x74]) 4 0)
    = Ok rs
    /\ concat ((fun r => File.section (Some [x74; x65; x73; x74])
                           (Utils.Offset r) (Utils.Limit r)) <$> rs)
       = [x74; x65; x73; x74].
Proof.
  destruct (produced_bodies_cover_file [x74; x65; x73; x74] 3
              (Uploader.mkUploader (Uploader.mkInput "-" "vault" "file" "id" 3)
                                   ∅ (Some [x74; x65; x73; x74]) 4 0) 5)
    as (rs & Hrs & Hcat & _); try reflexivity; try lia.
  - discriminate.
  - vm_compute. discriminate.
  - vm_compute. lia.
  - exists rs. split; [exact Hrs|exact Hcat].
Defined.

Lemma filter_all {A} (P : A -> Prop) `{forall x, Decision (P x)} (l : list A) :
  (forall x, P x) -> filter P l = l.
Proof.
  intros Hall. induction l as [|x l IH]; [reflexivity|].
  rewrite filter_cons_True by apply Hall. now rewrite IH.
Qed.

Lemma uploadPart_ext svc s1 s r :
  Uploader.file s1 = Uploader.file s ->
  Uploader.input s1 = Uploader.input s ->
  Uploader.uploadPart svc s1 r = Uploader.uploadPart svc s r.
Proof. intros Hf Hi. unfold Uploader.uploadPart. now rewrite Hf, Hi. Qed.

(** With a worker, and as long as each range has a body to hash, the
    dispatch loop sends one request per range that the producer yields,
    in the order they are yielded, and logs what [uploadPart] returned. *)
Lemma Uploader_dispatch_trace svc jobs fuel : forall s rs,
  Uploader.produce fuel s = Ok rs -> 0 < jobs ->
  (forall r, r ∈ rs ->
     File.section (Uploader.file s) (Utils.Offset r) (Utils.Limit r) <> []) ->
  exists s' log,
    Uploader.dispatch svc fuel jobs s
    = (Ok (s', log),
       (fun r => Uploader.UploadMultipartPartRequest
                   ("bytes " +:+ Utils.String r +:+ "/*")) <$> rs)
    /\ log.*1 = rs
    /\ Forall (fun entry =>
                 fst (Uploader.uploadPart svc s entry.1) = Ok entry.2) log.
Proof.
  induction fuel as [|fuel IH]; intros s rs Hrs Hjobs Hbody;
    [discriminate Hrs|].
  rewrite Uploader_dispatch_unfold.
  unfold Uploader.produce in Hrs; fold Uploader.produce in Hrs.
  destruct (Uploader.getNextRange (S fuel) s) as [[next s1]| | |] eqn:Hnext;
    try discriminate Hrs.
  apply Uploader_getNextRange_fresh in Hnext as (_ & _ & Hi & Hf & _).
  rewrite quiet_bind. cbn [mbind outcome_bind] in Hrs.
  destruct next as [p|].
  2:{ injection Hrs as <-. exists s1, []. repeat split. constructor. }
  destruct (Uploader.produce fuel s1) as [rest| | |] eqn:Hrest;
    try discriminate Hrs.
  cbn [mbind outcome_bind] in Hrs. injection Hrs as <-.
  destruct (jobs =? 0) eqn:E; [apply Z.eqb_eq in E; lia|].
  destruct (IH s1 rest Hrest Hjobs) as (s' & log & Hrun & Hlog & Hreplies).
  { intros r Hr. rewrite Hf. apply Hbody. now right. }
  rewrite (uploadPart_ext svc s1 s p Hf Hi).
  assert (File.section (Uploader.file s) (Utils.Offset p) (Utils.Limit p) <> [])
    as Hp by (apply Hbody; now left).
  destruct (ComputeTreeHash_Some _ Hp) as (treeHash & Hhash).
  assert (Uploader.uploadPart svc s p
          = (Ok (Uploader.UploadMultipartPart svc (Uploader.input s)
                   ("bytes " +:+ Utils.String p +:+ "/*") treeHash
                   (File.section (Uploader.file s) (Utils.Offset p) (Utils.Limit p))),
             [Uploader.UploadMultipartPartRequest
                ("bytes " +:+ Utils.String p +:+ "/*")])) as Hupload.
  { unfold Uploader.uploadPart. rewrite Hhash. reflexivity. }
  rewrite traced_bind_unfold, Hupload. cbn [fst snd].
  rewrite traced_bind_unfold, Hrun. cbn [fst snd].
  eexists _, _. split; [cbn; rewrite app_nil_r; reflexivity|].
  split; [cbn; now rewrite Hlog|].
  constructor; [cbn [fst snd]; now rewrite Hupload|].
  eapply Forall_impl; [exact Hreplies|].
  intros entry Hentry. cbn beta in Hentry |- *.
  now rewrite <- (uploadPart_ext svc s1 s entry.1 Hf Hi).
Qed.

(** X7. On a file of [S > 0] bytes read in parts of [P >= 1] bytes, the
    cursor at the start and not overflowing
    ([ceil(S/P) * P <= 2^63 - 1]), [multipartUpload] with at least one
    worker returns after the workers have sent, in some order, exactly
    one part upload request for each part whose offset is not marked as
    uploaded, with the range text ["bytes first-last/*"], whatever the
    service answers: a failed part is logged and neither repeated nor a
    reason to stop. With nothing marked there are [ceil(S/P)]
    requests. *)
Theorem multipartUpload_requests (svc : Uploader.Service) (fuel : nat)
    (jobs : Z) (data : list byte) (P : Z) (u : Uploader.Uploader) :
  data <> [] -> 1 <= P ->
  Parts.count (Bytes.len data) P * P <= Int64.max_int ->
  Uploader.file u = Some data -> Uploader.size u = Bytes.len data ->
  Uploader.PartSize (Uploader.input u) = P ->
  Uploader.offset u = 0 -> 1 <= jobs ->
  (Z.to_nat (Parts.count (Bytes.len data) P) < fuel)%nat ->
  let todo :=
    filter (fun r => Utils.Offset r ∉ Uploader.uploaded u)
           (Parts.part (Bytes.len data) P
              <$> seq 0 (Z.to_nat (Parts.count (Bytes.len data) P))) in
  exists u' log sent,
    Uploader.multipartUpload svc fuel jobs u = (Ok (u', log), sent)
    /\ sent ≡ₚ (fun r => Uploader.UploadMultipartPartRequest
                           ("bytes " +:+ Utils.String r +:+ "/*")) <$> todo
    /\ log.*1 ≡ₚ todo
    /\ Forall (fun entry =>
                 fst (Uploader.uploadPart svc u entry.1) = Ok entry.2) log
    /\ (Uploader.uploaded u = ∅ ->
        Z.of_nat (length sent) = Parts.count (Bytes.len data) P).
Proof.
  intros Hne Hp Hmax Hfile Hsize Hpart Hoff Hjobs Hfuel todo.
  assert (0 < Bytes.len data) as Hlen
    by (destruct data; [congruence|unfold Bytes.len; simpl; lia]).
  destruct (count_bounds _ _ Hlen Hp) as (Hn & Hlo & Hhi).
  assert (Uploader.produce fuel u = Ok todo) as Hprod.
  { apply (Uploader_produce_unmarked (Bytes.len data) P _ 0%nat);
      try assumption; lia. }
  destruct (Uploader_dispatch_trace svc jobs fuel u todo Hprod ltac:(lia))
    as (u' & log & Hrun & Hlog & Hreplies).
  { intros r Hr. apply list_elem_of_filter in Hr as [_ Hr].
    apply list_elem_of_fmap in Hr as (i & -> & Hi). apply elem_of_seq in Hi.
    rewrite Hfile. apply section_part; [assumption|nia]. }
  eexists u', log, _. unfold Uploader.multipartUpload.
  destruct (jobs <? 0) eqn:E; [apply Z.ltb_lt in E; lia|].
  split; [exact Hrun|]. split; [reflexivity|].
  split; [now rewrite Hlog|]. split; [exact Hreplies|].
  intros Hnone. rewrite length_fmap.
  unfold todo.
  rewrite filter_all by (intros r; rewrite Hnone; set_solver).
  rewrite length_fmap, length_seq. lia.
Qed.

(** The eleven bytes of the upload tests, cut every four bytes, with a
    service that refuses every part: three requests all the same. *)
Lemma multipartUpload_requests_witness :
  let svc :=
    Uploader.mkService
      (fun _ => inl (Some "id"))
      (fun _ => ([], None))
      (fun _ _ _ _ => Some "test")
      (fun _ _ _ => inl (Some "location")) in
  let data := list_byte_of_string "test_upload" in
  let u := Uploader.mkUploader (Uploader.mkInput "-" "vault" "file" "id" 4)
                               ∅ (Some data) 11 0 in
  snd (Uploader.multipartUpload svc 4 2 u)
  ≡ₚ [Uploader.UploadMultipartPartRequest "bytes 0-3/*";
      Uploader.UploadMultipartPartRequest "bytes 4-7/*";
      Uploader.UploadMultipartPartRequest "bytes 8-10/*"].
Proof.
  cbv zeta.
  set (svc := Uploader.mkService _ _ _ _).
  set (data := list_byte_of_string "test_upload").
  set (u := Uploader.mkUploader _ _ _ _ _).
  assert (data <> []) as Hdata by discriminate.
  assert (Parts.count (Bytes.len data) 4 * 4 <= Int64.max_int) as Hmax
    by (vm_compute; discriminate).
  assert (Z.to_nat (Parts.count (Bytes.len data) 4) < 4)%nat as Hfuel
    by (vm_compute; lia).
  destruct (multipartUpload_requests svc 4 2 data 4 u Hdata ltac:(lia) Hmax
              eq_refl eq_refl eq_refl eq_refl ltac:(lia) Hfuel)
    as (u' & log & sent & Hrun & Hsent & _).
  rewrite Hrun. cbn [snd]. etrans; [exact Hsent|].
  vm_compute. reflexivity.
Defined.

(** ** What the reconciliation marks *)

Lemma confirms_ext s1 s part o :
  Uploader.file s1 = Uploader.file s ->
  Reconcile.confirms s1 part o <-> Reconcile.confirms s part o.
Proof. intros Hf. unfold Reconcile.confirms. now rewrite Hf. Qed.

Lemma acceptable_ext s1 s part :
  Uploader.file s1 = Uploader.file s -> Uploader.size s1 = Uploader.size s ->
  Reconcile.acceptable s1 part <-> Reconcile.acceptable s part.
Proof. intros Hf Hs. unfold Reconcile.acceptable. now rewrite Hf, Hs. Qed.

Lemma checkPart_marks s part ok s' :
  Uploader.checkPart s part = Ok (ok, s') ->
  Reconcile.acceptable s part
  /\ forall o, o ∈ Uploader.uploaded s' <->
               o ∈ Uploader.uploaded s \/ Reconcile.confirms s part o.
Proof.
  unfold Uploader.checkPart, Reconcile.acceptable, Reconcile.confirms.
  destruct (Uploader.RangeInBytes part) as [text|]; [|discriminate].
  destruct (Utils.RangeFromString text) as [r|] eqn:Hparse; [|discriminate].
  destruct (Uploader.size s <=? Utils.Offset r) eqn:Hsize; [discriminate|].
  apply Z.leb_gt in Hsize.
  destruct (Utils.ComputeTreeHash _) as [local|] eqn:Hlocal; [|discriminate].
  destruct (Uploader.SHA256TreeHash part) as [remote|]; [|discriminate].
  assert (exists text0 r0,
            Some text = Some text0 /\ Utils.RangeFromString text0 = Some r0
            /\ Utils.Offset r0 < Uploader.size s
            /\ is_Some (Utils.ComputeTreeHash
                          (File.section (Uploader.file s) (Utils.Offset r0)
                                        (Utils.Limit r0)))
            /\ is_Some (Some remote)) as Hacc.
  { exists text, r. rewrite Hlocal. repeat split; eauto. }
  destruct (decide (local = remote)) as [->|Hne]; intros [= <- <-].
  - split; [exact Hacc|].
    intros o. cbn [Uploader.uploaded Uploader.with_uploaded].
    rewrite elem_of_union, elem_of_singleton. split.
    + intros [->|Hin]; [right|now left].
      exists text, r, remote. repeat split; assumption.
    + intros [Hin|(text' & r' & h & [= <-] & Hr & <- & _)]; [now right|].
      left. congruence.
  - split; [exact Hacc|].
    intros o. split; [now left|].
    intros [Hin|(text' & r' & h & [= <-] & Hr & _ & Hh & [= <-])]; [exact Hin|].
    congruence.
Qed.

Lemma checkParts_marks parts : forall s s',
  Uploader.checkParts s parts = Ok s' ->
  Forall (Reconcile.acceptable s) parts
  /\ forall o, o ∈ Uploader.uploaded s' <->
               o ∈ Uploader.uploaded s
               \/ exists part, part ∈ parts /\ Reconcile.confirms s part o.
Proof.
  induction parts as [|part parts IH]; simpl; intros s s' H.
  - injection H as <-. split; [constructor|].
    intros o. split; [now left|]. intros [Hin|(part & Hin & _)]; [exact Hin|].
    inversion Hin.
  - destruct (Uploader.checkPart s part) as [[ok s1]| | |] eqn:Hpart;
      try discriminate H.
    cbn [mbind outcome_bind] in H.
    pose proof (checkPart_state _ _ _ _ Hpart) as (Hf & Hs & _).
    apply checkPart_marks in Hpart as [Hacc Hmark].
    apply IH in H as [Haccs Hmarks].
    split.
    + constructor; [exact Hacc|].
      eapply Forall_impl; [exact Haccs|].
      intros p. now apply acceptable_ext.
    + intros o. rewrite Hmarks, Hmark. split.
      * intros [[Hin|Hc]|(p & Hp & Hc)]; [now left| |].
        -- right. exists part. split; [now left|exact Hc].
        -- right. exists p. split; [now right|now apply (confirms_ext s1 s)].
      * intros [Hin|(p & Hp & Hc)]; [now left; left|].
        apply elem_of_cons in Hp as [->|Hp]; [now left; right|].
        right. exists p. split; [exact Hp|now apply (confirms_ext s1 s)].
Qed.

Lemma checkPages_marks pages : forall s s' sent,
  Uploader.checkPages s pages = (Ok s', sent) ->
  Forall (fun page => Uploader.PartSizeInBytes page
                      = Some (Uploader.PartSize (Uploader.input s))) pages
  /\ Forall (Reconcile.acceptable s) (concat (Uploader.Parts <$> pages))
  /\ (forall o, o ∈ Uploader.uploaded s' <->
                o ∈ Uploader.uploaded s
                \/ exists part, part ∈ concat (Uploader.Parts <$> pages)
                                /\ Reconcile.confirms s part o)
  /\ length sent = length pages.
Proof.
  induction pages as [|page pages IH]; intros s s' sent H.
  - injection H as <- <-. split; [constructor|]. split; [constructor|].
    split; [|reflexivity].
    intros o. split; [now left|]. intros [Hin|(part & Hin & _)]; [exact Hin|].
    inversion Hin.
  - unfold Uploader.checkPages in H; fold Uploader.checkPages in H.
    rewrite traced_bind_unfold in H. unfold send in H. cbn [fst snd] in H.
    destruct (Uploader.PartSizeInBytes page) as [declared|] eqn:Hdecl;
      [|discriminate H].
    destruct (decide (declared = Uploader.PartSize (Uploader.input s)))
      as [->|]; [|discriminate H].
    rewrite quiet_bind in H.
    destruct (Uploader.checkParts s (Uploader.Parts page)) as [s1| | |] eqn:Hparts;
      try discriminate H.
    destruct (Uploader.checkPages s1 pages) as [res sent1] eqn:Hrest.
    cbn [fst snd app] in H. injection H as -> <-.
    pose proof (checkParts_state _ _ _ Hparts) as (Hf & Hs & _ & Hi & _).
    apply checkParts_marks in Hparts as [Hacc Hmark].
    apply IH in Hrest as (Hsizes & Haccs & Hmarks & Hlen).
    split; [|split; [|split]].
    + constructor; [exact Hdecl|]. now rewrite Hi in Hsizes.
    + cbn [fmap list_fmap concat]. apply Forall_app. split; [exact Hacc|].
      eapply Forall_impl; [exact Haccs|].
      intros p. now apply acceptable_ext.
    + intros o. rewrite Hmarks, Hmark. cbn [fmap list_fmap concat]. split.
      * intros [[Hin|(p & Hp & Hc)]|(p & Hp & Hc)]; [now left| |].
        -- right. exists p. split; [apply elem_of_app; now left|exact Hc].
        -- right. exists p.
           split; [apply elem_of_app; now right|now apply (confirms_ext s1 s)].
      * intros [Hin|(p & Hp & Hc)]; [now left; left|].
        apply elem_of_app in Hp as [Hp|Hp]; [left; right; eauto|].
        right. exists p. split; [exact Hp|now apply (confirms_ext s1 s)].
    + simpl. now rewrite Hlen.
Qed.

(** X8. When [checkUploadedParts] returns without error, every page
    declared the configured part size, every listed part has a range that
    parses and starts inside the local file, and the offsets marked as
    uploaded are those marked before together with exactly the offsets of
    the listed parts whose local tree hash equals the hash recorded by
    the service; file, size, cursor and input are as before, and one
    listing request was sent per page. *)
Theorem checkUploadedParts_marks_matching (svc : Uploader.Service)
    (s s' : Uploader.Uploader) (sent : list Uploader.Request) :
  Uploader.checkUploadedParts svc s = (Ok s', sent) ->
  let pages := fst (Uploader.ListParts svc (Uploader.input s)) in
  let listed := concat (Uploader.Parts <$> pages) in
  Forall (fun page => Uploader.PartSizeInBytes page
                      = Some (Uploader.PartSize (Uploader.input s))) pages
  /\ Forall (Reconcile.acceptable s) listed
  /\ (forall o, o ∈ Uploader.uploaded s' <->
                o ∈ Uploader.uploaded s
                \/ exists part, part ∈ listed /\ Reconcile.confirms s part o)
  /\ Uploader.file s' = Uploader.file s /\ Uploader.size s' = Uploader.size s
  /\ Uploader.offset s' = Uploader.offset s
  /\ Uploader.input s' = Uploader.input s
  /\ sent = replicate (length pages) Uploader.ListPartsRequest.
Proof.
  intros H. cbv zeta.
  pose proof (checkUploadedParts_state _ _ _ _ H) as (Hf & Hs & Ho & Hi & _ & Hall).
  unfold Uploader.checkUploadedParts in H.
  destruct (Uploader.ListParts svc (Uploader.input s)) as [pages pagerErr].
  rewrite traced_bind_unfold in H.
  destruct (Uploader.checkPages s pages) as [[s1| | |] sent1] eqn:Hpages;
    try discriminate H.
  destruct pagerErr as [err|]; [discriminate H|].
  cbn in H. rewrite app_nil_r in H. injection H as <- <-.
  apply checkPages_marks in Hpages as (Hsizes & Hacc & Hmarks & Hlen).
  cbn [fst]. repeat split; try assumption; try apply Hmarks.
  rewrite <- Hlen. clear -Hall.
  induction Hall as [|request sent -> _ IH]; [reflexivity|].
  simpl. now rewrite <- IH.
Qed.

Lemma checkUploadedParts_marks_matching_witness :
  let part :=
    Uploader.mkPart (Some "0-3")
      (Some "9f86d081884c7d659a2feaa0c55ad015a3bf4f1b2b0b822cd15d6c15b0f00a08") in
  let svc :=
    Uploader.mkService
      (fun _ => inl (Some "id"))
      (fun _ => ([Uploader.mkPage (Some 4) [part]], None))
      (fun _ _ _ _ => None)
      (fun _ _ _ => inl (Some "location")) in
  let s := Uploader.mkUploader (Uploader.mkInput "-" "vault" "file" "id" 4)
                               ∅ (Some [x74; x65; x73; x74]) 4 0 in
  exists s' sent,
    Uploader.checkUploadedParts svc s = (Ok s', sent)
    /\ 0 ∈ Uploader.uploaded s'.
Proof.
  cbv zeta.
  set (part := Uploader.mkPart _ _).
  set (svc := Uploader.mkService _ _ _ _).
  set (s := Uploader.mkUploader _ _ _ _ _).
  destruct (Uploader.checkUploadedParts svc s) as [[s'| | |] sent] eqn:Hrun;
    try (vm_compute in Hrun; discriminate Hrun).
  exists s', sent. split; [reflexivity|].
  destruct (checkUploadedParts_marks_matching svc s s' sent Hrun)
    as (_ & _ & Hmarks & _).
  apply Hmarks. right. exists part. split; [now left|].
  exists "0-3", (Utils.mkRange 0 4),
    "9f86d081884c7d659a2feaa0c55ad015a3bf4f1b2b0b822cd15d6c15b0f00a08".
  repeat split.
Defined.

(** ** The requests of an upload *)

Lemma checkPages_sent pages : forall s res sent,
  Uploader.checkPages s pages = (res, sent) ->
  Forall (fun request => request = Uploader.ListPartsRequest) sent.
Proof.
  induction pages as [|page pages IH]; intros s res sent H.
  - injection H as <- <-. constructor.
  - unfold Uploader.checkPages in H; fold Uploader.checkPages in H.
    rewrite traced_bind_unfold in H. unfold send in H. cbn [fst snd] in H.
    destruct (Uploader.PartSizeInBytes page) as [declared|].
    2:{ injection H as <- <-. repeat constructor. }
    destruct (decide (declared = Uploader.PartSize (Uploader.input s))).
    2:{ injection H as <- <-. repeat constructor. }
    rewrite quiet_bind in H.
    destruct (Uploader.checkParts s (Uploader.Parts page)) as [s1|msg| |].
    + destruct (Uploader.checkPages s1 pages) as [res1 sent1] eqn:Hrest.
      cbn [fst snd app] in H. injection H as <- <-.
      constructor; [reflexivity|]. eapply IH, Hrest.
    + injection H as <- <-. repeat constructor.
    + injection H as <- <-. repeat constructor.
    + injection H as <- <-. repeat constructor.
Qed.

Lemma checkUploadedParts_sent svc s res sent :
  Uploader.checkUploadedParts svc s = (res, sent) ->
  Forall (fun request => request = Uploader.ListPartsRequest) sent.
Proof.
  unfold Uploader.checkUploadedParts.
  destruct (Uploader.ListParts svc (Uploader.input s)) as [pages pagerErr].
  rewrite traced_bind_unfold.
  destruct (Uploader.checkPages s pages) as [res1 sent1] eqn:Hpages.
  apply checkPages_sent in Hpages.
  destruct res1 as [s1| | |]; try (intros [= <- <-]; exact Hpages).
  destruct pagerErr as [err|]; cbn; intros [= <- <-].
  - apply Forall_app. split; [exact Hpages|repeat constructor].
  - now rewrite app_nil_r.
Qed.

Lemma uploadPart_sent svc s r :
  exists err, fst (Uploader.uploadPart svc s r) = Ok err
  /\ Forall Protocol.is_part (snd (Uploader.uploadPart svc s r)).
Proof.
  unfold Uploader.uploadPart.
  destruct (Utils.ComputeTreeHash _) as [treeHash|].
  - eexists. split; [reflexivity|]. repeat constructor. eexists. reflexivity.
  - eexists. split; [reflexivity|]. constructor.
Qed.

Lemma Uploader_dispatch_sent svc jobs fuel : forall s res sent,
  Uploader.dispatch svc fuel jobs s = (res, sent) ->
  Forall Protocol.is_part sent.
Proof.
  induction fuel as [|fuel IH]; intros s res sent H.
  { injection H as <- <-. constructor. }
  rewrite Uploader_dispatch_unfold, quiet_bind in H.
  destruct (Uploader.getNextRange (S fuel) s) as [[[p|] s1]| | |];
    try (injection H as <- <-; constructor).
  destruct (jobs =? 0); [injection H as <- <-; constructor|].
  rewrite traced_bind_unfold in H.
  destruct (uploadPart_sent svc s1 p) as (err & Herr & Hsent).
  destruct (Uploader.uploadPart svc s1 p) as [res1 sent1].
  cbn [fst snd] in Herr, Hsent. subst res1.
  rewrite traced_bind_unfold in H.
  destruct (Uploader.dispatch svc fuel jobs s1) as [res2 sent2] eqn:Hrest.
  apply IH in Hrest.
  destruct res2 as [[s2 log]| | |]; cbn in H; injection H as <- <-;
    apply Forall_app; split; try assumption.
  now rewrite app_nil_r.
Qed.

Lemma multipartUpload_sent svc fuel jobs s res sent :
  Uploader.multipartUpload svc fuel jobs s = (res, sent) ->
  Forall Protocol.is_part sent.
Proof.
  unfold Uploader.multipartUpload. destruct (jobs <? 0).
  - intros [= <- <-]. constructor.
  - apply Uploader_dispatch_sent.
Qed.

Lemma completeUpload_sent svc s :
  snd (Uploader.completeUpload svc s) = []
  \/ snd (Uploader.completeUpload svc s)
     = [Uploader.CompleteMultipartUploadRequest].
Proof.
  unfold Uploader.completeUpload.
  destruct (Utils.ComputeTreeHash _) as [treeHash|]; [|now left].
  right. rewrite traced_bind_unfold. unfold send. cbn [fst snd].
  destruct (Uploader.CompleteMultipartUpload _ _ _ _); reflexivity.
Qed.

(** Where the last element of a list is its only occurrence. *)
Lemma last_occurrence {A} (c : A) (l before after : list A) :
  c ∉ l -> l ++ [c] = before ++ c :: after ->
  after = [] /\ before = l.
Proof.
  revert before. induction l as [|x l IH]; intros before Hnone Hsplit.
  - destruct before as [|b before].
    + injection Hsplit as <-. now split.
    + injection Hsplit as _ Hsplit. now destruct before.
  - destruct before as [|b before].
    + injection Hsplit as -> _. exfalso. apply Hnone. now left.
    + injection Hsplit as <- Hsplit.
      destruct (IH before) as [-> ->]; [|exact Hsplit|now split].
      intros Hin. apply Hnone. now right.
Qed.

(** The requests of [Upload], step by step. *)
Lemma Upload_sent svc fs fuel jobs s :
  exists init lists parts fin,
    snd (Uploader.Upload svc fs fuel jobs s) = init ++ lists ++ parts ++ fin
    /\ (init = []
        \/ init = [Uploader.InitiateMultipartUploadRequest]
           /\ Uploader.UploadId (Uploader.input s) = "")
    /\ Forall (fun request => request = Uploader.ListPartsRequest) lists
    /\ Forall Protocol.is_part parts
    /\ (fin = [] \/ fin = [Uploader.CompleteMultipartUploadRequest]).
Proof.
  rewrite Upload_unfold.
  destruct (Uploader.openFile fs s) as [s1| | |] eqn:Hopen;
    try (exists [], [], [], []; repeat split; auto; constructor).
  apply openFile_input in Hopen as (Hi1 & _).
  rewrite traced_bind_unfold.
  destruct (Uploader.initiateUpload svc s1) as [res1 sent1] eqn:Hinit.
  assert (sent1 = []
          \/ sent1 = [Uploader.InitiateMultipartUploadRequest]
             /\ Uploader.UploadId (Uploader.input s) = "") as Hsent1.
  { unfold Uploader.initiateUpload in Hinit. rewrite Hi1 in Hinit.
    destruct (decide (Uploader.UploadId (Uploader.input s) = "")) as [Hid|Hid].
    - right. split; [|exact Hid].
      rewrite traced_bind_unfold in Hinit. unfold send in Hinit.
      cbn [fst snd] in Hinit.
      destruct (Uploader.InitiateMultipartUpload svc (Uploader.input s))
        as [[id|]|err]; now injection Hinit as <- <-.
    - left. now injection Hinit as <- <-. }
  destruct res1 as [s2| | |];
    try (exists sent1, [], [], []; rewrite !app_nil_r;
         repeat split; auto; constructor).
  cbn [fst snd]. rewrite traced_bind_unfold.
  destruct (Uploader.checkUploadedParts svc s2) as [res2 sent2] eqn:Hcheck.
  pose proof (checkUploadedParts_sent _ _ _ _ Hcheck) as Hsent2.
  destruct res2 as [s3| | |];
    try (exists sent1, sent2, [], []; rewrite !app_nil_r;
         repeat split; auto; constructor).
  cbn [fst snd]. rewrite traced_bind_unfold.
  destruct (Uploader.multipartUpload svc fuel jobs s3) as [res3 sent3] eqn:Hrun.
  pose proof (multipartUpload_sent _ _ _ _ _ _ Hrun) as Hsent3.
  destruct res3 as [[s4 log]| | |];
    try (exists sent1, sent2, sent3, []; rewrite !app_nil_r;
         repeat split; auto; constructor).
  cbn [fst snd]. rewrite traced_bind_unfold.
  pose proof (completeUpload_sent svc s4) as Hsent4.
  destruct (Uploader.completeUpload svc s4) as [res4 sent4].
  cbn [fst snd] in Hsent4.
  exists sent1, sent2, sent3, sent4.
  split; [|repeat split; assumption].
  destruct res4 as [[location|]| | |]; cbn; now rewrite ?app_nil_r.
Qed.

(** X9. Whatever the file, the service and the outcome, the requests that
    [Upload] sends are in order: the initiation, at most once and only
    when no upload id was supplied, then listing requests, then part
    uploads, then the completion, at most once and last. *)
Theorem Upload_requests_ordered (svc : Uploader.Service)
    (fs : Uploader.entry) (fuel : nat) (jobs : Z) (s : Uploader.Uploader) :
  Protocol.ordered (snd (Uploader.Upload svc fs fuel jobs s))
  /\ (Uploader.UploadId (Uploader.input s) <> "" ->
      Uploader.InitiateMultipartUploadRequest
      ∉ snd (Uploader.Upload svc fs fuel jobs s))
  /\ (forall before after,
        snd (Uploader.Upload svc fs fuel jobs s)
        = before ++ Uploader.CompleteMultipartUploadRequest :: after ->
        after = []
        /\ Uploader.CompleteMultipartUploadRequest ∉ before).
Proof.
  destruct (Upload_sent svc fs fuel jobs s)
    as (init & lists & parts & fin & -> & Hinit & Hlists & Hparts & Hfin).
  assert (Uploader.CompleteMultipartUploadRequest ∉ init ++ lists ++ parts)
    as Hnone.
  { rewrite !elem_of_app. intros [Hin|[Hin|Hin]].
    - destruct Hinit as [->|[-> _]]; revert Hin; absent.
    - rewrite Forall_forall in Hlists. apply Hlists in Hin. discriminate.
    - rewrite Forall_forall in Hparts. apply Hparts in Hin as [range Hin].
      discriminate. }
  split; [|split].
  - exists init, lists, parts, fin. repeat split; try assumption.
    destruct Hinit as [->|[-> _]]; auto.
  - intros Hid. rewrite !elem_of_app. intros [Hin|[Hin|[Hin|Hin]]].
    + destruct Hinit as [->|[_ Hempty]]; [revert Hin; absent|contradiction].
    + rewrite Forall_forall in Hlists. apply Hlists in Hin. discriminate.
    + rewrite Forall_forall in Hparts. apply Hparts in Hin as [range Hin].
      discriminate.
    + destruct Hfin as [-> | ->]; revert Hin; absent.
  - intros before after Hsplit.
    destruct Hfin as [-> | ->].
    + exfalso. apply Hnone. rewrite !app_nil_r in Hsplit.
      rewrite Hsplit. apply elem_of_app. right. now left.
    + rewrite !app_assoc in Hsplit.
      rewrite !app_assoc in Hnone.
      destruct (last_occurrence _ _ _ _ Hnone Hsplit) as [-> ->].
      split; [reflexivity|exact Hnone].
Qed.

Lemma Upload_requests_ordered_witness :
  let svc :=
    Uploader.mkService
      (fun _ => inl (Some "id"))
      (fun _ => ([Uploader.mkPage (Some 4) []], None))
      (fun _ _ _ _ => None)
      (fun _ _ _ => inl (Some "location")) in
  let s := Uploader.New (Uploader.mkInput "-" "vault" "file" "id" 4) in
  Uploader.InitiateMultipartUploadRequest
  ∉ snd (Uploader.Upload svc
           (Uploader.Regular (list_byte_of_string "test_upload")) 4 2 s).
Proof.
  cbv zeta.
  apply (Upload_requests_ordered
           (Uploader.mkService
              (fun _ => inl (Some "id"))
              (fun _ => ([Uploader.mkPage (Some 4) []], None))
              (fun _ _ _ _ => None)
              (fun _ _ _ => inl (Some "location")))
           (Uploader.Regular (list_byte_of_string "test_upload")) 4 2
           (Uploader.New (Uploader.mkInput "-" "vault" "file" "id" 4))).
  discriminate.
Defined.

(** ** A whole upload *)

Lemma Uploader_dispatch_input svc jobs fuel : forall s s' log sent,
  Uploader.dispatch svc fuel jobs s = (Ok (s', log), sent) ->
  Uploader.input s' = Uploader.input s.
Proof.
  induction fuel as [|fuel IH]; intros s s' log sent H; [discriminate H|].
  rewrite Uploader_dispatch_unfold in H.
  destruct (Uploader.getNextRange (S fuel) s) as [[next s1]| | |] eqn:Hg;
    try discriminate H.
  apply Uploader_getNextRange_fresh in Hg as (_ & _ & Hi & _).
  unfold mbind, traced_bind, quiet in H. simpl in H.
  destruct next as [p0|].
  - destruct (jobs =? 0); [discriminate H|].
    destruct (Uploader.uploadPart svc s1 p0) as [[err0| | |] sent0];
      try discriminate H.
    destruct (Uploader.dispatch svc fuel jobs s1) as [[[s2 log2]| | |] sent2] eqn:Hd;
      try discriminate H.
    simpl in H. injection H as <- <- <-.
    apply IH in Hd. congruence.
  - injection H as <- <- <-. exact Hi.
Qed.

Lemma multipartUpload_state svc fuel jobs s s' log sent :
  Uploader.multipartUpload svc fuel jobs s = (Ok (s', log), sent) ->
  Uploader.file s' = Uploader.file s /\ Uploader.size s' = Uploader.size s
  /\ Uploader.input s' = Uploader.input s /\ 0 <= jobs.
Proof.
  unfold Uploader.multipartUpload.
  destruct (jobs <? 0) eqn:E; [discriminate|]. apply Z.ltb_ge in E.
  intros H. destruct (Uploader_dispatch_state _ _ _ _ _ _ _ H) as [Hf Hs].
  apply Uploader_dispatch_input in H. auto.
Qed.

(** What [initiateUpload] leaves as the input of the upload. *)
Lemma initiateUpload_input svc s1 s2 sent :
  Uploader.initiateUpload svc s1 = (Ok s2, sent) ->
  Uploader.UploadId (Uploader.input s1) <> ""
  /\ Uploader.input s2 = Uploader.input s1 /\ sent = []
  \/ Uploader.UploadId (Uploader.input s1) = ""
     /\ sent = [Uploader.InitiateMultipartUploadRequest]
     /\ exists id,
          Uploader.InitiateMultipartUpload svc (Uploader.input s1)
          = inl (Some id)
          /\ Uploader.input s2 = Uploader.with_UploadId (Uploader.input s1) id.
Proof.
  unfold Uploader.initiateUpload.
  destruct (decide (Uploader.UploadId (Uploader.input s1) = "")) as [Hid|Hid].
  - rewrite traced_bind_unfold. unfold send. cbn [fst snd].
    destruct (Uploader.InitiateMultipartUpload svc (Uploader.input s1))
      as [[id|]|err]; try discriminate.
    intros [= <- <-]. right. split; [exact Hid|]. split; [reflexivity|].
    exists id. auto.
  - intros [= <- <-]. left. auto.
Qed.

Lemma completeUpload_returns svc s location sent :
  Uploader.completeUpload svc s = (Ok location, sent) ->
  exists treeHash,
    Utils.ComputeTreeHash (File.contents (Uploader.file s)) = Some treeHash
    /\ Uploader.CompleteMultipartUpload svc (Uploader.input s)
         (Strconv.FormatInt (Uploader.size s)) treeHash = inl location
    /\ sent = [Uploader.CompleteMultipartUploadRequest].
Proof.
  unfold Uploader.completeUpload.
  destruct (Utils.ComputeTreeHash _) as [treeHash|]; [|discriminate].
  rewrite traced_bind_unfold. unfold send. cbn [fst snd].
  destruct (Uploader.CompleteMultipartUpload _ _ _ _) as [loc|err] eqn:Hc;
    [|discriminate].
  intros [= <- <-]. exists treeHash. auto.
Qed.

(** X10. [Upload] returns without error only if the file is a regular
    file with at least one byte, the listing of the parts ended without
    error, the number of workers was not negative, and the last request
    sent was the completion, carrying the upload id in use (the one
    supplied, or else the one the initiation returned), the size of the
    file in decimal and the tree hash of the whole file, and answered by
    the service with a location. *)
Theorem Upload_success_sound (svc : Uploader.Service) (fs : Uploader.entry)
    (fuel : nat) (jobs : Z) (s : Uploader.Uploader)
    (sent : list Uploader.Request) :
  Uploader.Upload svc fs fuel jobs s = (Ok tt, sent) ->
  exists data treeHash input' location before,
    fs = Uploader.Regular data
    /\ data <> []
    /\ Utils.ComputeTreeHash data = Some treeHash
    /\ (Uploader.UploadId (Uploader.input s) <> ""
        /\ input' = Uploader.input s
        \/ Uploader.UploadId (Uploader.input s) = ""
           /\ exists id,
                Uploader.InitiateMultipartUpload svc (Uploader.input s)
                = inl (Some id)
                /\ input' = Uploader.with_UploadId (Uploader.input s) id)
    /\ snd (Uploader.ListParts svc input') = None
    /\ 0 <= jobs
    /\ Uploader.CompleteMultipartUpload svc input'
         (Strconv.FormatInt (Bytes.len data)) treeHash = inl (Some location)
    /\ sent = before ++ [Uploader.CompleteMultipartUploadRequest].
Proof.
  rewrite Upload_unfold.
  destruct fs as [msg|msg| |data]; try discriminate.
  cbn [Uploader.openFile].
  set (s1 := Uploader.mkUploader _ _ _ _ _).
  rewrite traced_bind_unfold.
  destruct (Uploader.initiateUpload svc s1) as [[s2| | |] sent1] eqn:Hinit;
    try discriminate.
  cbn [fst snd]. rewrite traced_bind_unfold.
  destruct (Uploader.checkUploadedParts svc s2) as [[s3| | |] sent2] eqn:Hcheck;
    try discriminate.
  cbn [fst snd]. rewrite traced_bind_unfold.
  destruct (Uploader.multipartUpload svc fuel jobs s3)
    as [[[s4 log]| | |] sent3] eqn:Hrun; try discriminate.
  cbn [fst snd]. rewrite traced_bind_unfold.
  destruct (Uploader.completeUpload svc s4)
    as [[[location|]| | |] sent4] eqn:Hdone; try discriminate.
  cbn [fst snd mret traced_ret]. rewrite app_nil_r. intros [= <-].
  pose proof (initiateUpload_state _ _ _ _ Hinit) as (_ & Hf2 & Hs2 & _).
  apply initiateUpload_input in Hinit.
  pose proof (checkUploadedParts_state _ _ _ _ Hcheck)
    as (Hf3 & Hs3 & _ & Hi3 & _).
  apply multipartUpload_state in Hrun as (Hf4 & Hs4 & Hi4 & Hjobs).
  apply completeUpload_returns in Hdone as (treeHash & Hhash & Hreply & ->).
  rewrite Hf4, Hf3, Hf2 in Hhash. rewrite Hs4, Hs3, Hs2, Hi4, Hi3 in Hreply.
  cbn in Hhash, Hreply.
  assert (snd (Uploader.ListParts svc (Uploader.input s2)) = None) as Hpager.
  { unfold Uploader.checkUploadedParts in Hcheck.
    destruct (Uploader.ListParts svc (Uploader.input s2)) as [pages pagerErr].
    rewrite traced_bind_unfold in Hcheck.
    destruct (Uploader.checkPages s2 pages) as [[s'| | |] sent'];
      try discriminate Hcheck.
    destruct pagerErr; [discriminate Hcheck|reflexivity]. }
  exists data, treeHash, (Uploader.input s2), location,
    (sent1 ++ sent2 ++ sent3).
  split; [reflexivity|].
  split; [intros ->; discriminate Hhash|].
  split; [exact Hhash|].
  split.
  { destruct Hinit as [(Hid & Hi & _)|(Hid & _ & id & Hreq & Hi)];
      [left|right]; cbn in *; eauto. }
  split; [exact Hpager|]. split; [exact Hjobs|]. split; [exact Hreply|].
  now rewrite <- !app_assoc.
Qed.

(** The eleven bytes of the upload tests, sent in three parts by a run
    that the service accepts. *)
Lemma Upload_success_sound_witness :
  let svc :=
    Uploader.mkService
      (fun _ => inl (Some "id"))
      (fun _ => ([Uploader.mkPage (Some 4) []], None))
      (fun _ _ _ _ => None)
      (fun _ _ _ => inl (Some "location")) in
  let s := Uploader.New (Uploader.mkInput "-" "vault" "file" "" 4) in
  exists data treeHash input' location before,
    Uploader.Regular (list_byte_of_string "test_upload")
    = Uploader.Regular data
    /\ data <> []
    /\ Utils.ComputeTreeHash data = Some treeHash
    /\ (Uploader.UploadId (Uploader.input s) <> ""
        /\ input' = Uploader.input s
        \/ Uploader.UploadId (Uploader.input s) = ""
           /\ exists id,
                Uploader.InitiateMultipartUpload svc (Uploader.input s)
                = inl (Some id)
                /\ input' = Uploader.with_UploadId (Uploader.input s) id)
    /\ snd (Uploader.ListParts svc input') = None
    /\ 0 <= 2
    /\ Uploader.CompleteMultipartUpload svc input'
         (Strconv.FormatInt (Bytes.len data)) treeHash = inl (Some location)
    /\ [Uploader.InitiateMultipartUploadRequest;
        Uploader.ListPartsRequest;
        Uploader.UploadMultipartPartRequest "bytes 0-3/*";
        Uploader.UploadMultipartPartRequest "bytes 4-7/*";
        Uploader.UploadMultipartPartRequest "bytes 8-10/*";
        Uploader.CompleteMultipartUploadRequest]
       = before ++ [Uploader.CompleteMultipartUploadRequest].
Proof.
  cbv zeta.
  apply (Upload_success_sound
           (Uploader.mkService
              (fun _ => inl (Some "id"))
              (fun _ => ([Uploader.mkPage (Some 4) []], None))
              (fun _ _ _ _ => None)
              (fun _ _ _ => inl (Some "location")))
           (Uploader.Regular (list_byte_of_string "test_upload")) 4 2
           (Uploader.New (Uploader.mkInput "-" "vault" "file" "" 4))).
  vm_compute. reflexivity.
Defined.

(** A run of [Upload] on a regular file with at least one byte, once the
    upload id is known and the listed parts are reconciled: the parts
    not marked are sent, then the completion. *)
Lemma Upload_run svc data fuel jobs s s2 sent1 s3 sent2 P treeHash :
  data <> [] -> 1 <= P ->
  Parts.count (Bytes.len data) P * P <= Int64.max_int ->
  Uploader.PartSize (Uploader.input s) = P ->
  Uploader.offset s = 0 -> 1 <= jobs ->
  (Z.to_nat (Parts.count (Bytes.len data) P) < fuel)%nat ->
  Uploader.initiateUpload svc
    (Uploader.mkUploader (Uploader.input s) (Uploader.uploaded s)
       (Some data) (Bytes.len data) (Uploader.offset s)) = (Ok s2, sent1) ->
  Uploader.checkUploadedParts svc s2 = (Ok s3, sent2) ->
  Utils.ComputeTreeHash data = Some treeHash ->
  Uploader.Upload svc (Uploader.Regular data) fuel jobs s
  = (match Uploader.CompleteMultipartUpload svc (Uploader.input s2)
             (Strconv.FormatInt (Bytes.len data)) treeHash with
     | inl (Some _) => Ok tt
     | inl None => Panic
     | inr err => Err err
     end,
     sent1 ++ sent2
     ++ ((fun r => Uploader.UploadMultipartPartRequest
                     ("bytes " +:+ Utils.String r +:+ "/*"))
         <$> filter (fun r => Utils.Offset r ∉ Uploader.uploaded s3)
               (Parts.part (Bytes.len data) P
                  <$> seq 0 (Z.to_nat (Parts.count (Bytes.len data) P))))
     ++ [Uploader.CompleteMultipartUploadRequest]).
Proof.
  intros Hne Hp Hmax Hpart Hoff Hjobs Hfuel Hinit Hcheck Hhash.
  assert (0 < Bytes.len data) as Hlen
    by (destruct data; [congruence|unfold Bytes.len; simpl; lia]).
  destruct (count_bounds _ _ Hlen Hp) as (Hn & Hlo & Hhi).
  rewrite Upload_unfold. cbn [Uploader.openFile].
  rewrite traced_bind_unfold, Hinit. cbn [fst snd].
  rewrite traced_bind_unfold, Hcheck. cbn [fst snd].
  pose proof (initiateUpload_state _ _ _ _ Hinit)
    as (Hp2 & Hf2 & Hs2 & Ho2 & _).
  pose proof (checkUploadedParts_state _ _ _ _ Hcheck)
    as (Hf3 & Hs3 & Ho3 & Hi3 & _).
  cbn in Hp2, Hf2, Hs2, Ho2.
  assert (Uploader.file s3 = Some data) as Hfile by congruence.
  assert (Uploader.size s3 = Bytes.len data) as Hsize by congruence.
  assert (Uploader.PartSize (Uploader.input s3) = P) as Hpart3 by congruence.
  assert (Uploader.offset s3 = 0) as Hoff3 by congruence.
  set (todo := filter _ _).
  assert (Uploader.produce fuel s3 = Ok todo) as Hprod.
  { apply (Uploader_produce_unmarked (Bytes.len data) P _ 0%nat);
      try assumption; lia. }
  destruct (Uploader_dispatch_trace svc jobs fuel s3 todo Hprod ltac:(lia))
    as (s4 & log & Hrun & _).
  { intros r Hr. apply list_elem_of_filter in Hr as [_ Hr].
    apply list_elem_of_fmap in Hr as (i & -> & Hi). apply elem_of_seq in Hi.
    rewrite Hfile. apply section_part; [assumption|nia]. }
  rewrite traced_bind_unfold. unfold Uploader.multipartUpload.
  destruct (jobs <? 0) eqn:E; [apply Z.ltb_lt in E; lia|].
  rewrite Hrun. cbn [fst snd].
  destruct (Uploader_dispatch_state _ _ _ _ _ _ _ Hrun) as [Hf4 Hs4].
  apply Uploader_dispatch_input in Hrun as Hi4.
  rewrite traced_bind_unfold. unfold Uploader.completeUpload.
  rewrite Hf4, Hfile, Hs4, Hsize, Hi4, Hi3. cbn [File.contents].
  rewrite Hhash, traced_bind_unfold. unfold send. cbn [fst snd].
  destruct (Uploader.CompleteMultipartUpload _ _ _ _) as [[location|]|err];
    cbn; rewrite ?app_nil_r; reflexivity.
Qed.

Lemma checkPart_succeeds s part :
  Reconcile.acceptable s part ->
  exists ok s', Uploader.checkPart s part = Ok (ok, s').
Proof.
  intros (text & r & Htext & Hparse & Hsize & [local Hlocal] & [remote Hremote]).
  unfold Uploader.checkPart. rewrite Htext, Hparse.
  destruct (Uploader.size s <=? Utils.Offset r) eqn:E;
    [apply Z.leb_le in E; lia|].
  rewrite Hlocal, Hremote.
  destruct (decide (local = remote)); eauto.
Qed.

Lemma checkParts_succeeds parts : forall s,
  Forall (Reconcile.acceptable s) parts ->
  exists s', Uploader.checkParts s parts = Ok s'.
Proof.
  induction parts as [|part parts IH]; intros s Hall; [simpl; eauto|].
  inversion Hall as [|? ? Hpart Hrest]; subst.
  destruct (checkPart_succeeds _ _ Hpart) as (ok & s1 & Hcheck).
  simpl. rewrite Hcheck. cbn [mbind outcome_bind].
  apply checkPart_state in Hcheck as (Hf & Hs & _).
  apply IH. eapply Forall_impl; [exact Hrest|].
  intros p Hp. now apply (acceptable_ext s1 s).
Qed.

Lemma checkPages_succeeds pages : forall s,
  Forall (fun page => Uploader.PartSizeInBytes page
                      = Some (Uploader.PartSize (Uploader.input s))) pages ->
  Forall (Reconcile.acceptable s) (concat (Uploader.Parts <$> pages)) ->
  exists s', Uploader.checkPages s pages
             = (Ok s', replicate (length pages) Uploader.ListPartsRequest).
Proof.
  induction pages as [|page pages IH]; intros s Hsizes Hall.
  - exists s. reflexivity.
  - inversion Hsizes as [|? ? Hsize Hrest]; subst.
    cbn [fmap list_fmap concat] in Hall. apply Forall_app in Hall as [Hpage Hall].
    destruct (checkParts_succeeds _ _ Hpage) as (s1 & Hparts).
    unfold Uploader.checkPages; fold Uploader.checkPages.
    rewrite traced_bind_unfold. unfold send. cbn [fst snd]. rewrite Hsize.
    destruct (decide (Uploader.PartSize (Uploader.input s)
                      = Uploader.PartSize (Uploader.input s))); [|congruence].
    rewrite quiet_bind, Hparts.
    apply checkParts_state in Hparts as (Hf & Hs & _ & Hi & _).
    destruct (IH s1) as (s' & Hpages).
    + rewrite Hi. exact Hrest.
    + eapply Forall_impl; [exact Hall|].
      intros p Hp. now apply (acceptable_ext s1 s).
    + exists s'. rewrite Hpages. reflexivity.
Qed.

(** X17. [checkUploadedParts] returns without error exactly when the
    listing ends without error, every page declares the configured part
    size, and every listed part has a range text that parses, starts
    inside the local file, has local bytes to hash and carries a
    recorded hash; whether the hashes agree plays no part in it. *)
Theorem checkUploadedParts_succeeds_iff (svc : Uploader.Service)
    (s : Uploader.Uploader) :
  let pages := fst (Uploader.ListParts svc (Uploader.input s)) in
  let listed := concat (Uploader.Parts <$> pages) in
  (exists s' sent, Uploader.checkUploadedParts svc s = (Ok s', sent))
  <-> snd (Uploader.ListParts svc (Uploader.input s)) = None
      /\ Forall (fun page => Uploader.PartSizeInBytes page
                             = Some (Uploader.PartSize (Uploader.input s)))
                pages
      /\ Forall (Reconcile.acceptable s) listed.
Proof.
  cbv zeta. unfold Uploader.checkUploadedParts.
  destruct (Uploader.ListParts svc (Uploader.input s)) as [pages pagerErr].
  cbn [fst snd]. rewrite traced_bind_unfold. split.
  - intros (s' & sent & H).
    destruct (Uploader.checkPages s pages) as [[s1| | |] sent1] eqn:Hpages;
      try discriminate H.
    destruct pagerErr as [err|]; [discriminate H|].
    apply checkPages_marks in Hpages as (Hsizes & Hacc & _).
    auto.
  - intros (-> & Hsizes & Hacc).
    destruct (checkPages_succeeds pages s Hsizes Hacc) as (s' & ->).
    exists s'. eexists. reflexivity.
Qed.

(** X11. A whole upload of a regular file of [S > 0] bytes in parts of
    [P >= 1] bytes, with at least one worker and no overflow of the
    cursor ([ceil(S/P) * P <= 2^63 - 1]). Suppose the upload id was
    supplied or else the initiation returns one; the listing ends
    without error; every page declares the part size [P]; and every
    listed part has a range text, which parses and starts inside the
    file, has local bytes to hash, and carries a recorded hash. Then
    [Upload] sends: the initiation if no id was supplied; one listing
    request per page; then, in some order, one part upload for each
    part of the file that no listed part confirms (its local tree hash
    equal to the recorded one); and last the completion, whose answer
    decides the result. Parts that are confirmed are not sent again,
    and the answers to the part uploads do not matter. *)
Theorem Upload_sends_unconfirmed (svc : Uploader.Service)
    (data : list byte) (fuel : nat) (jobs : Z) (input input' : Uploader.Input)
    (pages : list Uploader.ListPartsOutput) (marked : gset Z)
    (treeHash : string) :
  let P := Uploader.PartSize input in
  let s1 := Uploader.mkUploader input ∅ (Some data) (Bytes.len data) 0 in
  let listed := concat (Uploader.Parts <$> pages) in
  data <> [] -> 1 <= P ->
  Parts.count (Bytes.len data) P * P <= Int64.max_int ->
  1 <= jobs ->
  (Z.to_nat (Parts.count (Bytes.len data) P) < fuel)%nat ->
  (Uploader.UploadId input <> "" /\ input' = input
   \/ Uploader.UploadId input = ""
      /\ exists id, Uploader.InitiateMultipartUpload svc input = inl (Some id)
                    /\ input' = Uploader.with_UploadId input id) ->
  Uploader.ListParts svc input' = (pages, None) ->
  Forall (fun page => Uploader.PartSizeInBytes page = Some P) pages ->
  Forall (Reconcile.acceptable s1) listed ->
  (forall o, o ∈ marked <->
             exists part, part ∈ listed /\ Reconcile.confirms s1 part o) ->
  Utils.ComputeTreeHash data = Some treeHash ->
  exists parts,
    Uploader.Upload svc (Uploader.Regular data) fuel jobs
      (Uploader.New input)
    = (match Uploader.CompleteMultipartUpload svc input'
               (Strconv.FormatInt (Bytes.len data)) treeHash with
       | inl (Some _) => Ok tt
       | inl None => Panic
       | inr err => Err err
       end,
       (if decide (Uploader.UploadId input = "")
        then [Uploader.InitiateMultipartUploadRequest] else [])
       ++ replicate (length pages) Uploader.ListPartsRequest
       ++ parts
       ++ [Uploader.CompleteMultipartUploadRequest])
    /\ parts
       ≡ₚ (fun r => Uploader.UploadMultipartPartRequest
                      ("bytes " +:+ Utils.String r +:+ "/*"))
          <$> filter (fun r => Utils.Offset r ∉ marked)
                (Parts.part (Bytes.len data) P
                   <$> seq 0 (Z.to_nat (Parts.count (Bytes.len data) P))).
Proof.
  intros P s1 listed Hne Hp Hmax Hjobs Hfuel Hid Hlist Hsizes Hacc Hmarked
    Hhash.
  set (s2 := Uploader.mkUploader input' ∅ (Some data) (Bytes.len data) 0).
  assert (Uploader.PartSize input' = P) as Hp'.
  { destruct Hid as [[_ ->]|(_ & id & _ & ->)]; reflexivity. }
  assert (Uploader.initiateUpload svc s1
          = (Ok s2, if decide (Uploader.UploadId input = "")
                    then [Uploader.InitiateMultipartUploadRequest] else []))
    as Hinit.
  { unfold Uploader.initiateUpload. cbn [Uploader.input s1].
    destruct (decide (Uploader.UploadId input = "")) as [He|He];
      destruct Hid as [[Hid ->]|(Hid & id & Hreq & ->)]; try contradiction.
    - rewrite traced_bind_unfold. unfold send. cbn [fst snd]. rewrite Hreq.
      reflexivity.
    - destruct input; reflexivity. }
  destruct (checkPages_succeeds pages s2) as (s3 & Hpages).
  { cbn [Uploader.input s2]. now rewrite Hp'. }
  { eapply Forall_impl; [exact Hacc|].
    intros p Hacc0. now apply (acceptable_ext s2 s1). }
  assert (Uploader.checkUploadedParts svc s2
          = (Ok s3, replicate (length pages) Uploader.ListPartsRequest))
    as Hcheck.
  { unfold Uploader.checkUploadedParts. cbn [Uploader.input s2].
    rewrite Hlist, traced_bind_unfold, Hpages. cbn. now rewrite app_nil_r. }
  apply checkPages_marks in Hpages as (_ & _ & Hmarks & _).
  rewrite (Upload_run svc data fuel jobs (Uploader.New input) s2 _ s3 _ P
             treeHash Hne Hp Hmax eq_refl eq_refl Hjobs Hfuel Hinit Hcheck
             Hhash).
  cbn [Uploader.input s2]. eexists. split; [reflexivity|].
  assert (forall l1 l2 : list Uploader.Request, l1 = l2 -> l1 ≡ₚ l2)
    as Heq by (now intros l1 l2 ->).
  apply Heq. f_equal.
  apply list_filter_iff. intros r. rewrite Hmarks, Hmarked.
  cbn [Uploader.uploaded s2]. split.
  - intros Hno Hyes. apply Hno. right.
    destruct Hyes as (part & Hin & Hc). exists part. split; [exact Hin|].
    now apply (confirms_ext s2 s1).
  - intros Hno [Hin|(part & Hin & Hc)]; [set_solver|].
    apply Hno. exists part. split; [exact Hin|].
    now apply (confirms_ext s2 s1) in Hc.
Qed.

(** The eleven bytes of the upload tests, resumed with the first of the
    three parts listed and intact: only the other two are sent. *)
Lemma Upload_sends_unconfirmed_witness :
  let part :=
    Uploader.mkPart (Some "0-3")
      (Some "9f86d081884c7d659a2feaa0c55ad015a3bf4f1b2b0b822cd15d6c15b0f00a08") in
  let svc :=
    Uploader.mkService
      (fun _ => inl (Some "other"))
      (fun _ => ([Uploader.mkPage (Some 4) [part]], None))
      (fun _ _ _ _ => Some "refused")
      (fun _ _ _ => inl (Some "location")) in
  let input := Uploader.mkInput "-" "vault" "file" "id" 4 in
  exists parts,
    Uploader.Upload svc
      (Uploader.Regular (list_byte_of_string "test_upload"))
      4 2 (Uploader.New input)
    = (Ok tt,
       [Uploader.ListPartsRequest] ++ parts
       ++ [Uploader.CompleteMultipartUploadRequest])
    /\ parts ≡ₚ [Uploader.UploadMultipartPartRequest "bytes 4-7/*";
                 Uploader.UploadMultipartPartRequest "bytes 8-10/*"].
Proof.
  cbv zeta.
  set (part := Uploader.mkPart _ _).
  set (svc := Uploader.mkService _ _ _ _).
  set (input := Uploader.mkInput _ _ _ _ _).
  set (data := list_byte_of_string "test_upload").
  assert (data <> []) as Hdata by discriminate.
  assert (1 <= Uploader.PartSize input) as Hp by (cbn; lia).
  assert (Parts.count (Bytes.len data) (Uploader.PartSize input)
          * Uploader.PartSize input <= Int64.max_int) as Hmax
    by (vm_compute; discriminate).
  assert (Z.to_nat (Parts.count (Bytes.len data) (Uploader.PartSize input)) < 4)%nat
    as Hfuel by (vm_compute; lia).
  assert (Uploader.UploadId input <> "" /\ input = input
          \/ Uploader.UploadId input = ""
             /\ exists id,
                  Uploader.InitiateMultipartUpload svc input = inl (Some id)
                  /\ input = Uploader.with_UploadId input id) as Hid
    by (left; split; [discriminate|reflexivity]).
  assert (Forall (fun page => Uploader.PartSizeInBytes page
                              = Some (Uploader.PartSize input))
            [Uploader.mkPage (Some 4) [part]]) as Hsizes
    by (repeat constructor).
  assert (Forall (Reconcile.acceptable
                    (Uploader.mkUploader input ∅ (Some data)
                       (Bytes.len data) 0))
            (concat (Uploader.Parts <$> [Uploader.mkPage (Some 4) [part]])))
    as Hacc.
  { repeat constructor. exists "0-3", (Utils.mkRange 0 4).
    split; [reflexivity|]. split; [vm_compute; reflexivity|].
    split; [vm_compute; reflexivity|].
    split; eexists; vm_compute; reflexivity. }
  assert (forall o, o ∈ ({[0]} : gset Z) <->
            exists p,
              p ∈ concat (Uploader.Parts <$> [Uploader.mkPage (Some 4) [part]])
              /\ Reconcile.confirms
                   (Uploader.mkUploader input ∅ (Some data) (Bytes.len data) 0)
                   p o) as Hmarked.
  { intros o. rewrite elem_of_singleton. split.
    - intros ->. exists part. split; [now left|].
      exists "0-3", (Utils.mkRange 0 4),
        "9f86d081884c7d659a2feaa0c55ad015a3bf4f1b2b0b822cd15d6c15b0f00a08".
      repeat split; vm_compute; reflexivity.
    - intros (p & Hin & text & r & h & Htext & Hparse & Hoff & _).
      cbn in Hin. apply list_elem_of_singleton in Hin. subst p.
      injection Htext as <-. vm_compute in Hparse. injection Hparse as <-.
      now subst o. }
  assert (Utils.ComputeTreeHash data
          = Some "f82d2cab9dd463d8815593a3207ece0fd44fd227fd0b34c042f28251adbb84e8")
    as Hhash by (vm_compute; reflexivity).
  destruct (Upload_sends_unconfirmed svc data 4 2 input input
              [Uploader.mkPage (Some 4) [part]] {[0]} _
              Hdata Hp Hmax ltac:(lia) Hfuel Hid eq_refl Hsizes Hacc Hmarked
              Hhash) as (parts & Hrun & Hparts).
  exists parts. split; [exact Hrun|].
  etrans; [exact Hparts|]. vm_compute. reflexivity.
Defined.

(* ===================================================================== *)
(** * Further properties of the download coordinator *)
(* ===================================================================== *)

(** A write that ends inside the file replaces the bytes at its place
    and nothing else. *)
Lemma writeAt_inside data b off :
  0 <= off -> off + Bytes.len b <= Bytes.len data ->
  File.writeAt data b off
  = take (Z.to_nat off) data ++ b ++ drop (Z.to_nat off + length b) data.
Proof.
  intros Hoff Hend. unfold File.writeAt, Bytes.len in *.
  replace (Z.to_nat (off - Z.of_nat (length data))) with 0%nat by lia.
  cbn [repeat]. rewrite app_nil_r, takeZ_take, dropZ_drop.
  now replace (Z.to_nat (off + Z.of_nat (length b)))
    with (Z.to_nat off + length b)%nat by lia.
Qed.

Lemma writeAt_length data b off :
  0 <= off -> off + Bytes.len b <= Bytes.len data ->
  length (File.writeAt data b off) = length data.
Proof.
  intros Hoff Hend. rewrite writeAt_inside by assumption.
  unfold Bytes.len in Hend.
  rewrite !length_app, length_take, length_drop. lia.
Qed.

Lemma writeAt_section data b off :
  0 <= off -> off + Bytes.len b <= Bytes.len data ->
  File.section (Some (File.writeAt data b off)) off (Bytes.len b) = b.
Proof.
  intros Hoff Hend. rewrite section_slice by assumption.
  rewrite writeAt_inside by assumption. unfold Bytes.len in *.
  rewrite drop_app_length' by (rewrite length_take; lia).
  rewrite Nat2Z.id. now rewrite take_app_length.
Qed.

Lemma writeAt_outside data b off (i : nat) :
  0 <= off -> off + Bytes.len b <= Bytes.len data ->
  (Z.of_nat i < off \/ off + Bytes.len b <= Z.of_nat i) ->
  File.writeAt data b off !! i = data !! i.
Proof.
  intros Hoff Hend Hi. rewrite writeAt_inside by assumption.
  unfold Bytes.len in *.
  assert (length (take (Z.to_nat off) data) = Z.to_nat off) as Hlen
    by (rewrite length_take; lia).
  destruct Hi as [Hi|Hi].
  - rewrite lookup_app_l by lia. apply lookup_take_lt. lia.
  - rewrite lookup_app_r by lia. rewrite lookup_app_r by lia.
    rewrite lookup_drop. f_equal. lia.
Qed.

Lemma downloadPart_succeeds svc d r d' :
  Downloader.downloadPart svc d r = Ok d' ->
  exists result data,
    Downloader.GetJobOutput svc (Downloader.input d)
      ("bytes=" +:+ Utils.String r) = inl result
    /\ Bytes.len (Downloader.Body result) = Utils.Limit r
    /\ (forall checksum, Downloader.Checksum result = Some checksum ->
          Utils.ComputeTreeHash (Downloader.Body result) = Some checksum)
    /\ 0 <= Utils.Offset r
    /\ Downloader.file d = Some data
    /\ Downloader.file d'
       = Some (File.writeAt data (Downloader.Body result) (Utils.Offset r)).
Proof.
  unfold Downloader.downloadPart.
  destruct (Downloader.GetJobOutput _ _ _) as [result|err]; [|discriminate].
  destruct (Bytes.len (Downloader.Body result) =? Utils.Limit r) eqn:Hlen;
    [|discriminate].
  apply Z.eqb_eq in Hlen. cbn [negb].
  destruct (Downloader.checkChecksum result) as [[]| | |] eqn:Hsum;
    try discriminate.
  cbn [mbind outcome_bind]. unfold Downloader.writePart.
  destruct (Downloader.file d) as [data|]; [|discriminate].
  destruct (Utils.Offset r <? 0) eqn:Hoff; [discriminate|].
  apply Z.ltb_ge in Hoff.
  destruct (negb _); [discriminate|]. intros [= <-].
  exists result, data. repeat split; try assumption.
  intros checksum Hc. unfold Downloader.checkChecksum in Hsum.
  rewrite Hc in Hsum.
  destruct (Utils.ComputeTreeHash _) as [treeHash|]; [|discriminate].
  destruct (decide (checksum = treeHash)); [congruence|discriminate].
Qed.

(** X12. When [downloadPart] returns without error for a range that ends
    inside the output file, the service answered the request for
    ["bytes=first-last"] with exactly [Limit] bytes whose tree hash is
    the checksum of the answer, if it carried one; afterwards the file
    has the same length, reads back the received bytes at the range, and
    is unchanged everywhere else. *)
Theorem downloadPart_writes (svc : Downloader.Service)
    (d d' : Downloader.Downloader) (r : Utils.Range) :
  Downloader.downloadPart svc d r = Ok d' ->
  Utils.Offset r + Utils.Limit r
  <= Bytes.len (File.contents (Downloader.file d)) ->
  exists result,
    Downloader.GetJobOutput svc (Downloader.input d)
      ("bytes=" +:+ Utils.String r) = inl result
    /\ Bytes.len (Downloader.Body result) = Utils.Limit r
    /\ (forall checksum, Downloader.Checksum result = Some checksum ->
          Utils.ComputeTreeHash (Downloader.Body result) = Some checksum)
    /\ length (File.contents (Downloader.file d'))
       = length (File.contents (Downloader.file d))
    /\ File.section (Downloader.file d') (Utils.Offset r) (Utils.Limit r)
       = Downloader.Body result
    /\ forall i : nat,
         Z.of_nat i < Utils.Offset r
         \/ Utils.Offset r + Utils.Limit r <= Z.of_nat i ->
         File.contents (Downloader.file d') !! i
         = File.contents (Downloader.file d) !! i.
Proof.
  intros Hrun Hend.
  apply downloadPart_succeeds in Hrun
    as (result & data & Hsend & Hlen & Hsum & Hoff & Hfile & Hfile').
  rewrite Hfile in Hend. rewrite Hfile, Hfile'. cbn [File.contents] in *.
  exists result. rewrite <- Hlen in Hend |- *.
  split; [exact Hsend|]. split; [reflexivity|]. split; [exact Hsum|].
  split; [now apply writeAt_length|].
  split; [now apply writeAt_section|].
  intros i Hi. now apply writeAt_outside.
Qed.

(** The second half of an eight-byte file, written by one part. *)
Lemma downloadPart_writes_witness :
  let svc :=
    Downloader.mkService
      (fun _ => inr "unused")
      (fun _ _ => inl (Downloader.mkOutput (list_byte_of_string "abcd") None)) in
  let input := Downloader.mkInput "-" "vault" "file" "job" 4 in
  let d := Downloader.mkDownloader input (Some (repeat x00 8)) None 8 8 in
  let d' :=
    Downloader.mkDownloader input
      (Some (repeat x00 4 ++ list_byte_of_string "abcd")) None 8 8 in
  let r := Utils.mkRange 4 4 in
  exists result,
    Downloader.GetJobOutput svc (Downloader.input d)
      ("bytes=" +:+ Utils.String r) = inl result
    /\ Bytes.len (Downloader.Body result) = Utils.Limit r
    /\ (forall checksum, Downloader.Checksum result = Some checksum ->
          Utils.ComputeTreeHash (Downloader.Body result) = Some checksum)
    /\ length (File.contents (Downloader.file d'))
       = length (File.contents (Downloader.file d))
    /\ File.section (Downloader.file d') (Utils.Offset r) (Utils.Limit r)
       = Downloader.Body result
    /\ forall i : nat,
         Z.of_nat i < Utils.Offset r
         \/ Utils.Offset r + Utils.Limit r <= Z.of_nat i ->
         File.contents (Downloader.file d') !! i
         = File.contents (Downloader.file d) !! i.
Proof.
  cbv zeta.
  apply (downloadPart_writes
           (Downloader.mkService
              (fun _ => inr "unused")
              (fun _ _ =>
                 inl (Downloader.mkOutput (list_byte_of_string "abcd") None)))
           (Downloader.mkDownloader
              (Downloader.mkInput "-" "vault" "file" "job" 4)
              (Some (repeat x00 8)) None 8 8)
           (Downloader.mkDownloader
              (Downloader.mkInput "-" "vault" "file" "job" 4)
              (Some (repeat x00 4 ++ list_byte_of_string "abcd")) None 8 8)
           (Utils.mkRange 4 4)).
  - vm_compute. reflexivity.
  - vm_compute. discriminate.
Defined.

(** ** A whole download *)

(** Writing the next slice of the archive over a file that already
    holds the slices before it. *)
Lemma writeAt_slice (archive data0 : list byte) (o n : nat) :
  length data0 = length archive -> (o + n <= length archive)%nat ->
  File.writeAt (take o archive ++ drop o data0) (take n (drop o archive))
    (Z.of_nat o)
  = take (o + n) archive ++ drop (o + n) data0.
Proof.
  intros Hlen Hend.
  assert (length (take o archive) = o) as Ho by (rewrite length_take; lia).
  assert (length (take n (drop o archive)) = n) as Hn
    by (rewrite length_take, length_drop; lia).
  rewrite writeAt_inside.
  - rewrite Nat2Z.id, Hn.
    rewrite take_app_length' by (symmetry; exact Ho).
    rewrite drop_app_ge by lia. rewrite Ho, drop_drop.
    replace (o + (o + n - o))%nat with (o + n)%nat by lia.
    rewrite app_assoc. now rewrite take_take_drop.
  - lia.
  - unfold Bytes.len. rewrite Hn, length_app, Ho, length_drop. lia.
Qed.

(** With a worker and a service that holds the archive, the dispatch
    loop fills the file slice by slice and logs no error. *)
Lemma Downloader_dispatch_reassembles svc jobs archive data0 partSize
    (m : nat) : forall (k : nat) d fuel,
  0 < Bytes.len archive -> 1 <= partSize ->
  Parts.count (Bytes.len archive) partSize * partSize <= Int64.max_int ->
  Downloader.size d = Bytes.len archive ->
  Downloader.PartSize (Downloader.input d) = partSize ->
  Downloader.offset d = Z.of_nat k * partSize ->
  Z.of_nat (k + m) = Parts.count (Bytes.len archive) partSize ->
  (m < fuel)%nat -> 0 < jobs ->
  length data0 = length archive ->
  Downloader.file d
  = Some (take (Z.to_nat (Z.of_nat k * partSize)) archive
          ++ drop (Z.to_nat (Z.of_nat k * partSize)) data0) ->
  (forall i : nat,
     Z.of_nat i < Parts.count (Bytes.len archive) partSize ->
     Archive.serves svc (Downloader.input d) archive
       (Parts.part (Bytes.len archive) partSize i)) ->
  exists d',
    Downloader.dispatch svc fuel jobs d
    = (Ok d', (fun r => (r, None))
              <$> (Parts.part (Bytes.len archive) partSize <$> seq k m))
    /\ Downloader.file d' = Some archive
    /\ Downloader.treeHash d' = Downloader.treeHash d.
Proof.
  induction m as [|m IH];
    intros k d fuel Hs Hp Hmax Hsize Hpart Hoff Hkm Hfuel Hjobs Hlen Hfile
      Hserves;
    (destruct fuel as [|fuel]; [lia|]);
    rewrite Downloader_dispatch_unfold, Downloader_getNextRange_step,
      Hsize, Hpart, Hoff;
    destruct (count_bounds _ _ Hs Hp) as (Hn & Hlo & Hhi).
  - replace (Z.of_nat k) with (Parts.count (Bytes.len archive) partSize)
      by lia.
    rewrite step_end by assumption.
    exists d. split; [reflexivity|]. split; [|reflexivity].
    rewrite Hfile. unfold Bytes.len in *.
    rewrite take_ge by nia. rewrite drop_ge by nia. now rewrite app_nil_r.
  - rewrite step_inside by (assumption || lia).
    destruct (jobs =? 0) eqn:E; [apply Z.eqb_eq in E; lia|].
    set (r := Parts.part (Bytes.len archive) partSize k).
    set (d1 := Downloader.with_offset d (Z.of_nat (S k) * partSize)).
    assert (Z.of_nat k * partSize < Bytes.len archive) as Hin by nia.
    destruct (Hserves k ltac:(lia)) as (result & Hsend & Hbody & Hsum).
    fold r in Hsend, Hbody.
    destruct (section_part archive partSize k Hp Hin) as (Hne & Hblen & _).
    fold r in Hne, Hblen. cbv zeta in Hne, Hblen.
    assert (Utils.Offset r = Z.of_nat k * partSize) as Hro by reflexivity.
    assert (0 <= Utils.Limit r
            /\ Utils.Offset r + Utils.Limit r <= Bytes.len archive
            /\ (Utils.Offset r + Utils.Limit r = Z.of_nat (S k) * partSize
                \/ Utils.Offset r + Utils.Limit r = Bytes.len archive
                   /\ Bytes.len archive <= Z.of_nat (S k) * partSize))
      as (Hl0 & Hend & Hnext).
    { unfold r, Parts.part. cbn [Utils.Offset Utils.Limit]. lia. }
    set (o := Z.to_nat (Z.of_nat k * partSize)).
    set (n := Z.to_nat (Utils.Limit r)).
    assert (Downloader.downloadPart svc d1 r
            = Ok (Downloader.with_file d1
                    (Some (take (o + n) archive ++ drop (o + n) data0))))
      as Hrun.
    { unfold Downloader.downloadPart.
      change (Downloader.input d1) with (Downloader.input d).
      rewrite Hsend, Hbody, Hblen, Z.eqb_refl. cbn [negb].
      assert (Downloader.checkChecksum result = Ok tt) as ->.
      { unfold Downloader.checkChecksum.
        destruct Hsum as [-> | ->]; [reflexivity|]. rewrite Hbody.
        destruct (ComputeTreeHash_Some _ Hne) as (treeHash & ->).
        destruct (decide (treeHash = treeHash)); [reflexivity|congruence]. }
      cbn [mbind outcome_bind]. unfold Downloader.writePart.
      change (Downloader.file d1) with (Downloader.file d). rewrite Hfile.
      destruct (Utils.Offset r <? 0) eqn:E0; [apply Z.ltb_lt in E0; lia|].
      rewrite Hblen, Z.eqb_refl. cbn [negb]. do 3 f_equal.
      rewrite section_slice by lia. rewrite Hro. fold o n.
      replace (Z.of_nat k * partSize) with (Z.of_nat o) by (unfold o; lia).
      apply writeAt_slice; [exact Hlen|]. unfold Bytes.len in Hend. lia. }
    rewrite Hrun, traced_bind_unfold. unfold send. cbn [fst snd].
    destruct (IH (S k)
                (Downloader.with_file d1
                   (Some (take (o + n) archive ++ drop (o + n) data0)))
                fuel)
      as (d' & Hrest & Hfile' & Hhash'); try assumption; try reflexivity;
      try lia.
    + cbn [Downloader.file Downloader.with_file]. f_equal.
      unfold Bytes.len in *.
      destruct Hnext as [Hnext|[Hnext Hover]].
      * now replace (Z.to_nat (Z.of_nat (S k) * partSize)) with (o + n)%nat
          by lia.
      * rewrite !take_ge by lia. now rewrite !drop_ge by lia.
    + exists d'. rewrite Hrest. cbn [fst snd seq fmap list_fmap app].
      split; [reflexivity|]. split; [exact Hfile'|exact Hhash'].
Qed.

(** X13. A whole download of an archive of [S > 0] bytes in parts of
    [P >= 1] bytes, with at least one worker and no overflow of the
    cursor ([ceil(S/P) * P <= 2^63 - 1]), into a file that does not
    exist yet. When the job is a succeeded archive retrieval of [S]
    bytes with a tree hash, and the service answers each part's request
    with the bytes of that range of the archive (and with their tree
    hash as checksum if it gives one), [Download] logs every part once
    as downloaded without error, in some order; when the dispatch
    returns, the output file holds exactly the archive, the parts not
    overlapping; and [Download] returns no error if the tree hash of
    the archive is the one the job recorded, and the error "hash
    mismatch" otherwise. *)
Theorem Download_reassembles (svc : Downloader.Service) (fuel : nat)
    (jobs : Z) (input : Downloader.Input) (archive : list byte)
    (job : Downloader.DescribeJobOutput) (hash : string) :
  let P := Downloader.PartSize input in
  let S := Bytes.len archive in
  let log :=
    (fun r => (r, None))
    <$> (Parts.part S P <$> seq 0 (Z.to_nat (Parts.count S P))) in
  archive <> [] -> 1 <= P ->
  Parts.count S P * P <= Int64.max_int ->
  1 <= jobs -> (Z.to_nat (Parts.count S P) < fuel)%nat ->
  Downloader.DescribeJob svc input = inl job ->
  Downloader.Action job = "ArchiveRetrieval" ->
  Downloader.StatusCode job = "Succeeded" ->
  Downloader.ArchiveSizeInBytes job = Some S ->
  Downloader.SHA256TreeHash job = Some hash ->
  (forall i : nat, Z.of_nat i < Parts.count S P ->
     Archive.serves svc input archive (Parts.part S P i)) ->
  exists computed d4 done,
    Utils.ComputeTreeHash archive = Some computed
    /\ Downloader.multipartDownload svc fuel jobs
         (Downloader.mkDownloader input (Some (File.truncate [] S))
            (Some hash) S 0)
       = (Ok d4, done)
    /\ done ≡ₚ log
    /\ Downloader.file d4 = Some archive
    /\ Downloader.Download svc Downloader.Free fuel jobs
         (Downloader.New input)
       = (if decide (computed = hash) then Ok tt else Err "hash mismatch",
          done).
Proof.
  intros P S log Hne Hp Hmax Hjobs Hfuel Hjob Haction Hstatus Hsize Hhash
    Hserves.
  assert (0 < S) as Hs
    by (destruct archive; [congruence|unfold S, Bytes.len; simpl; lia]).
  destruct (count_bounds _ _ Hs Hp) as (Hn & _ & _).
  destruct (ComputeTreeHash_Some _ Hne) as (computed & Hcomputed).
  set (d3 := Downloader.mkDownloader input (Some (File.truncate [] S))
               (Some hash) S 0).
  assert (File.truncate [] S = repeat x00 (length archive)) as Hzero.
  { unfold File.truncate, S, Bytes.len. cbn [Bytes.takeZ app length].
    f_equal. lia. }
  assert (Downloader.file d3
          = Some (take (Z.to_nat (Z.of_nat 0 * P)) archive
                  ++ drop (Z.to_nat (Z.of_nat 0 * P))
                       (repeat x00 (length archive)))) as Hfile0
    by (cbn [Downloader.file d3]; rewrite Hzero; reflexivity).
  assert (Z.of_nat (0 + Z.to_nat (Parts.count S P)) = Parts.count S P)
    as Hkm by lia.
  destruct (Downloader_dispatch_reassembles svc jobs archive
              (repeat x00 (length archive)) P
              (Z.to_nat (Parts.count S P)) 0%nat d3 fuel
              Hs Hp Hmax eq_refl eq_refl eq_refl Hkm Hfuel
              ltac:(lia) (repeat_length _ _) Hfile0 Hserves)
    as (d4 & Hrun & Hfile & Htree).
  assert (Downloader.multipartDownload svc fuel jobs d3 = (Ok d4, log))
    as Hmulti.
  { unfold Downloader.multipartDownload.
    destruct (jobs <? 0) eqn:E; [apply Z.ltb_lt in E; lia|]. exact Hrun. }
  exists computed, d4, log. split; [exact Hcomputed|].
  split; [exact Hmulti|]. split; [reflexivity|]. split; [exact Hfile|].
  rewrite Download_unfold.
  assert (Downloader.checkJob svc (Downloader.New input)
          = Ok (Downloader.mkDownloader input None (Some hash) S 0)) as ->.
  { unfold Downloader.checkJob. cbn [Downloader.input Downloader.New].
    rewrite Hjob, Haction, Hstatus, Hhash, Hsize. reflexivity. }
  cbn [mbind outcome_bind Downloader.openFile].
  unfold Downloader.truncate.
  cbn [Downloader.size Downloader.with_file Downloader.file
       Downloader.input Downloader.treeHash Downloader.offset File.contents].
  destruct (S <? 0) eqn:E; [apply Z.ltb_lt in E; lia|].
  change (Downloader.with_file _ (Some (File.truncate [] S))) with d3.
  rewrite traced_bind_unfold, Hmulti. cbn [fst snd].
  unfold Downloader.checkTreeHash. rewrite Hfile, Htree.
  cbn [File.contents Downloader.treeHash d3]. rewrite Hcomputed.
  unfold quiet. cbn [fst snd]. rewrite app_nil_r.
  destruct (decide (computed = hash)); reflexivity.
Qed.

(** Eleven bytes fetched in three parts from a service that holds them
    and gives a checksum for the first part only. *)
Lemma Download_reassembles_witness :
  let svc :=
    Downloader.mkService
      (fun _ =>
         inl (Downloader.mkJob "ArchiveRetrieval" "Succeeded" None (Some 11)
                (Some "f82d2cab9dd463d8815593a3207ece0fd44fd227fd0b34c042f28251adbb84e8")))
      (fun _ range =>
         if String.eqb range "bytes=0-3" then
           inl (Downloader.mkOutput (list_byte_of_string "test")
                  (Some "9f86d081884c7d659a2feaa0c55ad015a3bf4f1b2b0b822cd15d6c15b0f00a08"))
         else if String.eqb range "bytes=4-7" then
           inl (Downloader.mkOutput (list_byte_of_string "_upl") None)
         else if String.eqb range "bytes=8-10" then
           inl (Downloader.mkOutput (list_byte_of_string "oad") None)
         else inr "no such range") in
  let input := Downloader.mkInput "-" "vault" "file" "job" 4 in
  exists done,
    Downloader.Download svc Downloader.Free 4 2 (Downloader.New input)
    = (Ok tt, done)
    /\ done ≡ₚ [(Utils.mkRange 0 4, None); (Utils.mkRange 4 4, None);
                (Utils.mkRange 8 3, None)].
Proof.
  cbv zeta.
  set (svc := Downloader.mkService _ _).
  set (input := Downloader.mkInput _ _ _ _ _).
  set (archive := list_byte_of_string "test_upload").
  set (job := Downloader.mkJob "ArchiveRetrieval" "Succeeded" None (Some 11)
                (Some "f82d2cab9dd463d8815593a3207ece0fd44fd227fd0b34c042f28251adbb84e8")).
  assert (archive <> []) as Hne by discriminate.
  assert (1 <= Downloader.PartSize input) as Hp by (cbn; lia).
  assert (Parts.count (Bytes.len archive) (Downloader.PartSize input) = 3)
    as Hcount by (vm_compute; reflexivity).
  assert (Parts.count (Bytes.len archive) (Downloader.PartSize input)
          * Downloader.PartSize input <= Int64.max_int) as Hmax
    by (vm_compute; discriminate).
  assert (Z.to_nat (Parts.count (Bytes.len archive)
                      (Downloader.PartSize input)) < 4)%nat as Hfuel
    by (rewrite Hcount; lia).
  assert (forall i : nat,
            Z.of_nat i < Parts.count (Bytes.len archive)
                           (Downloader.PartSize input) ->
            Archive.serves svc input archive
              (Parts.part (Bytes.len archive) (Downloader.PartSize input) i))
    as Hserves.
  { intros i Hi. rewrite Hcount in Hi.
    destruct i as [|[|[|i]]]; [| | |lia];
      (eexists; split; [vm_compute; reflexivity|];
       split; [vm_compute; reflexivity|]).
    - right. vm_compute. reflexivity.
    - left. reflexivity.
    - left. reflexivity. }
  destruct (Download_reassembles svc 4 2 input archive job
              "f82d2cab9dd463d8815593a3207ece0fd44fd227fd0b34c042f28251adbb84e8"
              Hne Hp Hmax ltac:(lia) Hfuel eq_refl eq_refl eq_refl eq_refl
              eq_refl Hserves)
    as (computed & d4 & done & Hcomputed & _ & Hdone & _ & Hrun).
  exists done. rewrite Hrun.
  vm_compute in Hcomputed. injection Hcomputed as <-.
  split; [reflexivity|].
  etrans; [exact Hdone|]. vm_compute. reflexivity.
Defined.

(** ** What a download needs *)

Lemma checkJob_succeeds svc d d1 :
  Downloader.checkJob svc d = Ok d1 ->
  exists job hash archiveSize,
    Downloader.DescribeJob svc (Downloader.input d) = inl job
    /\ Downloader.Action job = "ArchiveRetrieval"
    /\ Downloader.StatusCode job = "Succeeded"
    /\ Downloader.SHA256TreeHash job = Some hash
    /\ Downloader.ArchiveSizeInBytes job = Some archiveSize
    /\ d1 = Downloader.mkDownloader (Downloader.input d) (Downloader.file d)
              (Some hash) archiveSize (Downloader.offset d).
Proof.
  unfold Downloader.checkJob.
  destruct (Downloader.DescribeJob svc (Downloader.input d)) as [job|err];
    [|discriminate].
  destruct (String.eqb (Downloader.Action job) "ArchiveRetrieval") eqn:Ha;
    [|discriminate].
  apply String.eqb_eq in Ha. cbn [negb].
  destruct (String.eqb (Downloader.StatusCode job) "Succeeded") eqn:Hs.
  2:{ cbn [negb].
      destruct (String.eqb (Downloader.StatusCode job) "InProgress");
        [discriminate|].
      destruct (String.eqb (Downloader.StatusCode job) "Failed");
        [|discriminate].
      destruct (Downloader.StatusMessage job); discriminate. }
  apply String.eqb_eq in Hs. cbn [negb].
  destruct (Downloader.SHA256TreeHash job) as [hash|] eqn:Hh; [|discriminate].
  destruct (Downloader.ArchiveSizeInBytes job) as [archiveSize|] eqn:Hsz;
    [|discriminate].
  intros [= <-]. exists job, hash, archiveSize. repeat split; assumption.
Qed.

(** The state in which [Download] starts the dispatch of the parts. *)
Lemma Download_prepares svc dest d d3 :
  (d1 ← Downloader.checkJob svc d;
   d2 ← Downloader.openFile dest d1;
   Downloader.truncate d2) = Ok d3 ->
  dest = Downloader.Free
  /\ exists job hash archiveSize,
       Downloader.DescribeJob svc (Downloader.input d) = inl job
       /\ Downloader.Action job = "ArchiveRetrieval"
       /\ Downloader.StatusCode job = "Succeeded"
       /\ Downloader.SHA256TreeHash job = Some hash
       /\ Downloader.ArchiveSizeInBytes job = Some archiveSize
       /\ 0 <= archiveSize
       /\ d3 = Downloader.mkDownloader (Downloader.input d)
                 (Some (File.truncate [] archiveSize)) (Some hash)
                 archiveSize (Downloader.offset d).
Proof.
  destruct (Downloader.checkJob svc d) as [d1| | |] eqn:Hjob;
    try discriminate.
  cbn [mbind outcome_bind].
  apply checkJob_succeeds in Hjob
    as (job & hash & archiveSize & Hsend & Ha & Hs & Hh & Hsz & ->).
  destruct dest as [| |msg]; try discriminate.
  cbn [Downloader.openFile mbind outcome_bind]. unfold Downloader.truncate.
  cbn [Downloader.size Downloader.with_file].
  destruct (archiveSize <? 0) eqn:E; [discriminate|]. apply Z.ltb_ge in E.
  intros [= <-]. split; [reflexivity|].
  exists job, hash, archiveSize. repeat split; assumption.
Qed.

Lemma Downloader_dispatch_attempts svc fuel jobs d :
  snd (Downloader.dispatch svc fuel jobs d) <> [] ->
  Downloader.offset d < Downloader.size d /\ jobs <> 0.
Proof.
  destruct fuel as [|fuel]; [intros H; now contradiction H|].
  rewrite Downloader_dispatch_unfold. unfold Downloader.getNextRange.
  destruct (Downloader.size d <=? Downloader.offset d) eqn:E;
    [intros H; now contradiction H|].
  apply Z.leb_gt in E.
  destruct (jobs =? 0) eqn:Ej; [intros H; now contradiction H|].
  apply Z.eqb_neq in Ej. auto.
Qed.

(** X14. [Download] attempts a part only after the job was described as a
    succeeded archive retrieval with a tree hash and a size beyond the
    cursor, the output file was created where no file existed, and with
    at least one worker: otherwise nothing is requested and the log of
    the parts stays empty. *)
Theorem Download_attempts_need (svc : Downloader.Service)
    (dest : Downloader.destination) (fuel : nat) (jobs : Z)
    (d : Downloader.Downloader) :
  snd (Downloader.Download svc dest fuel jobs d) <> [] ->
  dest = Downloader.Free
  /\ 0 < jobs
  /\ exists job hash archiveSize,
       Downloader.DescribeJob svc (Downloader.input d) = inl job
       /\ Downloader.Action job = "ArchiveRetrieval"
       /\ Downloader.StatusCode job = "Succeeded"
       /\ Downloader.SHA256TreeHash job = Some hash
       /\ Downloader.ArchiveSizeInBytes job = Some archiveSize
       /\ Downloader.offset d < archiveSize.
Proof.
  rewrite Download_unfold.
  destruct (d1 ← Downloader.checkJob svc d;
            d2 ← Downloader.openFile dest d1;
            Downloader.truncate d2) as [d3| | |] eqn:Hprep;
    try (intros H; now contradiction H).
  apply Download_prepares in Hprep
    as (-> & job & hash & archiveSize & Hsend & Ha & Hs & Hh & Hsz & _ & ->).
  rewrite traced_bind_unfold. unfold Downloader.multipartDownload.
  destruct (jobs <? 0) eqn:E; [intros H; now contradiction H|].
  apply Z.ltb_ge in E.
  set (d3 := Downloader.mkDownloader _ _ _ _ _).
  intros Hlog.
  assert (snd (Downloader.dispatch svc fuel jobs d3) <> []) as Hrun.
  { destruct (Downloader.dispatch svc fuel jobs d3) as [[d4| | |] log];
      cbn [fst snd quiet] in Hlog |- *; try exact Hlog.
    now rewrite app_nil_r in Hlog. }
  apply Downloader_dispatch_attempts in Hrun as [Hoff Hjobs].
  split; [reflexivity|]. split; [lia|].
  exists job, hash, archiveSize. repeat split; assumption.
Qed.

Lemma Download_attempts_need_witness :
  let svc :=
    Downloader.mkService
      (fun _ => inl (Downloader.mkJob "ArchiveRetrieval" "Succeeded" None (Some 4)
           (Some "df3f619804a92fdb4057192dc43dd748ea778adc52bc498ce80524c014b81119")))
      (fun _ _ => inr "connection reset") in
  let d := Downloader.New (Downloader.mkInput "-" "vault" "file" "job" 4) in
  Downloader.Free = Downloader.Free
  /\ 0 < 1
  /\ exists job hash archiveSize,
       Downloader.DescribeJob svc (Downloader.input d) = inl job
       /\ Downloader.Action job = "ArchiveRetrieval"
       /\ Downloader.StatusCode job = "Succeeded"
       /\ Downloader.SHA256TreeHash job = Some hash
       /\ Downloader.ArchiveSizeInBytes job = Some archiveSize
       /\ Downloader.offset d < archiveSize.
Proof.
  cbv zeta.
  apply (Download_attempts_need
           (Downloader.mkService
              (fun _ => inl (Downloader.mkJob "ArchiveRetrieval" "Succeeded"
                               None (Some 4)
                 (Some "df3f619804a92fdb4057192dc43dd748ea778adc52bc498ce80524c014b81119")))
              (fun _ _ => inr "connection reset"))
           Downloader.Free 2 1
           (Downloader.New (Downloader.mkInput "-" "vault" "file" "job" 4))).
  vm_compute. discriminate.
Defined.

(** X15. [Download] returns without error only if the job was described
    as a succeeded archive retrieval with a tree hash and a size that is
    not negative, the output file was created where no file existed, the
    number of workers was not negative, and, when the dispatch of the
    parts returned, the tree hash of the bytes of the output file was
    the tree hash recorded by the job. *)
Theorem Download_success_sound (svc : Downloader.Service)
    (dest : Downloader.destination) (fuel : nat) (jobs : Z)
    (d : Downloader.Downloader) (log : list Downloader.LogEntry) :
  Downloader.Download svc dest fuel jobs d = (Ok tt, log) ->
  dest = Downloader.Free
  /\ 0 <= jobs
  /\ exists job hash archiveSize d4,
       Downloader.DescribeJob svc (Downloader.input d) = inl job
       /\ Downloader.Action job = "ArchiveRetrieval"
       /\ Downloader.StatusCode job = "Succeeded"
       /\ Downloader.SHA256TreeHash job = Some hash
       /\ Downloader.ArchiveSizeInBytes job = Some archiveSize
       /\ 0 <= archiveSize
       /\ Downloader.multipartDownload svc fuel jobs
            (Downloader.mkDownloader (Downloader.input d)
               (Some (File.truncate [] archiveSize)) (Some hash)
               archiveSize (Downloader.offset d))
          = (Ok d4, log)
       /\ Utils.ComputeTreeHash (File.contents (Downloader.file d4))
          = Some hash.
Proof.
  rewrite Download_unfold.
  destruct (d1 ← Downloader.checkJob svc d;
            d2 ← Downloader.openFile dest d1;
            Downloader.truncate d2) as [d3| | |] eqn:Hprep;
    try discriminate.
  apply Download_prepares in Hprep
    as (-> & job & hash & archiveSize & Hsend & Ha & Hs & Hh & Hsz & Hpos
        & ->).
  rewrite traced_bind_unfold.
  set (d3 := Downloader.mkDownloader _ _ _ _ _).
  destruct (Downloader.multipartDownload svc fuel jobs d3)
    as [[d4| | |] log0] eqn:Hrun; try discriminate.
  cbn [fst snd quiet]. rewrite app_nil_r. intros [= Hcheck <-].
  assert (0 <= jobs) as Hjobs.
  { unfold Downloader.multipartDownload in Hrun.
    destruct (jobs <? 0) eqn:E; [discriminate Hrun|].
    now apply Z.ltb_ge in E. }
  assert (Downloader.treeHash d4 = Some hash) as Htree.
  { destruct (multipartDownload_log _ _ _ _ _ _ Hrun) as [_ Hkept].
    now destruct (Hkept d4 eq_refl) as (_ & -> & _). }
  split; [reflexivity|]. split; [exact Hjobs|].
  exists job, hash, archiveSize, d4.
  repeat split; try assumption.
  unfold Downloader.checkTreeHash in Hcheck. rewrite Htree in Hcheck.
  destruct (Utils.ComputeTreeHash _) as [computed|]; [|discriminate Hcheck].
  destruct (decide (computed = hash)) as [->|]; [reflexivity|discriminate].
Qed.

(** An archive of four zero bytes whose only part fails: the sized file
    already has the recorded tree hash. *)
Lemma Download_success_sound_witness :
  let svc :=
    Downloader.mkService
      (fun _ => inl (Downloader.mkJob "ArchiveRetrieval" "Succeeded" None (Some 4)
           (Some "df3f619804a92fdb4057192dc43dd748ea778adc52bc498ce80524c014b81119")))
      (fun _ _ => inr "connection reset") in
  let d := Downloader.New (Downloader.mkInput "-" "vault" "file" "job" 4) in
  let log := [(Utils.mkRange 0 4, Some "connection reset")] in
  Downloader.Free = Downloader.Free
  /\ 0 <= 1
  /\ exists job hash archiveSize d4,
       Downloader.DescribeJob svc (Downloader.input d) = inl job
       /\ Downloader.Action job = "ArchiveRetrieval"
       /\ Downloader.StatusCode job = "Succeeded"
       /\ Downloader.SHA256TreeHash job = Some hash
       /\ Downloader.ArchiveSizeInBytes job = Some archiveSize
       /\ 0 <= archiveSize
       /\ Downloader.multipartDownload svc 2 1
            (Downloader.mkDownloader (Downloader.input d)
               (Some (File.truncate [] archiveSize)) (Some hash)
               archiveSize (Downloader.offset d))
          = (Ok d4, log)
       /\ Utils.ComputeTreeHash (File.contents (Downloader.file d4))
          = Some hash.
Proof.
  cbv zeta.
  apply (Download_success_sound
           (Downloader.mkService
              (fun _ => inl (Downloader.mkJob "ArchiveRetrieval" "Succeeded"
                               None (Some 4)
                 (Some "df3f619804a92fdb4057192dc43dd748ea778adc52bc498ce80524c014b81119")))
              (fun _ _ => inr "connection reset"))
           Downloader.Free 2 1
           (Downloader.New (Downloader.mkInput "-" "vault" "file" "job" 4))
           [(Utils.mkRange 0 4, Some "connection reset")]).
  vm_compute. reflexivity.
Defined.

(** ** Runs without a worker *)

(** X16. With no worker, [Download] of an archive that has bytes beyond
    the cursor does not return: the first part is sent to a channel that
    nothing reads, after the output file was created, and no part is
    attempted. With a negative number of workers it panics instead. *)
Theorem Download_without_workers (svc : Downloader.Service) (fuel : nat)
    (jobs : Z) (d d1 : Downloader.Downloader) :
  Downloader.checkJob svc d = Ok d1 ->
  0 <= Downloader.offset d < Downloader.size d1 ->
  jobs <= 0 ->
  Downloader.Download svc Downloader.Free (S fuel) jobs d
  = (if jobs <? 0 then Panic else Hang, []).
Proof.
  intros Hjob Hoff Hjobs. rewrite Download_unfold, Hjob.
  apply checkJob_succeeds in Hjob
    as (job & hash & archiveSize & _ & _ & _ & _ & _ & ->).
  cbn [Downloader.size] in Hoff.
  cbn [mbind outcome_bind Downloader.openFile]. unfold Downloader.truncate.
  cbn [Downloader.size Downloader.with_file].
  destruct (archiveSize <? 0) eqn:E; [apply Z.ltb_lt in E; lia|].
  set (d3 := Downloader.with_file (Downloader.with_file _ _) _).
  rewrite traced_bind_unfold.
  assert (Downloader.multipartDownload svc (S fuel) jobs d3
          = (if jobs <? 0 then Panic else Hang, [])) as ->.
  { unfold Downloader.multipartDownload.
    destruct (jobs <? 0) eqn:Ej; [reflexivity|]. apply Z.ltb_ge in Ej.
    rewrite Downloader_dispatch_unfold. unfold Downloader.getNextRange.
    change (Downloader.size d3) with archiveSize.
    change (Downloader.offset d3) with (Downloader.offset d).
    destruct (archiveSize <=? Downloader.offset d) eqn:Eo;
      [apply Z.leb_le in Eo; lia|].
    destruct (jobs =? 0) eqn:E0; [reflexivity|apply Z.eqb_neq in E0; lia]. }
  destruct (jobs <? 0); reflexivity.
Qed.

Lemma Download_without_workers_witness :
  let svc :=
    Downloader.mkService
      (fun _ => inl (Downloader.mkJob "ArchiveRetrieval" "Succeeded" None (Some 4)
           (Some "df3f619804a92fdb4057192dc43dd748ea778adc52bc498ce80524c014b81119")))
      (fun _ _ => inl (Downloader.mkOutput (repeat x00 4) None)) in
  let d := Downloader.New (Downloader.mkInput "-" "vault" "file" "job" 4) in
  Downloader.Download svc Downloader.Free 2 0 d = (Hang, []).
Proof.
  cbv zeta.
  apply (Download_without_workers
           (Downloader.mkService
              (fun _ => inl (Downloader.mkJob "ArchiveRetrieval" "Succeeded"
                               None (Some 4)
                 (Some "df3f619804a92fdb4057192dc43dd748ea778adc52bc498ce80524c014b81119")))
              (fun _ _ => inl (Downloader.mkOutput (repeat x00 4) None)))
           1 0
           (Downloader.New (Downloader.mkInput "-" "vault" "file" "job" 4))
           (Downloader.mkDownloader
              (Downloader.mkInput "-" "vault" "file" "job" 4) None
              (Some "df3f619804a92fdb4057192dc43dd748ea778adc52bc498ce80524c014b81119")
              4 0)).
  - reflexivity.
  - cbn. lia.
  - lia.
Defined.

(* ===================================================================== *)
(** * A listing that declares another part size *)
(* ===================================================================== *)

Lemma all_ListParts sent :
  Forall (fun request => request = Uploader.ListPartsRequest) sent ->
  sent = replicate (length sent) Uploader.ListPartsRequest.
Proof.
  induction 1 as [|request sent -> _ IH]; [reflexivity|].
  simpl. now rewrite <- IH.
Qed.

(** The loop over the pages, cut at a page. *)
Lemma checkPages_app before : forall s rest,
  Uploader.checkPages s (before ++ rest)
  = match Uploader.checkPages s before with
    | (Ok s', sent) =>
        (fst (Uploader.checkPages s' rest),
         sent ++ snd (Uploader.checkPages s' rest))
    | other => other
    end.
Proof.
  induction before as [|page before IH]; intros s rest.
  - cbn. now destruct (Uploader.checkPages s rest).
  - cbn [app]. unfold Uploader.checkPages; fold Uploader.checkPages.
    rewrite (traced_bind_unfold (send Uploader.ListPartsRequest)).
    rewrite (traced_bind_unfold (send Uploader.ListPartsRequest)).
    unfold send. cbn [fst snd].
    destruct (Uploader.PartSizeInBytes page) as [declared|]; [|reflexivity].
    destruct (decide (declared = Uploader.PartSize (Uploader.input s)));
      [|reflexivity].
    rewrite !quiet_bind.
    destruct (Uploader.checkParts s (Uploader.Parts page)) as [s1| | |];
      try reflexivity.
    rewrite IH.
    destruct (Uploader.checkPages s1 before) as [[s'| | |] sent];
      cbn [fst snd]; reflexivity.
Qed.

(** A listing with a page of another part size is never accepted,
    whatever its other pages hold. *)
Lemma checkUploadedParts_rejects svc s pages pagerErr page declared :
  Uploader.ListParts svc (Uploader.input s) = (pages, pagerErr) ->
  page ∈ pages ->
  Uploader.PartSizeInBytes page = Some declared ->
  declared <> Uploader.PartSize (Uploader.input s) ->
  forall s', fst (Uploader.checkUploadedParts svc s) <> Ok s'.
Proof.
  intros Hlist Hin Hdecl Hne s' Hok.
  unfold Uploader.checkUploadedParts in Hok. rewrite Hlist in Hok.
  rewrite traced_bind_unfold in Hok.
  destruct (Uploader.checkPages s pages) as [[s1| | |] sent] eqn:Hpages;
    try discriminate Hok.
  apply checkPages_marks in Hpages as (Hsizes & _).
  rewrite Forall_forall in Hsizes. apply Hsizes in Hin. congruence.
Qed.

(** C5. Take an [Upload] run that gets as far as the listing of the
    parts (the file is opened, the upload id is there) and a listing,
    requested with the input of that run, of which some page declares a
    part size different from the configured one. Then the run does not
    succeed and sends neither a part upload request nor a completion
    request, whatever the other pages hold. And when the loop over the
    pages comes to that page, the pages before it checked without
    error, [checkUploadedParts] returns the error "part size mismatch"
    after one listing request for each page up to that one, and
    [Upload] returns that error with nothing sent after those
    requests. *)
Theorem Upload_part_size_mismatch (svc : Uploader.Service)
    (fs : Uploader.entry) (fuel : nat) (jobs : Z)
    (s s1 s2 : Uploader.Uploader) (sent1 : list Uploader.Request)
    (before after : list Uploader.ListPartsOutput)
    (page : Uploader.ListPartsOutput)
    (pagerErr : option string) (declared : Z) :
  Uploader.openFile fs s = Ok s1 ->
  Uploader.initiateUpload svc s1 = (Ok s2, sent1) ->
  Uploader.ListParts svc (Uploader.input s2)
  = (before ++ page :: after, pagerErr) ->
  Uploader.PartSizeInBytes page = Some declared ->
  declared <> Uploader.PartSize (Uploader.input s) ->
  (fst (Uploader.Upload svc fs fuel jobs s) <> Ok tt
   /\ (forall range,
         Uploader.UploadMultipartPartRequest range
         ∉ snd (Uploader.Upload svc fs fuel jobs s))
   /\ Uploader.CompleteMultipartUploadRequest
      ∉ snd (Uploader.Upload svc fs fuel jobs s))
  /\ (forall s' sent0,
        Uploader.checkPages s2 before = (Ok s', sent0) ->
        Uploader.checkUploadedParts svc s2
        = (Err "part size mismatch",
           replicate (S (length before)) Uploader.ListPartsRequest)
        /\ Uploader.Upload svc fs fuel jobs s
           = (Err "part size mismatch",
              sent1
              ++ replicate (S (length before)) Uploader.ListPartsRequest)).
Proof.
  intros Hopen Hinit Hlist Hdecl Hne.
  assert (Uploader.PartSize (Uploader.input s2)
          = Uploader.PartSize (Uploader.input s)) as Hp.
  { apply openFile_input in Hopen as (Hi & _).
    apply initiateUpload_state in Hinit as (Hp & _). congruence. }
  split.
  - destruct (Uploader.checkUploadedParts svc s2) as [res2 sent2] eqn:Hcheck.
    assert (forall s3, res2 <> Ok s3) as Hres.
    { intros s3 ->.
      apply (checkUploadedParts_rejects svc s2 _ _ page declared Hlist
               ltac:(apply elem_of_app; right; left) Hdecl
               ltac:(congruence) s3).
      now rewrite Hcheck. }
    pose proof (checkUploadedParts_sent _ _ _ _ Hcheck) as Hsent2.
    pose proof (initiateUpload_sent _ _ _ _ Hinit) as Hsent1.
    assert (Uploader.Upload svc fs fuel jobs s = (fst (Uploader.Upload svc fs fuel jobs s), sent1 ++ sent2)
            /\ fst (Uploader.Upload svc fs fuel jobs s) <> Ok tt)
      as [Hrun Hfail].
    { rewrite Upload_unfold, Hopen, traced_bind_unfold, Hinit.
      cbn [fst snd]. rewrite traced_bind_unfold, Hcheck.
      destruct res2 as [s3| | |]; [now contradiction (Hres s3)|..];
        split; try reflexivity; discriminate. }
    split; [exact Hfail|]. rewrite Hrun. cbn [snd].
    rewrite Forall_forall in Hsent2.
    split.
    + intros range Hin. apply elem_of_app in Hin as [Hin|Hin].
      * destruct Hsent1 as [-> | ->]; revert Hin; absent.
      * apply Hsent2 in Hin. discriminate.
    + intros Hin. apply elem_of_app in Hin as [Hin|Hin].
      * destruct Hsent1 as [-> | ->]; revert Hin; absent.
      * apply Hsent2 in Hin. discriminate.
  - intros s' sent0 Hbefore.
    pose proof (checkPages_state _ _ _ _ Hbefore)
      as (_ & _ & _ & Hi & _ & Hall).
    apply all_ListParts in Hall.
    apply checkPages_marks in Hbefore as Hmarks.
    destruct Hmarks as (_ & _ & _ & Hlen).
    assert (Uploader.checkUploadedParts svc s2
            = (Err "part size mismatch",
               replicate (S (length before)) Uploader.ListPartsRequest))
      as Hcheck.
    { unfold Uploader.checkUploadedParts. rewrite Hlist.
      rewrite checkPages_app, Hbefore.
      unfold Uploader.checkPages at 1 2; fold Uploader.checkPages.
      rewrite !traced_bind_unfold. unfold send. cbn [fst snd].
      rewrite Hdecl, Hi.
      destruct (decide (declared = Uploader.PartSize (Uploader.input s2)));
        [congruence|].
      cbn [quiet fst snd]. rewrite Hall, Hlen.
      replace (S (length before)) with (length before + 1)%nat by lia.
      now rewrite replicate_add. }
    split; [exact Hcheck|].
    eapply Upload_reconciliation_fails; eassumption.
Qed.

(** Two pages: the first declares the configured part size and lists
    the first part, intact; the second declares another size. *)
Lemma Upload_part_size_mismatch_witness :
  let part :=
    Uploader.mkPart (Some "0-3")
      (Some "9f86d081884c7d659a2feaa0c55ad015a3bf4f1b2b0b822cd15d6c15b0f00a08") in
  let svc :=
    Uploader.mkService
      (fun _ => inl (Some "id"))
      (fun input =>
         if String.eqb (Uploader.UploadId input) "id"
         then ([Uploader.mkPage (Some 4) [part];
                Uploader.mkPage (Some 8) []], None)
         else ([], Some "no such upload"))
      (fun _ _ _ _ => None)
      (fun _ _ _ => inl (Some "location")) in
  let s := Uploader.New (Uploader.mkInput "-" "vault" "file" "" 4) in
  Uploader.Upload svc (Uploader.Regular (list_byte_of_string "test_upload"))
    4 2 s
  = (Err "part size mismatch",
     [Uploader.InitiateMultipartUploadRequest;
      Uploader.ListPartsRequest; Uploader.ListPartsRequest]).
Proof.
  cbv zeta.
  set (part := Uploader.mkPart _ _).
  set (svc := Uploader.mkService _ _ _ _).
  set (s := Uploader.New _).
  set (fs := Uploader.Regular _).
  eassert (Uploader.openFile fs s = Ok _) as Hopen by reflexivity.
  match type of Hopen with
  | _ = Ok ?s1 =>
      eassert (Uploader.initiateUpload svc s1 = (Ok _, _)) as Hinit
        by reflexivity
  end.
  match type of Hinit with
  | _ = (Ok ?s2, _) =>
      assert (Uploader.ListParts svc (Uploader.input s2)
              = ([Uploader.mkPage (Some 4) [part]]
                 ++ Uploader.mkPage (Some 8) [] :: [], None)) as Hlist
        by reflexivity;
      eassert (Uploader.checkPages s2 [Uploader.mkPage (Some 4) [part]]
               = (Ok _, _)) as Hbefore by (vm_compute; reflexivity)
  end.
  assert (8 <> Uploader.PartSize (Uploader.input s)) as Hne
    by (cbn; lia).
  destruct (Upload_part_size_mismatch svc fs 4 2 s _ _ _ _ _ _ None 8
              Hopen Hinit Hlist eq_refl Hne) as [_ Hreached].
  destruct (Hreached _ _ Hbefore) as [_ Hrun].
  exact Hrun.
Defined.

(* ===================================================================== *)
(** * A job description without its message or its size *)
(* ===================================================================== *)

(** C6. [checkJob] dereferences the status message of a failed job and
    the archive size of a succeeded one without looking whether they
    are there, unlike the tree hash next to them. For an archive
    retrieval that [DescribeJob] returns without a transport error: a
    failed job without a status message makes [checkJob] panic, where an
    error that surfaces the failure is due; and a succeeded job with a
    tree hash and without an archive size makes it panic, where the
    size is to be recorded. *)
Theorem checkJob_failed_without_message (svc : Downloader.Service)
    (d : Downloader.Downloader) (job : Downloader.DescribeJobOutput) :
  Downloader.DescribeJob svc (Downloader.input d) = inl job ->
  Downloader.Action job = "ArchiveRetrieval" ->
  (Downloader.StatusCode job = "Failed" ->
   Downloader.StatusMessage job = None ->
   Downloader.checkJob svc d = Panic)
  /\ (Downloader.StatusCode job = "Succeeded" ->
      forall hash,
        Downloader.SHA256TreeHash job = Some hash ->
        Downloader.ArchiveSizeInBytes job = None ->
        Downloader.checkJob svc d = Panic).
Proof.
  intros Hsend Haction. unfold Downloader.checkJob.
  rewrite Hsend, Haction.
  change (String.eqb "ArchiveRetrieval" "ArchiveRetrieval") with true.
  cbn [negb]. split.
  - intros -> ->. reflexivity.
  - intros -> hash -> ->. reflexivity.
Qed.

(** A failed archive retrieval described without a message. *)
Lemma checkJob_failed_without_message_witness :
  let svc :=
    Downloader.mkService
      (fun _ => inl (Downloader.mkJob "ArchiveRetrieval" "Failed" None
                                      None None))
      (fun _ _ => inr "unused") in
  let d := Downloader.New (Downloader.mkInput "-" "vault" "file" "job" 4) in
  Downloader.checkJob svc d = Panic.
Proof.
  cbv zeta.
  apply (checkJob_failed_without_message
           (Downloader.mkService
              (fun _ => inl (Downloader.mkJob "ArchiveRetrieval" "Failed"
                                              None None None))
              (fun _ _ => inr "unused"))
           (Downloader.New (Downloader.mkInput "-" "vault" "file" "job" 4))
           (Downloader.mkJob "ArchiveRetrieval" "Failed" None None None)
           eq_refl eq_refl);
    reflexivity.
Defined.

(* ===================================================================== *)
(** * The final verification of a download *)
(* ===================================================================== *)

(** Whether [downloadPart] fails, and with which error, depends on the
    input and on there being an open file, not on what the file holds. *)
Lemma downloadPart_failure svc d d' r :
  Downloader.input d = Downloader.input d' ->
  is_Some (Downloader.file d) -> is_Some (Downloader.file d') ->
  failure (Downloader.downloadPart svc d r)
  = failure (Downloader.downloadPart svc d' r).
Proof.
  intros Hi [data Hf] [data' Hf']. unfold Downloader.downloadPart.
  rewrite Hi.
  destruct (Downloader.GetJobOutput _ _ _) as [result|err]; [|reflexivity].
  destruct (negb _); [reflexivity|].
  destruct (Downloader.checkChecksum result) as [[]| | |]; try reflexivity.
  cbn [mbind outcome_bind]. unfold Downloader.writePart.
  rewrite Hf, Hf', Hi.
  destruct (Utils.Offset r <? 0); [reflexivity|].
  destruct (negb _); reflexivity.
Qed.

Lemma downloadPart_file svc d r d' :
  Downloader.downloadPart svc d r = Ok d' -> is_Some (Downloader.file d').
Proof.
  intros H.
  apply downloadPart_succeeds in H as (result & data & _ & _ & _ & _ & _ & Hf).
  rewrite Hf. eauto.
Qed.

(** Each line of the log holds what [downloadPart] returned for its
    range. *)
Lemma Downloader_dispatch_records svc jobs fuel : forall d d0 res log,
  Downloader.dispatch svc fuel jobs d = (res, log) ->
  Downloader.input d = Downloader.input d0 ->
  is_Some (Downloader.file d) -> is_Some (Downloader.file d0) ->
  Forall (fun entry =>
            entry.2 = failure (Downloader.downloadPart svc d0 entry.1)) log.
Proof.
  induction fuel as [|fuel IH]; intros d d0 res log H Hi Hf Hf0.
  { injection H as <- <-. constructor. }
  rewrite Downloader_dispatch_unfold in H.
  destruct (Downloader.getNextRange d) as [[p|] d1] eqn:Hnext.
  2:{ injection H as <- <-. constructor. }
  apply Downloader_getNextRange_state in Hnext as (_ & _ & Hi1 & Hf1).
  destruct (jobs =? 0); [injection H as <- <-; constructor|].
  assert (is_Some (Downloader.file d1)) as Hsome1 by now rewrite Hf1.
  pose proof (downloadPart_failure svc d1 d0 p ltac:(congruence) Hsome1 Hf0)
    as Hsame.
  destruct (Downloader.downloadPart svc d1 p) as [d2|err| |] eqn:Hpart;
    try (injection H as <- <-; constructor).
  - rewrite traced_bind_unfold in H. unfold send in H. cbn [fst snd] in H.
    destruct (Downloader.dispatch svc fuel jobs d2) as [res2 log2] eqn:Hrest.
    cbn [fst snd app] in H. injection H as <- <-.
    pose proof (downloadPart_file _ _ _ _ Hpart) as Hsome2.
    apply downloadPart_state in Hpart as (_ & _ & Hi2 & _).
    constructor; [exact Hsame|].
    apply (IH d2 d0 res2 log2 Hrest); [congruence|assumption..].
  - rewrite traced_bind_unfold in H. unfold send in H. cbn [fst snd] in H.
    destruct (Downloader.dispatch svc fuel jobs d1) as [res2 log2] eqn:Hrest.
    cbn [fst snd app] in H. injection H as <- <-.
    constructor; [exact Hsame|].
    apply (IH d1 d0 res2 log2 Hrest); [congruence|assumption..].
Qed.

(** Whether the dispatch returns, and for which ranges, does not depend
    on what the service answers to the requests for the parts. *)
Lemma Downloader_dispatch_any svc svc' jobs fuel : forall d d' d4 log,
  Downloader.dispatch svc fuel jobs d = (Ok d4, log) ->
  Downloader.size d' = Downloader.size d ->
  Downloader.PartSize (Downloader.input d')
  = Downloader.PartSize (Downloader.input d) ->
  Downloader.offset d' = Downloader.offset d ->
  exists d4' log',
    Downloader.dispatch svc' fuel jobs d' = (Ok d4', log')
    /\ log'.*1 = log.*1.
Proof.
  induction fuel as [|fuel IH]; intros d d' d4 log H Hs Hp Ho;
    [discriminate H|].
  rewrite Downloader_dispatch_unfold in H.
  rewrite Downloader_dispatch_unfold.
  rewrite Downloader_getNextRange_step in H |- *.
  rewrite Hs, Hp, Ho.
  destruct (Parts.step _ _ _) as [[p next]|].
  2:{ injection H as <- <-. eauto. }
  destruct (jobs =? 0); [discriminate H|].
  set (d1 := Downloader.with_offset d next) in *.
  set (d1' := Downloader.with_offset d' next).
  assert (forall e e' : Downloader.Downloader,
            Downloader.size e = Downloader.size d1 ->
            Downloader.input e = Downloader.input d1 ->
            Downloader.offset e = Downloader.offset d1 ->
            Downloader.size e' = Downloader.size d1' ->
            Downloader.input e' = Downloader.input d1' ->
            Downloader.offset e' = Downloader.offset d1' ->
            forall d5 log5,
              Downloader.dispatch svc fuel jobs e = (Ok d5, log5) ->
              exists d4' log',
                Downloader.dispatch svc' fuel jobs e' = (Ok d4', log')
                /\ log'.*1 = log5.*1) as Hnext.
  { intros e e' Hs1 Hi1 Ho1 Hs1' Hi1' Ho1' d5 log5 Hrun.
    apply (IH e e' d5 log5 Hrun); cbn in *; congruence. }
  assert (exists e log5,
            Downloader.size e = Downloader.size d1
            /\ Downloader.input e = Downloader.input d1
            /\ Downloader.offset e = Downloader.offset d1
            /\ Downloader.dispatch svc fuel jobs e = (Ok d4, log5)
            /\ log.*1 = p :: log5.*1)
    as (e & log5 & Hs5 & Hi5 & Ho5 & Hrun5 & Hlog5).
  { destruct (Downloader.downloadPart svc d1 p) as [d2|err| |] eqn:Hpart;
      try discriminate H.
    - rewrite traced_bind_unfold in H. unfold send in H. cbn [fst snd] in H.
      destruct (Downloader.dispatch svc fuel jobs d2) as [[d5| | |] log5]
        eqn:Hrest; try discriminate H.
      cbn [fst snd app] in H. injection H as <- <-.
      apply downloadPart_state in Hpart as (_ & Hs2 & Hi2 & Ho2).
      exists d2, log5. auto.
    - rewrite traced_bind_unfold in H. unfold send in H. cbn [fst snd] in H.
      destruct (Downloader.dispatch svc fuel jobs d1) as [[d5| | |] log5]
        eqn:Hrest; try discriminate H.
      cbn [fst snd app] in H. injection H as <- <-.
      exists d1, log5. auto. }
  destruct (downloadPart_returns svc' d1' p) as [Hpanic Hhang].
  destruct (Downloader.downloadPart svc' d1' p) as [d2'|err'| |] eqn:Hpart';
    try congruence.
  - apply downloadPart_state in Hpart' as (_ & Hs2' & Hi2' & Ho2').
    destruct (Hnext e d2' Hs5 Hi5 Ho5 Hs2' Hi2' Ho2' d4 log5 Hrun5)
      as (d4' & log' & Hrun' & Hlog').
    exists d4', ((p, None) :: log').
    rewrite traced_bind_unfold, Hrun'. unfold send. cbn [fst snd app].
    split; [reflexivity|]. cbn. now rewrite Hlog', Hlog5.
  - destruct (Hnext e d1' Hs5 Hi5 Ho5 eq_refl eq_refl eq_refl d4 log5 Hrun5)
      as (d4' & log' & Hrun' & Hlog').
    exists d4', ((p, Some err') :: log').
    rewrite traced_bind_unfold, Hrun'. unfold send. cbn [fst snd app].
    split; [reflexivity|]. cbn. now rewrite Hlog', Hlog5.
Qed.

Lemma checkJob_service svc get d :
  Downloader.checkJob
    (Downloader.mkService (Downloader.DescribeJob svc) get) d
  = Downloader.checkJob svc d.
Proof. reflexivity. Qed.

(** C7. Take a [Download] run that reaches the final verification: the job
    is validated, the output file created and sized, and the dispatch of
    the parts has returned. Then [Download] returns what [checkTreeHash]
    returns on the completed file: the error "could not compute hash"
    when the tree hash of the file has no value, the error "hash
    mismatch" when it differs from the hash recorded by the job
    validation, and no error when they are equal, whether the parts
    reported success or not. Conversely a part that fails is logged with
    its error and nothing more: the log holds every range of the
    producer, in some order, each with what [downloadPart] returned for
    it; and had the service answered the requests for the parts in any
    other way, failing any of them, the dispatch would have returned as
    well, with the same ranges attempted, and [Download] would have
    gone on to the final verification and returned its result. The
    dispatch itself never returns an error. *)
Theorem Download_verification (svc : Downloader.Service)
    (dest : Downloader.destination) (fuel : nat) (jobs : Z)
    (d d1 d2 d3 d4 : Downloader.Downloader)
    (log : list Downloader.LogEntry) :
  Downloader.checkJob svc d = Ok d1 ->
  Downloader.openFile dest d1 = Ok d2 ->
  Downloader.truncate d2 = Ok d3 ->
  Downloader.multipartDownload svc fuel jobs d3 = (Ok d4, log) ->
  exists expected,
    Downloader.treeHash d1 = Some expected
    /\ Downloader.treeHash d4 = Some expected
    /\ Downloader.Download svc dest fuel jobs d
       = (Downloader.checkTreeHash d4, log)
    /\ (Utils.ComputeTreeHash (File.contents (Downloader.file d4)) = None ->
        Downloader.Download svc dest fuel jobs d
        = (Err "could not compute hash", log))
    /\ (forall computed,
          Utils.ComputeTreeHash (File.contents (Downloader.file d4))
          = Some computed ->
          (computed <> expected ->
             Downloader.Download svc dest fuel jobs d
             = (Err "hash mismatch", log))
          /\ (computed = expected ->
              Downloader.Download svc dest fuel jobs d = (Ok tt, log)))
    /\ (exists rs, Downloader.produce fuel d3 = Ok rs /\ log.*1 ≡ₚ rs)
    /\ Forall (fun entry =>
                 entry.2 = failure (Downloader.downloadPart svc d3 entry.1))
              log
    /\ (forall get,
          exists d4' log',
            Downloader.multipartDownload
              (Downloader.mkService (Downloader.DescribeJob svc) get)
              fuel jobs d3 = (Ok d4', log')
            /\ log'.*1 ≡ₚ log.*1
            /\ Forall (fun entry =>
                         entry.2
                         = failure
                             (Downloader.downloadPart
                                (Downloader.mkService
                                   (Downloader.DescribeJob svc) get)
                                d3 entry.1)) log'
            /\ Downloader.Download
                 (Downloader.mkService (Downloader.DescribeJob svc) get)
                 dest fuel jobs d
               = (Downloader.checkTreeHash d4', log'))
    /\ (forall d0 res log0,
          Downloader.multipartDownload svc fuel jobs d0 = (res, log0) ->
          forall msg, res <> Err msg).
Proof.
  intros Hjob Hopen Htrunc Hrun.
  destruct (checkJob_records _ _ _ Hjob) as (result & expected & _ & _ & _ & Hexp & _).
  pose proof (Downloader_openFile_state _ _ _ Hopen) as Hd2.
  pose proof (Downloader_truncate_state _ _ Htrunc) as Hd3.
  assert (is_Some (Downloader.file d3)) as Hfile by (rewrite Hd3; cbn; eauto).
  assert (Downloader.treeHash d3 = Some expected) as Hexp3
    by (rewrite Hd3, Hd2; exact Hexp).
  assert (forall svc0 d5 log5,
            Downloader.checkJob svc0 d = Ok d1 ->
            Downloader.multipartDownload svc0 fuel jobs d3 = (Ok d5, log5) ->
            Downloader.Download svc0 dest fuel jobs d
            = (Downloader.checkTreeHash d5, log5)) as Hdown.
  { intros svc0 d5 log5 Hjob0 Hrun0.
    rewrite Download_unfold, Hjob0. cbn [mbind outcome_bind].
    rewrite Hopen. cbn [mbind outcome_bind]. rewrite Htrunc.
    rewrite traced_bind_unfold, Hrun0. cbn. now rewrite app_nil_r. }
  destruct (multipartDownload_log _ _ _ _ _ _ Hrun) as [_ Hok].
  destruct (Hok d4 eq_refl) as (Hprod & Hhash & _).
  pose proof (Hdown svc d4 log Hjob Hrun) as Hdownload.
  assert (Downloader.treeHash d4 = Some expected) as Hexp4 by congruence.
  destruct (checkTreeHash_cases d4 expected Hexp4) as [Hnone Hsome].
  assert ((jobs <? 0) = false) as Hjobs.
  { unfold Downloader.multipartDownload in Hrun.
    destruct (jobs <? 0); [discriminate Hrun|reflexivity]. }
  exists expected. split; [exact Hexp|]. split; [exact Hexp4|].
  split; [exact Hdownload|]. rewrite Hdownload.
  split; [|split; [|split; [|split; [|split]]]].
  - intros H. now rewrite (Hnone H).
  - intros computed H. destruct (Hsome computed H) as [Hne Heq].
    split; intros Hc; [now rewrite (Hne Hc)|now rewrite (Heq Hc)].
  - exists (log.*1). split; [exact Hprod|reflexivity].
  - unfold Downloader.multipartDownload in Hrun. rewrite Hjobs in Hrun.
    now apply (Downloader_dispatch_records svc jobs fuel d3 d3 _ _ Hrun).
  - intros get.
    set (svc' := Downloader.mkService (Downloader.DescribeJob svc) get).
    unfold Downloader.multipartDownload in Hrun. rewrite Hjobs in Hrun.
    destruct (Downloader_dispatch_any svc svc' jobs fuel d3 d3 d4 log Hrun
                eq_refl eq_refl eq_refl) as (d4' & log' & Hrun' & Hlog').
    assert (Downloader.multipartDownload svc' fuel jobs d3 = (Ok d4', log'))
      as Hmulti
      by (unfold Downloader.multipartDownload; now rewrite Hjobs).
    exists d4', log'. split; [exact Hmulti|].
    split; [now rewrite Hlog'|].
    split.
    + now apply (Downloader_dispatch_records svc' jobs fuel d3 d3 _ _ Hrun').
    + apply Hdown; [|exact Hmulti]. unfold svc'.
      now rewrite checkJob_service.
  - intros d0 res log0 H0.
    now destruct (multipartDownload_log _ _ _ _ _ _ H0).
Qed.

(** Every part reports success and yet the run fails: the service sends
    four bytes that are not those of the archive, without a checksum.
    And when the same service refuses the part, the run goes on to the
    same verification all the same, with the refusal in its log. *)
Lemma Download_verification_witness :
  let describe := fun _ : Downloader.Input =>
    inl (Downloader.mkJob "ArchiveRetrieval" "Succeeded" None (Some 4)
           (Some "9f86d081884c7d659a2feaa0c55ad015a3bf4f1b2b0b822cd15d6c15b0f00a08")) in
  let svc :=
    Downloader.mkService describe
      (fun _ _ => inl (Downloader.mkOutput [x74; x65; x73; x54] None)) in
  let svc' :=
    Downloader.mkService describe (fun _ _ => inr "connection reset") in
  let d := Downloader.New (Downloader.mkInput "-" "vault" "file" "job" 4) in
  Downloader.Download svc Downloader.Free 2 1 d
  = (Err "hash mismatch", [(Utils.mkRange 0 4, None)])
  /\ Downloader.Download svc' Downloader.Free 2 1 d
     = (Err "hash mismatch", [(Utils.mkRange 0 4, Some "connection reset")]).
Proof.
  cbv zeta.
  set (describe := fun _ : Downloader.Input => _).
  set (svc := Downloader.mkService describe _).
  set (d := Downloader.New _).
  eassert (Downloader.checkJob svc d = Ok _) as Hjob by reflexivity.
  match type of Hjob with
  | _ = Ok ?d1 =>
      eassert (Downloader.openFile Downloader.Free d1 = Ok _) as Hopen
        by reflexivity
  end.
  match type of Hopen with
  | _ = Ok ?d2 =>
      eassert (Downloader.truncate d2 = Ok _) as Htrunc by reflexivity
  end.
  match type of Htrunc with
  | _ = Ok ?d3 =>
      eassert (Downloader.multipartDownload svc 2 1 d3 = (Ok _, _)) as Hrun
        by (vm_compute; reflexivity)
  end.
  destruct (Download_verification svc Downloader.Free 2 1 d _ _ _ _ _
              Hjob Hopen Htrunc Hrun)
    as (expected & Hexp & _ & _ & _ & Hsome & _ & _ & Hany & _).
  injection Hexp as <-. split.
  - eapply Hsome; [vm_compute; reflexivity|discriminate].
  - destruct (Hany (fun _ _ => inr "connection reset"))
      as (d4' & log' & Hrun' & _ & _ & Hdown).
    change (Downloader.mkService (Downloader.DescribeJob svc)
              (fun _ _ => inr "connection reset"))
      with (Downloader.mkService describe
              (fun (_ : Downloader.Input) (_ : string) =>
                 @inr Downloader.GetJobOutputOutput string "connection reset"))
      in Hrun', Hdown.
    rewrite Hdown. vm_compute in Hrun'. injection Hrun' as <- <-.
    vm_compute. reflexivity.
Defined.
